(** * A shallow embedding of the logging collector (syslogger.c)

    The collector reads framed log chunks from a pipe, reassembles the
    chunks of every producer pid, routes completed records to rotating
    log files and exits on pipe EOF.  This development models the pipe
    protocol parser, the reassembly buffers, the rotation engine, the
    retention sweep, the meta-info writer and the main loop, and proves
    properties of them. *)

From Stdlib Require Import ZArith Lia Bool.
From Stdlib Require Import Strings.Byte Strings.Ascii Strings.String.
From Stdlib Require OrderedTypeEx.
From stdpp Require Import base tactics option list numbers pretty.

Local Open Scope Z_scope.

(** ** Constants that live in headers *)

(** The flag bits of a chunk header and the destination bits of
    [Log_destination] are declared in syslogger.h and elog.h; the file
    suffixes in PolarDB's headers.  syslogger.c only names them, so the
    model takes them as the fields of one interface. *)
Class SysloggerHeaders := {
  PIPE_PROTO_IS_LAST : Z;
  PIPE_PROTO_DEST_STDERR : Z;
  PIPE_PROTO_DEST_CSVLOG : Z;
  PIPE_PROTO_DEST_JSONLOG : Z;
  POLAR_PIPE_PROTO_DEST_AUDITLOG : Z;
  POLAR_PIPE_PROTO_DEST_SLOWLOG : Z;
  LOG_DESTINATION_STDERR : Z;
  LOG_DESTINATION_CSVLOG : Z;
  LOG_DESTINATION_JSONLOG : Z;
  LOG_DESTINATION_POLAR_AUDITLOG : Z;
  LOG_DESTINATION_POLAR_SLOWLOG : Z;
  SYSLOG_SUFFIX : string;
  AUDITLOG_SUFFIX : string;
  SLOWLOG_SUFFIX : string;
  MAXPGPATH : Z
}.

(** ** Bytes and the chunk header *)

Abbreviation byte := Byte.byte.

Definition byte_val (b : byte) : Z := Z.of_N (Byte.to_N b).

(** [cursor[i]] for a cursor that has more than [i] bytes left. *)
Definition byte_at (cursor : list byte) (i : nat) : Z :=
  byte_val (nth i cursor x00).

(** Modelled from the spec: the layout of [PipeProtoHeader] (syslogger.h
    is not among the sources): two sentinel bytes, a 16-bit length, a
    32-bit signed pid and one flag byte, nine bytes in all, multi-byte
    fields little-endian. *)
Record PipeProtoHeader := {
  nuls0 : Z;
  nuls1 : Z;
  len : Z;
  pid : Z;
  flags : Z
}.

Definition PIPE_HEADER_SIZE : Z := 9.

Definition to_int32 (u : Z) : Z :=
  if u <? 2 ^ 31 then u else u - 2 ^ 32.

Definition to_bits8 (x : Z) : Z := x mod 256.

(** [memcpy(&p, cursor, offsetof(PipeProtoHeader, data))] *)
Definition decode_header (cursor : list byte) : PipeProtoHeader :=
  {| nuls0 := byte_at cursor 0;
     nuls1 := byte_at cursor 1;
     len := byte_at cursor 2 + 256 * byte_at cursor 3;
     pid := to_int32 (byte_at cursor 4 + 2 ^ 8 * byte_at cursor 5
                      + 2 ^ 16 * byte_at cursor 6 + 2 ^ 24 * byte_at cursor 7);
     flags := byte_at cursor 8 |}.

(** Modelled from the spec: [pg_popcount] of one byte (pg_bitutils is not
    among the sources) is the number of bits set in it. *)
Definition bit_of (x : Z) (i : Z) : Z := if Z.testbit x i then 1 else 0.

Definition pg_popcount8 (x : Z) : Z :=
  bit_of x 0 + bit_of x 1 + bit_of x 2 + bit_of x 3
  + bit_of x 4 + bit_of x 5 + bit_of x 6 + bit_of x 7.

(** ** Reassembly buffers *)

Record save_buffer := {
  sb_pid : Z;               (* PID of source process, 0 when unused *)
  sb_data : list byte       (* accumulated data *)
}.

Definition NBUFFER_LISTS : Z := 256.

(** [buffer_lists]: an array of [NBUFFER_LISTS] lists of buffers. *)
Abbreviation buffer_lists_t := (list (list save_buffer)).

Definition initial_buffer_lists : buffer_lists_t :=
  replicate (Z.to_nat NBUFFER_LISTS) [].

(** ** Output events *)

(** One call of [write_syslogger_file(buffer, count, destination)].  The
    field [w_origin] is a ghost: it records the call site, the source pid
    for protocol data and for a buffer dumped at shutdown, [None] for
    non-protocol data and for the bytes left in the read buffer; the C
    function does not see it. *)
Record write_event := {
  w_origin : option Z;
  w_bytes : list byte;
  w_dest : Z
}.

(** What can go wrong in the model: an index outside [buffer_lists]
    (undefined behaviour in C), or the iteration bound of the model's
    loop being exhausted. *)
Inductive outcome (A : Type) : Type :=
  | Done (a : A)
  | OutOfBounds
  | OutOfFuel.
Arguments Done {A} a.
Arguments OutOfBounds {A}.
Arguments OutOfFuel {A}.

Section PipeProtocol.
Context `{SysloggerHeaders}.

Definition all_dest_flags : Z :=
  Z.lor PIPE_PROTO_DEST_STDERR
    (Z.lor PIPE_PROTO_DEST_CSVLOG
       (Z.lor PIPE_PROTO_DEST_JSONLOG
          (Z.lor POLAR_PIPE_PROTO_DEST_AUDITLOG POLAR_PIPE_PROTO_DEST_SLOWLOG))).

Definition dest_flags_of (p : PipeProtoHeader) : Z :=
  to_bits8 (Z.land (flags p) all_dest_flags).

(** "Do we have a valid header?" *)
Definition header_valid (p : PipeProtoHeader) : bool :=
  (nuls0 p =? 0) && (nuls1 p =? 0) && (0 <? len p) && negb (pid p =? 0)
  && (pg_popcount8 (dest_flags_of p) =? 1).

(** The if-cascade that picks [dest]; [dest] keeps its old value in the
    branch the source marks as unreachable. *)
Definition select_dest (p : PipeProtoHeader) (dest : Z) : Z :=
  if negb (Z.land (flags p) PIPE_PROTO_DEST_STDERR =? 0) then LOG_DESTINATION_STDERR
  else if negb (Z.land (flags p) PIPE_PROTO_DEST_CSVLOG =? 0) then LOG_DESTINATION_CSVLOG
  else if negb (Z.land (flags p) PIPE_PROTO_DEST_JSONLOG =? 0) then LOG_DESTINATION_JSONLOG
  else if negb (Z.land (flags p) POLAR_PIPE_PROTO_DEST_AUDITLOG =? 0)
       then LOG_DESTINATION_POLAR_AUDITLOG
  else if negb (Z.land (flags p) POLAR_PIPE_PROTO_DEST_SLOWLOG =? 0)
       then LOG_DESTINATION_POLAR_SLOWLOG
  else dest.

(** The [foreach] over one buffer list: the index of the buffer of
    [src], if the scan reaches one, and the index of the first unused
    buffer seen before that. *)
Fixpoint locate (src : Z) (l : list save_buffer) (i : nat) (free_slot : option nat)
  : option nat * option nat :=
  match l with
  | [] => (None, free_slot)
  | buf :: l' =>
      if sb_pid buf =? src then (Some i, free_slot)
      else locate src l' (S i)
             (if (sb_pid buf =? 0) && negb (bool_decide (is_Some free_slot))
              then Some i else free_slot)
  end.

(** The body of the valid-header branch after [dest] is known: update
    the buffers of [pid p] with the chunk's payload and write the
    record out if the chunk is the last one.  [None] when
    [pid p % NBUFFER_LISTS] is not an index of [buffer_lists]. *)
Definition save_chunk (bl : buffer_lists_t) (p : PipeProtoHeader)
    (payload : list byte) (dest : Z) : option (buffer_lists_t * list write_event) :=
  let idx := Z.rem (pid p) NBUFFER_LISTS in
  if idx <? 0 then None else
  match bl !! Z.to_nat idx with
  | None => None
  | Some buffer_list =>
      let '(existing_slot, free_slot) := locate (pid p) buffer_list 0%nat None in
      if Z.land (flags p) PIPE_PROTO_IS_LAST =? 0 then
        match existing_slot with
        | Some e =>
            let str := default [] (sb_data <$> buffer_list !! e) in
            Some (<[Z.to_nat idx := <[e := {| sb_pid := pid p; sb_data := str ++ payload |}]> buffer_list]> bl, [])
        | None =>
            let fresh := {| sb_pid := pid p; sb_data := payload |} in
            match free_slot with
            | None => Some (<[Z.to_nat idx := buffer_list ++ [fresh]]> bl, [])
            | Some f => Some (<[Z.to_nat idx := <[f := fresh]> buffer_list]> bl, [])
            end
        end
      else
        match existing_slot with
        | Some e =>
            let str := default [] (sb_data <$> buffer_list !! e) in
            Some (<[Z.to_nat idx := <[e := {| sb_pid := 0; sb_data := [] |}]> buffer_list]> bl,
                  [{| w_origin := Some (pid p); w_bytes := str ++ payload; w_dest := dest |}])
        | None =>
            Some (bl, [{| w_origin := Some (pid p); w_bytes := payload; w_dest := dest |}])
        end
  end.

(** The scan for the next zero byte:
    [for (chunklen = 1; chunklen < count; chunklen++) if (cursor[chunklen] == 0) break;]
    [l] holds the bytes from [cursor[chunklen]] on. *)
Fixpoint scan_nul (l : list byte) (chunklen : Z) : Z :=
  match l with
  | [] => chunklen
  | b :: l' => if byte_val b =? 0 then chunklen else scan_nul l' (chunklen + 1)
  end.

(** One pass through the body of the [while] loop. *)
Inductive iteration : Type :=
  | Break                  (* the chunk is not complete yet *)
  | Crash                  (* out-of-bounds access *)
  | Next (bl : buffer_lists_t) (cursor : list byte) (dest : Z) (out : list write_event).

Definition pp_iter (bl : buffer_lists_t) (cursor : list byte) (dest : Z) : iteration :=
  let count := Z.of_nat (length cursor) in
  let p := decode_header cursor in
  if header_valid p then
    let chunklen := PIPE_HEADER_SIZE + len p in
    if count <? chunklen then Break
    else
      let dest' := select_dest p dest in
      let payload := take (Z.to_nat (len p)) (drop (Z.to_nat PIPE_HEADER_SIZE) cursor) in
      match save_chunk bl p payload dest' with
      | None => Crash
      | Some (bl', out) => Next bl' (drop (Z.to_nat chunklen) cursor) dest' out
      end
  else
    let chunklen := scan_nul (drop 1 cursor) 1 in
    Next bl (drop (Z.to_nat chunklen) cursor) dest
      [{| w_origin := None; w_bytes := take (Z.to_nat chunklen) cursor;
          w_dest := LOG_DESTINATION_STDERR |}].

(** The [while (count >= offsetof(PipeProtoHeader, data) + 1)] loop; the
    remaining bytes [cursor] stand for the pair cursor/count.  The result
    holds the buffers, the writes in the order they were issued, and the
    bytes not eaten. *)
Fixpoint pp_loop (fuel : nat) (bl : buffer_lists_t) (cursor : list byte) (dest : Z)
    : outcome (buffer_lists_t * list write_event * list byte) :=
  if Z.of_nat (length cursor) <? PIPE_HEADER_SIZE + 1 then Done (bl, [], cursor)
  else
    match fuel with
    | O => OutOfFuel
    | S fuel' =>
        match pp_iter bl cursor dest with
        | Break => Done (bl, [], cursor)
        | Crash => OutOfBounds
        | Next bl' cursor' dest' out =>
            match pp_loop fuel' bl' cursor' dest' with
            | Done (bl'', out', rest) => Done (bl'', out ++ out', rest)
            | OutOfBounds => OutOfBounds
            | OutOfFuel => OutOfFuel
            end
        end
    end.

(** [process_pipe_input(logbuffer, &bytes_in_logbuffer)]: the new
    buffers, the writes issued, and the bytes left in [logbuffer]. *)
Definition process_pipe_input (bl : buffer_lists_t) (logbuffer : list byte)
  : outcome (buffer_lists_t * list write_event * list byte) :=
  pp_loop (length logbuffer) bl logbuffer LOG_DESTINATION_STDERR.

(** Successive reads from the pipe, each followed by a call of
    [process_pipe_input] on what is left over plus the new bytes, as the
    main loop does for every read that returns data. *)
Fixpoint read_loop (bl : buffer_lists_t) (logbuffer : list byte) (reads : list (list byte))
  : outcome (buffer_lists_t * list write_event * list byte) :=
  match reads with
  | [] => Done (bl, [], logbuffer)
  | data :: reads' =>
      match process_pipe_input bl (logbuffer ++ data) with
      | Done (bl', out, logbuffer') =>
          match read_loop bl' logbuffer' reads' with
          | Done (bl'', out', rest) => Done (bl'', out ++ out', rest)
          | OutOfBounds => OutOfBounds
          | OutOfFuel => OutOfFuel
          end
      | OutOfBounds => OutOfBounds
      | OutOfFuel => OutOfFuel
      end
  end.

(** *** The producer's side, for stating what the parser recovers *)

(** Modelled from the spec: what a producer puts on the pipe (the code
    that writes chunks is not among the sources): a header in the layout
    above, then the payload; a record is one or more chunks, the last
    one flagged. *)

(** A chunk as a producer writes it: header fields and payload. *)
Record chunk := {
  c_pid : Z;
  c_flags : Z;
  c_payload : list byte
}.

Definition byte_of (z : Z) : byte := default x00 (Byte.of_N (Z.to_N z)).

Definition header_of (c : chunk) : PipeProtoHeader :=
  {| nuls0 := 0; nuls1 := 0; len := Z.of_nat (length (c_payload c));
     pid := c_pid c; flags := c_flags c |}.

Definition header_bytes (c : chunk) : list byte :=
  let n := Z.of_nat (length (c_payload c)) in
  [ x00; x00;
    byte_of (n mod 256); byte_of (n / 256);
    byte_of (c_pid c mod 256); byte_of (c_pid c / 2 ^ 8 mod 256);
    byte_of (c_pid c / 2 ^ 16 mod 256); byte_of (c_pid c / 2 ^ 24 mod 256);
    byte_of (c_flags c) ].

Definition encode_chunk (c : chunk) : list byte :=
  header_bytes c ++ c_payload c.

(** The chunks the parser accepts as protocol data from a real process:
    a positive pid, a payload of 1 to 65535 bytes, a flag byte with
    exactly one destination bit. *)
Definition chunk_ok (c : chunk) : bool :=
  (0 <? c_pid c) && (c_pid c <? 2 ^ 31)
  && (0 <=? c_flags c) && (c_flags c <? 256)
  && (0 <? Z.of_nat (length (c_payload c))) && (Z.of_nat (length (c_payload c)) <? 65536)
  && (pg_popcount8 (dest_flags_of (header_of c)) =? 1).

Definition is_last (c : chunk) : bool :=
  negb (Z.land (c_flags c) PIPE_PROTO_IS_LAST =? 0).

Definition stream (cs : list chunk) : list byte :=
  concat (encode_chunk <$> cs).

Definition payloads (cs : list chunk) : list byte :=
  concat (c_payload <$> cs).

Definition chunks_of (src : Z) (cs : list chunk) : list chunk :=
  filter (fun c => c_pid c = src) cs.

Definition records_of (src : Z) (out : list write_event) : list write_event :=
  filter (fun w => w_origin w = Some src) out.

Definition written (out : list write_event) : list byte :=
  concat (w_bytes <$> out).

(** What the buffers hold for a pid: the data of its buffer in the list
    the pid hashes to, nothing when it has none. *)
Fixpoint bucket_data (src : Z) (l : list save_buffer) : option (list byte) :=
  match l with
  | [] => None
  | buf :: l' => if sb_pid buf =? src then Some (sb_data buf) else bucket_data src l'
  end.

Definition pending (bl : buffer_lists_t) (src : Z) : list byte :=
  match bl !! Z.to_nat (Z.rem src NBUFFER_LISTS) with
  | Some l => default [] (bucket_data src l)
  | None => []
  end.

(** The buffers in use, list by list. *)
Definition active_slots (bl : buffer_lists_t) : list save_buffer :=
  filter (fun buf => sb_pid buf <> 0) (concat bl).

End PipeProtocol.

(** ** Configuration, files and the collector's state *)

(** The configuration values (GUCs) the collector reads. *)
Record config := {
  Log_RotationAge : Z;
  Log_RotationSize : Z;
  Log_directory : string;
  Log_filename : string;
  Log_truncate_on_rotation : bool;
  Log_destination : Z;
  polar_max_log_files : Z;
  polar_max_auditlog_files : Z;
  polar_max_slowlog_files : Z
}.

Inductive errno : Type :=
  | ENFILE
  | EMFILE
  | EINTR
  | ENOENT
  | EOTHER (code : Z).

Inductive open_mode : Type :=
  | mode_w
  | mode_a.

(** An open stdio stream, known by the path and the mode it was opened
    with. *)
Record FILE := {
  f_path : string;
  f_mode : open_mode
}.

(** A destination's pair of variables, as [logfile_rotate_dest] receives
    it through [FILE **logFile] and [char **last_file_name]. *)
Record file_slot := {
  logFile : option FILE;
  last_file_name : option string
}.

(** syslogFile/last_sys_file_name, csvlogFile/last_csv_file_name,
    jsonlogFile/last_json_file_name, auditlogFile/polar_last_audit_file_name,
    slowlogFile/polar_last_slowlog_file_name. *)
Record file_slots := {
  slot_sys : file_slot;
  slot_csv : file_slot;
  slot_json : file_slot;
  slot_audit : file_slot;
  slot_slow : file_slot
}.

Record rotation_state := {
  next_rotation_time : Z;
  rotation_disabled : bool;
  rotation_requested : bool
}.

(** What [update_metainfo_datafile] did. *)
Inductive metainfo_result : Type :=
  | MetaUnlink                       (* no destination enabled: the file is unlinked *)
  | MetaOpenFailed                   (* the temporary file could not be opened *)
  | MetaWriteFailed (written : list string) (failed : string)
  | MetaWritten (lines : list string) (renamed : bool).

(** The calls the collector makes to the outside, in order. *)
Inductive io : Type :=
  | IoOpen (path : string) (mode : open_mode) (result : option errno)
  | IoClose (f : FILE)
  | IoDropCache (path : string)           (* polar_drop_log_page_cache *)
  | IoRemove (path : string)              (* polar_remove_log_file *)
  | IoMkdir (path : string)               (* MakePGDirectory *)
  | IoLog (msg : string)                  (* ereport(LOG, ...), which elog.c hands
                                             to write_syslogger_file *)
  | IoMeta (r : metainfo_result)          (* update_metainfo_datafile *)
  | IoWrite (w : write_event) (file : option FILE)
  | IoFlush (destination : Z) (file : option FILE)
  | IoWait (cur_timeout : Z) (timeout_armed : bool).

(** The answers of the file system to [update_metainfo_datafile]. *)
Record meta_env := {
  tmp_open_ok : bool;
  fprintf_ok : string -> bool;
  rename_ok : bool
}.

(** The answers of the outside to one call of [logfile_rotate]. *)
Record rotate_env := {
  e_fopen : string -> open_mode -> option errno;  (* [None]: the open succeeds *)
  e_time_rotate : Z;                (* time(NULL) read by logfile_rotate *)
  e_time_next : Z;                  (* time(NULL) read by set_next_rotation_time *)
  e_meta : meta_env
}.

(** The time-zone library: [pg_strftime(buf, maxsize, format,
    pg_localtime(&t, log_timezone))] as the string it leaves in [buf],
    and [pg_localtime(&t, log_timezone)->tm_gmtoff]. *)
Class TimeLibrary := {
  pg_strftime : Z -> string -> Z -> string;
  tm_gmtoff : Z -> Z
}.

(** *** C strings *)

Definition strlen (s : string) : Z := Z.of_nat (String.length s).

(** What [snprintf(buf, size, ...)] and [strlcpy(buf, src, size)] leave in
    [buf] when the text to store is [s]: at most [size - 1] characters. *)
Definition c_trunc (size : Z) (s : string) : string :=
  String.substring 0 (Z.to_nat (size - 1)) s.

(** [strlcpy(filename + len, src, size)]: the first [len] characters stay,
    the copy follows. *)
Definition strlcpy_at (filename : string) (len : Z) (src : string) (size : Z) : string :=
  String.append (String.substring 0 (Z.to_nat len) filename) (c_trunc size src).

(** The "%d" conversion. *)
Definition int_to_string (z : Z) : string := pretty.pretty z.

(** The position of the first '%' of a pattern, its length if there is
    none: [for (i = 0; s[i] != '\0' && s[i] != '%'; i++);] *)
Fixpoint first_percent (s : string) : nat :=
  match s with
  | EmptyString => 0%nat
  | String a s' => if Ascii.eqb a "%"%char then 0%nat else S (first_percent s')
  end.

Section Files.
Context `{SysloggerHeaders} `{TimeLibrary}.

(** [logfile_getname(timestamp, suffix)] *)
Definition logfile_getname (cfg : config) (MyLoggerIndex : Z) (timestamp : Z)
    (suffix : option string) : string :=
  let filename := c_trunc MAXPGPATH (String.append (Log_directory cfg) "/") in
  let len := strlen filename in
  let filename :=
    String.append filename (pg_strftime (MAXPGPATH - len) (Log_filename cfg) timestamp) in
  match suffix with
  | None => filename
  | Some suffix =>
      let len := strlen filename in
      let len :=
        if (4 <? len)
           && String.eqb (String.substring (Z.to_nat (len - 4)) 4 filename) ".log"
        then len - 4 else len in
      let '(filename, len) :=
        if String.eqb suffix AUDITLOG_SUFFIX then
          let loggerIndexStr := c_trunc 10 (String.append "_" (int_to_string MyLoggerIndex)) in
          let filename := strlcpy_at filename len loggerIndexStr (MAXPGPATH - len) in
          (filename, strlen filename)
        else (filename, len) in
      strlcpy_at filename len suffix (MAXPGPATH - len)
  end.

(** [int rotinterval = Log_RotationAge * SECS_PER_MINUTE]: the product
    of two [int]s, kept in an [int].  Above [INT_MAX] it wraps around at
    32 bits, as the compiled code does (to C the overflow is
    undefined). *)
Definition rotinterval_of (Log_RotationAge : Z) : Z :=
  to_int32 ((Log_RotationAge * 60) mod 2 ^ 32).

(** [set_next_rotation_time()]: the new value of [next_rotation_time],
    given the clock reading [now].  [now] is a 64-bit [pg_time_t], and
    [%] on it is C's remainder, [Z.rem].  A [Log_RotationAge] above
    [INT_MAX / 60] gives a wrapped interval, negative or, at [2 ^ 30],
    zero; with zero the [%] is a division by zero, undefined in C, for
    which [Z.rem] returns the dividend. *)
Definition set_next_rotation_time (cfg : config) (now : Z) (next_rotation_time : Z) : Z :=
  if Log_RotationAge cfg <=? 0 then next_rotation_time
  else
    let rotinterval := rotinterval_of (Log_RotationAge cfg) in
    let gmtoff := tm_gmtoff now in
    let now := now + gmtoff in
    let now := now - Z.rem now rotinterval in
    let now := now + rotinterval in
    now - gmtoff.

(** [get_logfile_from_dest(destination)] *)
Definition get_logfile_from_dest (fs : file_slots) (destination : Z) : option FILE :=
  if (destination =? LOG_DESTINATION_CSVLOG) && bool_decide (is_Some (logFile (slot_csv fs)))
  then logFile (slot_csv fs)
  else if (destination =? LOG_DESTINATION_JSONLOG) && bool_decide (is_Some (logFile (slot_json fs)))
  then logFile (slot_json fs)
  else if (destination =? LOG_DESTINATION_POLAR_AUDITLOG)
          && bool_decide (is_Some (logFile (slot_audit fs)))
  then logFile (slot_audit fs)
  else if (destination =? LOG_DESTINATION_POLAR_SLOWLOG)
          && bool_decide (is_Some (logFile (slot_slow fs)))
  then logFile (slot_slow fs)
  else logFile (slot_sys fs).

(** [write_syslogger_file] and [flush_syslogger_file] as calls on the
    stream the destination resolves to. *)
Definition write_syslogger_file (fs : file_slots) (w : write_event) : io :=
  IoWrite w (get_logfile_from_dest fs (w_dest w)).

Definition flush_syslogger_file (fs : file_slots) (destination : Z) : io :=
  IoFlush destination (get_logfile_from_dest fs destination).

(** *** The meta-info file *)

Definition dest_enabled (cfg : config) (destination : Z) : bool :=
  negb (Z.land (Log_destination cfg) destination =? 0).

(** The five guarded [fprintf] calls of [update_metainfo_datafile], in
    order: the name variable, the destination bit and the line's first
    word. *)
Definition metainfo_entries (fs : file_slots) : list (option string * Z * string) :=
  [ (last_file_name (slot_sys fs), LOG_DESTINATION_STDERR, "stderr"%string);
    (last_file_name (slot_csv fs), LOG_DESTINATION_CSVLOG, "csvlog"%string);
    (last_file_name (slot_json fs), LOG_DESTINATION_JSONLOG, "jsonlog"%string);
    (last_file_name (slot_audit fs), LOG_DESTINATION_POLAR_AUDITLOG, "auditlog"%string);
    (last_file_name (slot_slow fs), LOG_DESTINATION_POLAR_SLOWLOG, "slowlog"%string) ].

Definition newline : string := String (Ascii.ascii_of_nat 10) EmptyString.

Definition metainfo_line (kind : string) (name : string) : string :=
  String.append kind (String.append " " (String.append name newline)).

(** The line an entry contributes when every write succeeds. *)
Definition entry_line (cfg : config) (entry : option string * Z * string) : option string :=
  let '(name, destination, kind) := entry in
  if dest_enabled cfg destination then metainfo_line kind <$> name else None.

(** Run the guarded [fprintf] calls; stop at the first one that fails. *)
Fixpoint metainfo_write (cfg : config) (menv : meta_env)
    (entries : list (option string * Z * string)) (written : list string) : metainfo_result :=
  match entries with
  | [] => MetaWritten written (rename_ok menv)
  | (name, destination, kind) :: entries' =>
      match name with
      | Some n =>
          if dest_enabled cfg destination then
            if fprintf_ok menv (metainfo_line kind n)
            then metainfo_write cfg menv entries' (written ++ [metainfo_line kind n])
            else MetaWriteFailed written (metainfo_line kind n)
          else metainfo_write cfg menv entries' written
      | None => metainfo_write cfg menv entries' written
      end
  end.

(** [update_metainfo_datafile()] *)
Definition update_metainfo_datafile (cfg : config) (fs : file_slots) (menv : meta_env)
  : metainfo_result :=
  if negb (dest_enabled cfg LOG_DESTINATION_STDERR)
     && negb (dest_enabled cfg LOG_DESTINATION_CSVLOG)
     && negb (dest_enabled cfg LOG_DESTINATION_JSONLOG)
     && negb (dest_enabled cfg LOG_DESTINATION_POLAR_AUDITLOG)
     && negb (dest_enabled cfg LOG_DESTINATION_POLAR_SLOWLOG)
  then MetaUnlink
  else if negb (tmp_open_ok menv) then MetaOpenFailed
  else metainfo_write cfg menv (metainfo_entries fs) [].

(** The lines that reached the temporary file. *)
Definition metainfo_written (r : metainfo_result) : list string :=
  match r with
  | MetaUnlink | MetaOpenFailed => []
  | MetaWriteFailed written _ => written
  | MetaWritten lines _ => lines
  end.

(** The [ereport(LOG, ...)] calls of [update_metainfo_datafile]; the
    unlink of the [MetaUnlink] case reports only a failing unlink, which
    the model does not follow. *)
Definition metainfo_logs (r : metainfo_result) : list string :=
  match r with
  | MetaUnlink => []
  | MetaOpenFailed => ["could not open file"%string]
  | MetaWriteFailed _ _ => ["could not write file"%string]
  | MetaWritten _ true => []
  | MetaWritten _ false => ["could not rename file"%string]
  end.

End Files.

(** ** The rotation engine *)

Section Rotation.
Context `{SysloggerHeaders} `{TimeLibrary}.

Definition transient_errno (e : errno) : bool :=
  match e with
  | ENFILE | EMFILE => true
  | _ => false
  end.

(** The file extension of a destination; [None] stands for the NULL the
    variable keeps in the branch the source marks as impossible. *)
Definition logFileExt_of (target_dest : Z) : option string :=
  if target_dest =? LOG_DESTINATION_STDERR then Some SYSLOG_SUFFIX
  else if target_dest =? LOG_DESTINATION_CSVLOG then Some ".csv"%string
  else if target_dest =? LOG_DESTINATION_JSONLOG then Some ".json"%string
  else if target_dest =? LOG_DESTINATION_POLAR_AUDITLOG then Some AUDITLOG_SUFFIX
  else if target_dest =? LOG_DESTINATION_POLAR_SLOWLOG then Some SLOWLOG_SUFFIX
  else None.

(** "Decide whether to overwrite or append": the test that selects the
    "w" open and the page-cache advisory. *)
Definition overwrite_on_rotation (cfg : config) (time_based_rotation : bool)
    (filename : string) (last : option string) : bool :=
  Log_truncate_on_rotation cfg && time_based_rotation
  && match last with
     | Some l => negb (String.eqb filename l)
     | None => false
     end.

(** Neither early return of [logfile_rotate_dest] is taken: the
    destination is enabled, or is stderr, and the rotation is time based
    or asked for this destination. *)
Definition dest_rotates (cfg : config) (time_based_rotation : bool)
    (size_rotation_for : Z) (target_dest : Z) : bool :=
  negb ((Z.land (Log_destination cfg) target_dest =? 0)
        && negb (target_dest =? LOG_DESTINATION_STDERR))
  && negb (negb time_based_rotation && (Z.land size_rotation_for target_dest =? 0)).

Definition close_old (f : option FILE) : list io :=
  match f with
  | Some old => [IoClose old]
  | None => []
  end.

(** [logfile_rotate_dest]: the returned flag, the destination's pair of
    variables, [rotation_disabled], and the calls made. *)
Definition logfile_rotate_dest (cfg : config) (MyLoggerIndex : Z)
    (fopen : string -> open_mode -> option errno)
    (time_based_rotation : bool) (size_rotation_for : Z) (fntime : Z)
    (target_dest : Z) (slot : file_slot) (disabled : bool)
  : bool * file_slot * bool * list io :=
  if (Z.land (Log_destination cfg) target_dest =? 0)
     && negb (target_dest =? LOG_DESTINATION_STDERR)
  then (true, {| logFile := None; last_file_name := None |}, disabled,
        close_old (logFile slot))
  else if negb time_based_rotation && (Z.land size_rotation_for target_dest =? 0)
  then (true, slot, disabled, [])
  else
    let filename := logfile_getname cfg MyLoggerIndex fntime (logFileExt_of target_dest) in
    let overwrite :=
      overwrite_on_rotation cfg time_based_rotation filename (last_file_name slot) in
    let mode := if overwrite then mode_w else mode_a in
    let advise :=
      if overwrite then
        match last_file_name slot with
        | Some l => [IoDropCache l]
        | None => []
        end
      else [] in
    match fopen filename mode with
    | Some e =>
        let opened := [IoOpen filename mode (Some e); IoLog "could not open log file"] in
        if transient_errno e
        then (false, slot, disabled, advise ++ opened)
        else (false, slot, true,
              advise ++ opened
              ++ [IoLog "disabling automatic rotation (use SIGHUP to re-enable)"])
    | None =>
        (true,
         {| logFile := Some {| f_path := filename; f_mode := mode |};
            last_file_name := Some filename |},
         disabled,
         advise ++ [IoOpen filename mode None] ++ close_old (logFile slot))
    end.

(** The time that names the files of a rotation. *)
Definition rotation_fntime (env : rotate_env) (rot : rotation_state)
    (time_based_rotation : bool) : Z :=
  if time_based_rotation then next_rotation_time rot else e_time_rotate env.

(** The five calls of [logfile_rotate_dest] in [logfile_rotate], each
    guarded by [if (!logfile_rotate_dest(...)) return;].  The flag tells
    whether all of them returned true. *)
Definition rotate_dests (cfg : config) (MyLoggerIndex : Z) (env : rotate_env)
    (disabled : bool) (fs : file_slots)
    (time_based_rotation : bool) (size_rotation_for : Z) (fntime : Z)
  : bool * bool * file_slots * list io :=
  let rotate_dest := logfile_rotate_dest cfg MyLoggerIndex (e_fopen env)
                       time_based_rotation size_rotation_for fntime in
  let '(ok, s_sys, d, out1) := rotate_dest LOG_DESTINATION_STDERR (slot_sys fs) disabled in
  let fs1 := {| slot_sys := s_sys; slot_csv := slot_csv fs; slot_json := slot_json fs;
                slot_audit := slot_audit fs; slot_slow := slot_slow fs |} in
  if negb ok then (false, d, fs1, out1) else
  let '(ok, s_csv, d, out2) := rotate_dest LOG_DESTINATION_CSVLOG (slot_csv fs) d in
  let fs2 := {| slot_sys := s_sys; slot_csv := s_csv; slot_json := slot_json fs;
                slot_audit := slot_audit fs; slot_slow := slot_slow fs |} in
  if negb ok then (false, d, fs2, out1 ++ out2) else
  let '(ok, s_json, d, out3) := rotate_dest LOG_DESTINATION_JSONLOG (slot_json fs) d in
  let fs3 := {| slot_sys := s_sys; slot_csv := s_csv; slot_json := s_json;
                slot_audit := slot_audit fs; slot_slow := slot_slow fs |} in
  if negb ok then (false, d, fs3, out1 ++ out2 ++ out3) else
  let '(ok, s_audit, d, out4) :=
    rotate_dest LOG_DESTINATION_POLAR_AUDITLOG (slot_audit fs) d in
  let fs4 := {| slot_sys := s_sys; slot_csv := s_csv; slot_json := s_json;
                slot_audit := s_audit; slot_slow := slot_slow fs |} in
  if negb ok then (false, d, fs4, out1 ++ out2 ++ out3 ++ out4) else
  let '(ok, s_slow, d, out5) :=
    rotate_dest LOG_DESTINATION_POLAR_SLOWLOG (slot_slow fs) d in
  let fs5 := {| slot_sys := s_sys; slot_csv := s_csv; slot_json := s_json;
                slot_audit := s_audit; slot_slow := s_slow |} in
  (ok, d, fs5, out1 ++ out2 ++ out3 ++ out4 ++ out5).

(** [logfile_rotate(time_based_rotation, size_rotation_for)] *)
Definition logfile_rotate (cfg : config) (MyLoggerIndex : Z) (env : rotate_env)
    (rot : rotation_state) (fs : file_slots)
    (time_based_rotation : bool) (size_rotation_for : Z)
  : rotation_state * file_slots * list io :=
  let fntime := rotation_fntime env rot time_based_rotation in
  let '(ok, disabled, fs', out) :=
    rotate_dests cfg MyLoggerIndex env (rotation_disabled rot) fs
      time_based_rotation size_rotation_for fntime in
  if negb ok then
    ({| next_rotation_time := next_rotation_time rot;
        rotation_disabled := disabled; rotation_requested := false |}, fs', out)
  else
    ({| next_rotation_time :=
          set_next_rotation_time cfg (e_time_next env) (next_rotation_time rot);
        rotation_disabled := disabled; rotation_requested := false |},
     fs',
     out ++ [IoMeta (update_metainfo_datafile cfg fs' (e_meta env))]).

(** ** The retention sweep *)

(** The variables of the directory scan. *)
Record sweep_acc := {
  oldest_path : string;
  oldest_auditlog_path : string;
  oldest_slowlog_path : string;
  num_log_files : Z;
  num_auditlog_files : Z;
  num_slowlog_files : Z
}.

Definition sweep_init : sweep_acc :=
  {| oldest_path := EmptyString; oldest_auditlog_path := EmptyString;
     oldest_slowlog_path := EmptyString;
     num_log_files := 0; num_auditlog_files := 0; num_slowlog_files := 0 |}.

(** [strstr(d_name, suffix) != NULL] *)
Definition strstr (d_name suffix : string) : bool :=
  bool_decide (is_Some (String.index 0 suffix d_name)).

(** [oldest[0] == '\0' || strcmp(d_name, oldest) < 0] *)
Definition older (d_name oldest : string) : bool :=
  String.eqb oldest EmptyString || String.ltb d_name oldest.

Definition log_prefix (cfg : config) : string :=
  String.substring 0 (first_percent (Log_filename cfg)) (Log_filename cfg).

(** The body of the [while ((logde = ReadDir(...)) != NULL)] loop. *)
Definition sweep_entry (cfg : config) (acc : sweep_acc) (d_name : string) : sweep_acc :=
  if String.eqb d_name "." || String.eqb d_name ".." then acc
  else if String.prefix (log_prefix cfg) d_name then
    if strstr d_name AUDITLOG_SUFFIX then
      {| oldest_path := oldest_path acc;
         oldest_auditlog_path :=
           if older d_name (oldest_auditlog_path acc) then d_name
           else oldest_auditlog_path acc;
         oldest_slowlog_path := oldest_slowlog_path acc;
         num_log_files := num_log_files acc;
         num_auditlog_files := num_auditlog_files acc + 1;
         num_slowlog_files := num_slowlog_files acc |}
    else if strstr d_name SLOWLOG_SUFFIX then
      {| oldest_path := oldest_path acc;
         oldest_auditlog_path := oldest_auditlog_path acc;
         oldest_slowlog_path :=
           if older d_name (oldest_slowlog_path acc) then d_name
           else oldest_slowlog_path acc;
         num_log_files := num_log_files acc;
         num_auditlog_files := num_auditlog_files acc;
         num_slowlog_files := num_slowlog_files acc + 1 |}
    else
      {| oldest_path :=
           if older d_name (oldest_path acc) then d_name else oldest_path acc;
         oldest_auditlog_path := oldest_auditlog_path acc;
         oldest_slowlog_path := oldest_slowlog_path acc;
         num_log_files := num_log_files acc + 1;
         num_auditlog_files := num_auditlog_files acc;
         num_slowlog_files := num_slowlog_files acc |}
  else acc.

Definition sweep_scan (cfg : config) (entries : list string) : sweep_acc :=
  foldl (sweep_entry cfg) sweep_init entries.

(** The directory entries handed to [polar_remove_log_file], in the order
    of the calls. *)
Definition sweep_victims (cfg : config) (entries : list string) : list string :=
  if (polar_max_log_files cfg <? 0) && (polar_max_auditlog_files cfg <? 0)
     && (polar_max_slowlog_files cfg <? 0)
  then []
  else
    let acc := sweep_scan cfg entries in
    if (num_auditlog_files acc <=? polar_max_auditlog_files cfg)
       && (num_log_files acc <=? polar_max_log_files cfg)
       && (num_slowlog_files acc <=? polar_max_slowlog_files cfg)
    then []
    else
      (if (0 <? polar_max_auditlog_files cfg)
          && (polar_max_auditlog_files cfg <? num_auditlog_files acc)
       then [oldest_auditlog_path acc] else [])
      ++ (if (0 <? polar_max_slowlog_files cfg)
             && (polar_max_slowlog_files cfg <? num_slowlog_files acc)
          then [oldest_slowlog_path acc] else [])
      ++ (if (0 <? polar_max_log_files cfg)
             && (polar_max_log_files cfg <? num_log_files acc)
          then [oldest_path acc] else []).

Definition sweep_path (cfg : config) (d_name : string) : string :=
  c_trunc MAXPGPATH (String.append (Log_directory cfg) (String.append "/" d_name)).

(** [polar_remove_old_syslog_files()]; [dir] is what [AllocateDir] and
    [ReadDir] deliver, [None] when the directory cannot be opened.  The
    result is [None] when the function leaves through [ereport(ERROR)]. *)
Definition polar_remove_old_syslog_files (cfg : config) (dir : option (list string))
  : option (list io) :=
  if (polar_max_log_files cfg <? 0) && (polar_max_auditlog_files cfg <? 0)
     && (polar_max_slowlog_files cfg <? 0)
  then Some []
  else
    match dir with
    | None => None
    | Some entries => Some (IoRemove ∘ sweep_path cfg <$> sweep_victims cfg entries)
    end.

(** The directory after the sweep when every unlink succeeds. *)
Definition after_sweep (cfg : config) (entries : list string) : list string :=
  filter (fun d_name => d_name ∉ sweep_victims cfg entries) entries.

(** The three families the sweep counts. *)
Inductive family : Type :=
  | FamLog
  | FamAudit
  | FamSlow.

Definition in_family (cfg : config) (fam : family) (d_name : string) : bool :=
  negb (String.eqb d_name "." || String.eqb d_name "..")
  && String.prefix (log_prefix cfg) d_name
  && match fam with
     | FamAudit => strstr d_name AUDITLOG_SUFFIX
     | FamSlow => negb (strstr d_name AUDITLOG_SUFFIX) && strstr d_name SLOWLOG_SUFFIX
     | FamLog => negb (strstr d_name AUDITLOG_SUFFIX) && negb (strstr d_name SLOWLOG_SUFFIX)
     end.

Definition family_files (cfg : config) (fam : family) (entries : list string) : list string :=
  filter (fun d_name => in_family cfg fam d_name = true) entries.

(** The counter and the candidate the scan keeps for a family. *)
Definition family_count (fam : family) (acc : sweep_acc) : Z :=
  match fam with
  | FamLog => num_log_files acc
  | FamAudit => num_auditlog_files acc
  | FamSlow => num_slowlog_files acc
  end.

Definition family_oldest (fam : family) (acc : sweep_acc) : string :=
  match fam with
  | FamLog => oldest_path acc
  | FamAudit => oldest_auditlog_path acc
  | FamSlow => oldest_slowlog_path acc
  end.

Definition family_max (cfg : config) (fam : family) : Z :=
  match fam with
  | FamLog => polar_max_log_files cfg
  | FamAudit => polar_max_auditlog_files cfg
  | FamSlow => polar_max_slowlog_files cfg
  end.

(** A family the sweep takes a file from: its maximum is positive and it
    has more files than that. *)
Definition family_due (cfg : config) (fam : family) (entries : list string) : bool :=
  (0 <? family_max cfg fam)
  && (family_max cfg fam <? Z.of_nat (length (family_files cfg fam entries))).

End Rotation.

(** ** The main loop *)

(** What [read] on the pipe returned: an error, or the bytes read, none
    of them at end of file. *)
Inductive read_result : Type :=
  | ReadError (e : errno)
  | ReadBytes (data : list byte).

(** What [WaitEventSetWait] reported, with the result of the [read] that
    follows a readable pipe. *)
Inductive wait_result : Type :=
  | WaitTimeout
  | WaitLatch
  | WaitReadable (r : read_result).

(** Everything the outside contributes to one pass through the main
    loop.  The size of a read is not bounded here by the room left in
    the buffer; what is proved holds for reads of any size. *)
Record tick := {
  t_sigusr1 : bool;                 (* SIGUSR1 arrived since the last pass *)
  t_reload : option config;         (* ConfigReloadPending, and what ProcessConfigFile installs *)
  t_time_reload : Z;                (* time(NULL) read while handling the reload *)
  t_meta_reload : meta_env;
  t_time : Z;                       (* time(NULL) read by the loop itself *)
  t_ftell : option FILE -> Z;
  t_dir : option (list string);     (* the listing of Log_directory *)
  t_rotate : rotate_env;
  t_wait : wait_result
}.

(** The collector's variables: the statics of the file and the locals of
    [SysLoggerMain] that live across passes. *)
Record logger := {
  cfg : config;
  MyLoggerIndex : Z;
  rot : rotation_state;
  slots : file_slots;
  buffer_lists : buffer_lists_t;
  logbuffer : list byte;
  pipe_eof_seen : bool;
  currentLogDir : string;
  currentLogFilename : string;
  currentLogRotationAge : Z;
  now : Z
}.

(** How a pass through the loop ends. *)
Inductive step : Type :=
  | Continue (st : logger)
  | Exit0 (st : logger)             (* proc_exit(0) *)
  | Raised (st : logger)            (* left through ereport(ERROR) *)
  | Undefined.                      (* undefined behaviour in process_pipe_input *)

Section MainLoop.
Context `{SysloggerHeaders} `{TimeLibrary}.

(** [flush_pipe_input]: the buffers, what is left in [logbuffer] and the
    calls made. *)
Definition flush_buffer (buf : save_buffer) : save_buffer :=
  if sb_pid buf =? 0 then buf else {| sb_pid := 0; sb_data := [] |}.

Definition dump_buffer (buf : save_buffer) : option write_event :=
  if sb_pid buf =? 0 then None
  else Some {| w_origin := Some (sb_pid buf); w_bytes := sb_data buf;
               w_dest := LOG_DESTINATION_STDERR |}.

Definition residual_write (logbuffer : list byte) (destination : Z) : list write_event :=
  if 0 <? Z.of_nat (length logbuffer)
  then [{| w_origin := None; w_bytes := logbuffer; w_dest := destination |}]
  else [].

Definition flush_pipe_input (fs : file_slots) (MyLoggerIndex : Z)
    (bl : buffer_lists_t) (logbuffer : list byte)
  : buffer_lists_t * list byte * list io :=
  if negb (MyLoggerIndex =? 0) then
    (bl, [],
     (write_syslogger_file fs <$> residual_write logbuffer LOG_DESTINATION_POLAR_AUDITLOG)
     ++ [flush_syslogger_file fs LOG_DESTINATION_POLAR_AUDITLOG])
  else
    (List.map (List.map flush_buffer) bl, [],
     (write_syslogger_file fs <$> omap dump_buffer (concat bl))
     ++ (write_syslogger_file fs <$> residual_write logbuffer LOG_DESTINATION_STDERR)
     ++ [flush_syslogger_file fs LOG_DESTINATION_STDERR]).

Definition file_open (fs : file_slots) (pick : file_slots -> file_slot) : bool :=
  bool_decide (is_Some (logFile (pick fs))).

(** The [if (ConfigReloadPending)] block. *)
Definition handle_reload (t : tick) (st : logger) : logger * list io :=
  match t_reload t with
  | None => (st, [])
  | Some new =>
      let dir_changed := negb (String.eqb (Log_directory new) (currentLogDir st)) in
      let name_changed := negb (String.eqb (Log_filename new) (currentLogFilename st)) in
      let flipped (destination : Z) (pick : file_slots -> file_slot) :=
        negb (eqb (dest_enabled new destination) (file_open (slots st) pick)) in
      let requested :=
        rotation_requested (rot st) || dir_changed || name_changed
        || flipped LOG_DESTINATION_CSVLOG slot_csv
        || flipped LOG_DESTINATION_POLAR_AUDITLOG slot_audit
        || flipped LOG_DESTINATION_POLAR_SLOWLOG slot_slow
        || flipped LOG_DESTINATION_JSONLOG slot_json in
      let age_changed := negb (currentLogRotationAge st =? Log_RotationAge new) in
      let nrt :=
        if age_changed
        then set_next_rotation_time new (t_time_reload t) (next_rotation_time (rot st))
        else next_rotation_time (rot st) in
      let rot' :=
        if rotation_disabled (rot st)
        then {| next_rotation_time := nrt; rotation_disabled := false;
                rotation_requested := true |}
        else {| next_rotation_time := nrt; rotation_disabled := false;
                rotation_requested := requested |} in
      ({| cfg := new; MyLoggerIndex := MyLoggerIndex st; rot := rot'; slots := slots st;
          buffer_lists := buffer_lists st; logbuffer := logbuffer st;
          pipe_eof_seen := pipe_eof_seen st;
          currentLogDir := if dir_changed then Log_directory new else currentLogDir st;
          currentLogFilename :=
            if name_changed then Log_filename new else currentLogFilename st;
          currentLogRotationAge :=
            if age_changed then Log_RotationAge new else currentLogRotationAge st;
          now := now st |},
       (if dir_changed then [IoMkdir (Log_directory new)] else [])
       ++ [IoMeta (update_metainfo_datafile new (slots st) (t_meta_reload t))])
  end.

(** The time test and the size tests: the new [now], [rotation_requested],
    [time_based_rotation] and [size_rotation_for]. *)
Definition too_big (t : tick) (c : config) (f : option FILE) : bool :=
  Log_RotationSize c * 1024 <=? t_ftell t f.

Definition size_bit (b : bool) (destination : Z) (acc : Z) : Z :=
  if b then Z.lor acc destination else acc.

Definition check_triggers (t : tick) (st : logger) : Z * bool * bool * Z :=
  let c := cfg st in
  let timed := (0 <? Log_RotationAge c) && negb (rotation_disabled (rot st)) in
  let now' := if timed then t_time t else now st in
  let time_based_rotation := timed && (next_rotation_time (rot st) <=? now') in
  let requested := rotation_requested (rot st) || time_based_rotation in
  if negb requested && (0 <? Log_RotationSize c) && negb (rotation_disabled (rot st)) then
    let fs := slots st in
    let b_sys := too_big t c (logFile (slot_sys fs)) in
    let b_csv := file_open fs slot_csv && too_big t c (logFile (slot_csv fs)) in
    let b_json := file_open fs slot_json && too_big t c (logFile (slot_json fs)) in
    let b_audit := file_open fs slot_audit && too_big t c (logFile (slot_audit fs)) in
    let b_slow := file_open fs slot_slow && too_big t c (logFile (slot_slow fs)) in
    let size_rotation_for :=
      size_bit b_slow LOG_DESTINATION_POLAR_SLOWLOG
        (size_bit b_audit LOG_DESTINATION_POLAR_AUDITLOG
           (size_bit b_json LOG_DESTINATION_JSONLOG
              (size_bit b_csv LOG_DESTINATION_CSVLOG
                 (size_bit b_sys LOG_DESTINATION_STDERR 0)))) in
    (now', b_sys || b_csv || b_json || b_audit || b_slow, time_based_rotation,
     size_rotation_for)
  else (now', requested, time_based_rotation, 0).

Definition all_destinations : Z :=
  Z.lor LOG_DESTINATION_STDERR
    (Z.lor LOG_DESTINATION_CSVLOG
       (Z.lor LOG_DESTINATION_JSONLOG
          (Z.lor LOG_DESTINATION_POLAR_AUDITLOG LOG_DESTINATION_POLAR_SLOWLOG))).

Definition INT_MAX : Z := 2147483647.

(** The timeout handed to the wait, in milliseconds, and whether the
    timeout is armed. *)
Definition cur_timeout (c : config) (r : rotation_state) (now : Z) : Z * bool :=
  if (0 <? Log_RotationAge c) && negb (rotation_disabled r) then
    let delay := next_rotation_time r - now in
    if 0 <? delay then
      ((if INT_MAX / 1000 <? delay then INT_MAX / 1000 else delay) * 1000, true)
    else (0, true)
  else (-1, false).

Definition with_rot (st : logger) (now' : Z) (r : rotation_state) (fs : file_slots) : logger :=
  {| cfg := cfg st; MyLoggerIndex := MyLoggerIndex st; rot := r; slots := fs;
     buffer_lists := buffer_lists st; logbuffer := logbuffer st;
     pipe_eof_seen := pipe_eof_seen st; currentLogDir := currentLogDir st;
     currentLogFilename := currentLogFilename st;
     currentLogRotationAge := currentLogRotationAge st; now := now' |}.

Definition with_input (st : logger) (bl : buffer_lists_t) (buf : list byte) (eof : bool)
  : logger :=
  {| cfg := cfg st; MyLoggerIndex := MyLoggerIndex st; rot := rot st; slots := slots st;
     buffer_lists := bl; logbuffer := buf;
     pipe_eof_seen := eof; currentLogDir := currentLogDir st;
     currentLogFilename := currentLogFilename st;
     currentLogRotationAge := currentLogRotationAge st; now := now st |}.

(** The first half of a pass: signals, reload, triggers, sweep and
    rotation.  [None] when the sweep leaves through [ereport(ERROR)]. *)
Definition service_rotation (t : tick) (st0 : logger) : option logger * list io :=
  let st1 :=
    with_rot st0 (now st0)
      {| next_rotation_time := next_rotation_time (rot st0);
         rotation_disabled := rotation_disabled (rot st0);
         rotation_requested := rotation_requested (rot st0) || t_sigusr1 t |}
      (slots st0) in
  let '(st2, out_reload) := handle_reload t st1 in
  let '(now', requested, time_based_rotation, size_rotation_for) := check_triggers t st2 in
  let r2 :=
    {| next_rotation_time := next_rotation_time (rot st2);
       rotation_disabled := rotation_disabled (rot st2);
       rotation_requested := requested |} in
  if requested then
    match polar_remove_old_syslog_files (cfg st2) (t_dir t) with
    | None => (None, out_reload)
    | Some out_sweep =>
        let size_rotation_for :=
          if negb time_based_rotation && (size_rotation_for =? 0)
          then all_destinations else size_rotation_for in
        let '(r3, fs3, out_rot) :=
          logfile_rotate (cfg st2) (MyLoggerIndex st2) (t_rotate t) r2 (slots st2)
            time_based_rotation size_rotation_for in
        (Some (with_rot st2 now' r3 fs3), out_reload ++ out_sweep ++ out_rot)
    end
  else (Some (with_rot st2 now' r2 (slots st2)), out_reload).

(** The second half: wait, read, parse or flush, and the exit test. *)
Definition service_input (t : tick) (st : logger) : step * list io :=
  let '(timeout, armed) := cur_timeout (cfg st) (rot st) (now st) in
  let waited := IoWait timeout armed in
  match t_wait t with
  | WaitReadable (ReadError e) =>
      let out := if negb (match e with EINTR => true | _ => false end)
                 then [IoLog "could not read from logger pipe"] else [] in
      ((if pipe_eof_seen st then Exit0 st else Continue st), waited :: out)
  | WaitReadable (ReadBytes data) =>
      if 0 <? Z.of_nat (length data) then
        match process_pipe_input (buffer_lists st) (logbuffer st ++ data) with
        | Done (bl, out, rest) =>
            (Continue (with_input st bl rest (pipe_eof_seen st)),
             waited :: (write_syslogger_file (slots st) <$> out))
        | OutOfBounds | OutOfFuel => (Undefined, [waited])
        end
      else
        let '(bl, rest, out) :=
          flush_pipe_input (slots st) (MyLoggerIndex st) (buffer_lists st) (logbuffer st) in
        (Exit0 (with_input st bl rest true), waited :: out)
  | WaitTimeout =>
      ((if pipe_eof_seen st then Exit0 st else Continue st),
       [waited; flush_syslogger_file (slots st) LOG_DESTINATION_POLAR_AUDITLOG])
  | WaitLatch =>
      ((if pipe_eof_seen st then Exit0 st else Continue st), [waited])
  end.

(** One pass through [for (;;)]. *)
Definition loop_pass (t : tick) (st : logger) : step * list io :=
  match service_rotation t st with
  | (None, out) => (Raised st, out)
  | (Some st', out) =>
      let '(s, out') := service_input t st' in
      (s, out ++ out')
  end.

(** The loop over the passes the outside drives; the run ends with the
    first pass that does not continue, or when the ticks are used up. *)
Fixpoint main_loop (ticks : list tick) (st : logger) : step * list io :=
  match ticks with
  | [] => (Continue st, [])
  | t :: ticks' =>
      match loop_pass t st with
      | (Continue st', out) =>
          let '(s, out') := main_loop ticks' st' in
          (s, out ++ out')
      | r => r
      end
  end.

End MainLoop.

(** [SysLoggerMain] up to the loop: the state the loop starts in.  The
    postmaster leaves [syslogFile], [csvlogFile], [jsonlogFile] and
    [slowlogFile] to the collector; [audit_open] is the fate of the
    audit file's [fopen], whose failure is fatal. *)
Section Startup.
Context `{SysloggerHeaders} `{TimeLibrary}.

Definition name_if_open (c : config) (index : Z) (first_syslogger_file_time : Z)
    (f : option FILE) (suffix : string) : file_slot :=
  {| logFile := f;
     last_file_name :=
       match f with
       | Some _ => Some (logfile_getname c index first_syslogger_file_time (Some suffix))
       | None => None
       end |}.

Definition SysLoggerMain_start (c : config) (index : Z) (MyStartTime : Z)
    (first_syslogger_file_time : Z)
    (syslogFile csvlogFile jsonlogFile slowlogFile : option FILE)
    (audit_open : option errno) (clock : Z) (menv : meta_env)
  : option (logger * list io) :=
  let audit_name := logfile_getname c index first_syslogger_file_time (Some AUDITLOG_SUFFIX) in
  let audit :=
    if dest_enabled c LOG_DESTINATION_POLAR_AUDITLOG then
      match audit_open with
      | Some e => None
      | None => Some (Some {| f_path := audit_name; f_mode := mode_a |},
                      [IoOpen audit_name mode_a None])
      end
    else Some (None, []) in
  match audit with
  | None => None
  | Some (auditlogFile, out) =>
      let fs :=
        {| slot_sys :=
             {| logFile := syslogFile;
                last_file_name :=
                  Some (logfile_getname c index first_syslogger_file_time (Some SYSLOG_SUFFIX)) |};
           slot_csv := name_if_open c index first_syslogger_file_time csvlogFile ".csv";
           slot_json := name_if_open c index first_syslogger_file_time jsonlogFile ".json";
           slot_audit :=
             name_if_open c index first_syslogger_file_time auditlogFile AUDITLOG_SUFFIX;
           slot_slow :=
             name_if_open c index first_syslogger_file_time slowlogFile SLOWLOG_SUFFIX |} in
      Some ({| cfg := c; MyLoggerIndex := index;
               rot := {| next_rotation_time := set_next_rotation_time c clock 0;
                         rotation_disabled := false; rotation_requested := false |};
               slots := fs;
               buffer_lists := initial_buffer_lists;
               logbuffer := [];
               pipe_eof_seen := false;
               currentLogDir := Log_directory c;
               currentLogFilename := Log_filename c;
               currentLogRotationAge := Log_RotationAge c;
               now := MyStartTime |},
            out ++ [IoMeta (update_metainfo_datafile c fs menv)])
  end.

End Startup.

(** ** Sample values for the header constants *)

(** The flag bits and destination bits as PostgreSQL assigns them, with
    free bits for the audit and slow-log destinations. *)
Definition sample_headers : SysloggerHeaders :=
  {| PIPE_PROTO_IS_LAST := 1;
     PIPE_PROTO_DEST_STDERR := 16;
     PIPE_PROTO_DEST_CSVLOG := 32;
     PIPE_PROTO_DEST_JSONLOG := 64;
     POLAR_PIPE_PROTO_DEST_AUDITLOG := 4;
     POLAR_PIPE_PROTO_DEST_SLOWLOG := 8;
     LOG_DESTINATION_STDERR := 1;
     LOG_DESTINATION_CSVLOG := 8;
     LOG_DESTINATION_JSONLOG := 16;
     LOG_DESTINATION_POLAR_AUDITLOG := 32;
     LOG_DESTINATION_POLAR_SLOWLOG := 64;
     SYSLOG_SUFFIX := "_error.log";
     AUDITLOG_SUFFIX := "_audit.log";
     SLOWLOG_SUFFIX := "_slow.log";
     MAXPGPATH := 1024 |}.

(** A formatter that knows one conversion, "%s" for the seconds since
    the epoch, and copies every other character. *)
Fixpoint sample_format (format : string) (t : Z) : string :=
  match format with
  | EmptyString => EmptyString
  | String a rest =>
      if Ascii.eqb a "%"%char then
        match rest with
        | String b rest' =>
            if Ascii.eqb b "s"%char
            then String.append (int_to_string t) (sample_format rest' t)
            else String a (sample_format rest t)
        | EmptyString => String a EmptyString
        end
      else String a (sample_format rest t)
  end.

(** A time library on top of it: the formatted pattern is cut to the
    buffer, and the zone is eight hours east all year. *)
Definition sample_time : TimeLibrary :=
  {| pg_strftime := fun maxsize format t => c_trunc maxsize (sample_format format t);
     tm_gmtoff := fun _ => 28800 |}.

(** A file system in which every call succeeds. *)
Definition meta_ok : meta_env :=
  {| tmp_open_ok := true; fprintf_ok := fun _ => true; rename_ok := true |}.

Definition quiet_rotate_env (t : Z) : rotate_env :=
  {| e_fopen := fun _ _ => None; e_time_rotate := t; e_time_next := t; e_meta := meta_ok |}.

(** A pass at time [t] in which nothing arrives and the wait returns for
    the latch. *)
Definition quiet_tick (t : Z) : tick :=
  {| t_sigusr1 := false; t_reload := None; t_time_reload := t; t_meta_reload := meta_ok;
     t_time := t; t_ftell := fun _ => 0; t_dir := Some []; t_rotate := quiet_rotate_env t;
     t_wait := WaitLatch |}.

(** The configuration of the specification's truncation scenario: one
    minute between rotations, truncation on rotation, a file name
    without conversion specifications, the stderr destination only. *)
Definition plain_config : config :=
  {| Log_RotationAge := 1; Log_RotationSize := 0;
     Log_directory := "log"; Log_filename := "pg.log";
     Log_truncate_on_rotation := true; Log_destination := 1;
     polar_max_log_files := -1; polar_max_auditlog_files := -1;
     polar_max_slowlog_files := -1 |}.

(** The same with the seconds in the file name and the csv destination
    switched on as well. *)
Definition dated_config : config :=
  {| Log_RotationAge := 1; Log_RotationSize := 0;
     Log_directory := "log"; Log_filename := "pg-%s.log";
     Log_truncate_on_rotation := false; Log_destination := 9;
     polar_max_log_files := -1; polar_max_auditlog_files := -1;
     polar_max_slowlog_files := -1 |}.

(** The collector of the truncation scenario as it enters the loop at
    time 1000, its stderr file open. *)
Definition plain_file : FILE := {| f_path := "log/pg_error.log"; f_mode := mode_a |}.

Definition plain_slot : file_slot :=
  {| logFile := Some plain_file; last_file_name := Some "log/pg_error.log"%string |}.

Definition dated_slots : file_slots :=
  {| slot_sys :=
       {| logFile := Some {| f_path := "log/pg-960_error.log"; f_mode := mode_a |};
          last_file_name := Some "log/pg-960_error.log"%string |};
     slot_csv :=
       {| logFile := Some {| f_path := "log/pg-960.csv"; f_mode := mode_a |};
          last_file_name := Some "log/pg-960.csv"%string |};
     slot_json := {| logFile := None; last_file_name := None |};
     slot_audit := {| logFile := None; last_file_name := None |};
     slot_slow := {| logFile := None; last_file_name := None |} |}.

(** The csv file cannot be opened for want of file descriptors. *)
Definition csv_fails : rotate_env :=
  {| e_fopen := fun path _ =>
       if String.eqb path "log/pg-1020.csv" then Some ENFILE else None;
     e_time_rotate := 1020; e_time_next := 1020; e_meta := meta_ok |}.

Definition due_at_1020 : rotation_state :=
  {| next_rotation_time := 1020; rotation_disabled := false; rotation_requested := false |}.

(** A pass at time [t] in which every open fails with a permission
    error, and one in which SIGUSR1 has arrived. *)
Definition failing_tick (t : Z) : tick :=
  {| t_sigusr1 := false; t_reload := None; t_time_reload := t; t_meta_reload := meta_ok;
     t_time := t; t_ftell := fun _ => 0; t_dir := Some [];
     t_rotate := {| e_fopen := fun _ _ => Some (EOTHER 13); e_time_rotate := t;
                    e_time_next := t; e_meta := meta_ok |};
     t_wait := WaitLatch |}.

Definition sigusr1_tick (t : Z) : tick :=
  {| t_sigusr1 := true; t_reload := None; t_time_reload := t; t_meta_reload := meta_ok;
     t_time := t; t_ftell := fun _ => 0; t_dir := Some []; t_rotate := quiet_rotate_env t;
     t_wait := WaitLatch |}.

(** The retention scenario of the specification: at most three text
    files, five in the directory. *)
Definition capped_config : config :=
  {| Log_RotationAge := 1; Log_RotationSize := 0;
     Log_directory := "log"; Log_filename := "%s.log";
     Log_truncate_on_rotation := false; Log_destination := 1;
     polar_max_log_files := 3; polar_max_auditlog_files := -1;
     polar_max_slowlog_files := -1 |}.

Definition five_files : list string := ["a"; "b"; "c"; "d"; "e"]%string.

(** A pass at time [t] that serves a SIGUSR1 and finds the five files
    in the directory. *)
Definition sweep_tick (t : Z) : tick :=
  {| t_sigusr1 := true; t_reload := None; t_time_reload := t; t_meta_reload := meta_ok;
     t_time := t; t_ftell := fun _ => 0; t_dir := Some five_files;
     t_rotate := quiet_rotate_env t; t_wait := WaitLatch |}.

Definition is_remove (e : io) : bool :=
  match e with
  | IoRemove _ => true
  | _ => false
  end.

(** The chunks of the specification's scenarios: the record "hello" of
    pid 42 in one chunk; "ab" of pid 7, not the last chunk; "X" of pid 9
    in one chunk; "c" of pid 7, the last chunk. *)
Definition hello : chunk :=
  {| c_pid := 42; c_flags := 17; c_payload := [x68; x65; x6c; x6c; x6f] |}.

Definition ab_open : chunk := {| c_pid := 7; c_flags := 16; c_payload := [x61; x62] |}.

Definition x_whole : chunk := {| c_pid := 9; c_flags := 17; c_payload := [x58] |}.

Definition c_close : chunk := {| c_pid := 7; c_flags := 17; c_payload := [x63] |}.

(** Ten bytes that start with a header of length zero: pid 42, the
    stderr flag and the last-chunk flag, then the letter A. *)
Definition zero_length_header : list byte :=
  [x00; x00; x00; x00; x2a; x00; x00; x00; x11; x41].

(** A collector of the fan-out with index 1: the stderr and audit
    destinations are on. *)
Definition audit_config : config :=
  {| Log_RotationAge := 0; Log_RotationSize := 0;
     Log_directory := "log"; Log_filename := "pg.log";
     Log_truncate_on_rotation := false; Log_destination := 33;
     polar_max_log_files := -1; polar_max_auditlog_files := -1;
     polar_max_slowlog_files := -1 |}.

(** A pass in which the pipe is readable and [read] returns [data];
    no bytes stand for end of file. *)
Definition read_tick (t : Z) (data : list byte) : tick :=
  {| t_sigusr1 := false; t_reload := None; t_time_reload := t; t_meta_reload := meta_ok;
     t_time := t; t_ftell := fun _ => 0; t_dir := Some []; t_rotate := quiet_rotate_env t;
     t_wait := WaitReadable (ReadBytes data) |}.

(** The collector of the truncation scenario in the loop, nothing
    buffered, and the two passes of the specification's unframed blob:
    a read of "oops" and a newline, then end of file. *)
Definition plain_logger : logger :=
  {| cfg := plain_config; MyLoggerIndex := 0;
     rot := {| next_rotation_time := 1020; rotation_disabled := false;
               rotation_requested := false |};
     slots := {| slot_sys := plain_slot;
                 slot_csv := {| logFile := None; last_file_name := None |};
                 slot_json := {| logFile := None; last_file_name := None |};
                 slot_audit := {| logFile := None; last_file_name := None |};
                 slot_slow := {| logFile := None; last_file_name := None |} |};
     buffer_lists := initial_buffer_lists; logbuffer := []; pipe_eof_seen := false;
     currentLogDir := "log"; currentLogFilename := "pg.log"; currentLogRotationAge := 1;
     now := 1000 |}.

Definition oops_then_eof : list tick :=
  [read_tick 1001 [x6f; x6f; x70; x73; x0a]; read_tick 1002 []].

Definition is_write (e : io) : bool :=
  match e with
  | IoWrite _ _ => true
  | _ => false
  end.

(** Calls that truncate: an open for writing, and the page-cache
    advisory that goes with it. *)
Definition is_truncating (e : io) : bool :=
  match e with
  | IoOpen _ mode_w _ => true
  | IoDropCache _ => true
  | _ => false
  end.

Definition is_open (e : io) : bool :=
  match e with
  | IoOpen _ _ _ => true
  | _ => false
  end.

(** ** Well-formedness of the constants and of the buffers *)

Section Invariants.
Context `{SysloggerHeaders}.

Definition single_bit (m : Z) : bool :=
  existsb (fun k => m =? 2 ^ k) [0; 1; 2; 3; 4; 5; 6; 7].

Definition dest_flag_list : list Z :=
  [PIPE_PROTO_DEST_STDERR; PIPE_PROTO_DEST_CSVLOG; PIPE_PROTO_DEST_JSONLOG;
   POLAR_PIPE_PROTO_DEST_AUDITLOG; POLAR_PIPE_PROTO_DEST_SLOWLOG].

Fixpoint pairwise_disjoint (ms : list Z) : bool :=
  match ms with
  | [] => true
  | m :: ms' => forallb (fun m' => Z.land m m' =? 0) ms' && pairwise_disjoint ms'
  end.

(** The five destination flags are five different bits of a byte. *)
Definition dest_flags_ok : bool :=
  forallb single_bit dest_flag_list && pairwise_disjoint dest_flag_list.

(** How many of the five destination flags a flag byte has set. *)
Definition dest_bits_set (f : Z) : Z :=
  foldr (fun m acc => (if Z.land f m =? 0 then 0 else 1) + acc) 0 dest_flag_list.

(** Every buffer in use sits in the list its pid hashes to, and no list
    has two buffers of one pid. *)
Definition buffers_ok (bl : buffer_lists_t) : Prop :=
  length bl = Z.to_nat NBUFFER_LISTS
  /\ (forall i l j buf, bl !! i = Some l -> l !! j = Some buf -> sb_pid buf <> 0 ->
        Z.rem (sb_pid buf) NBUFFER_LISTS = Z.of_nat i)
  /\ (forall i l j1 j2 b1 b2, bl !! i = Some l -> l !! j1 = Some b1 -> l !! j2 = Some b2 ->
        sb_pid b1 = sb_pid b2 -> sb_pid b1 <> 0 -> j1 = j2).

(** The same, for the list with index [i] alone. *)
Definition bucket_ok (i : nat) (l : list save_buffer) : Prop :=
  (forall j buf, l !! j = Some buf -> sb_pid buf <> 0 ->
     Z.rem (sb_pid buf) NBUFFER_LISTS = Z.of_nat i)
  /\ (forall j1 j2 b1 b2, l !! j1 = Some b1 -> l !! j2 = Some b2 ->
        sb_pid b1 = sb_pid b2 -> sb_pid b1 <> 0 -> j1 = j2).

(** The destination a chunk's flags select. *)
Definition chunk_dest (c : chunk) : Z :=
  select_dest (header_of c) LOG_DESTINATION_STDERR.

(** The chunk-by-chunk view of the parser: [save_chunk] applied to the
    chunks of a stream in order. *)
Fixpoint save_chunks (bl : buffer_lists_t) (cs : list chunk)
  : option (buffer_lists_t * list write_event) :=
  match cs with
  | [] => Some (bl, [])
  | c :: cs' =>
      match save_chunk bl (header_of c) (c_payload c) (chunk_dest c) with
      | None => None
      | Some (bl', out) =>
          match save_chunks bl' cs' with
          | None => None
          | Some (bl'', out') => Some (bl'', out ++ out')
          end
      end
  end.

(** Bytes that are the beginning of a chunk, but not all of it. *)
Definition partial_chunk (t : list byte) (c : chunk) : Prop :=
  exists t', encode_chunk c = t ++ t' /\ t' <> [].

(** What may be left in the buffer between two reads of a stream whose
    chunks still to come are [cs]: nothing, or the beginning of the
    next chunk. *)
Definition leftover (t : list byte) (cs : list chunk) : Prop :=
  t = [] \/ exists c cs', cs = c :: cs' /\ partial_chunk t c.

(** At most one buffer, over all the lists, holds a given pid. *)
Definition one_slot_per_pid (bl : buffer_lists_t) : Prop :=
  forall i1 l1 j1 b1 i2 l2 j2 b2,
    bl !! i1 = Some l1 -> l1 !! j1 = Some b1 ->
    bl !! i2 = Some l2 -> l2 !! j2 = Some b2 ->
    sb_pid b1 = sb_pid b2 -> sb_pid b1 <> 0 ->
    i1 = i2 /\ j1 = j2.

(** The states the parser can reach from the empty buffers. *)
Inductive reachable : buffer_lists_t -> Prop :=
  | reach_init : reachable initial_buffer_lists
  | reach_call bl logbuffer bl' out rest :
      reachable bl ->
      process_pipe_input bl logbuffer = Done (bl', out, rest) ->
      reachable bl'.

(** A segment of a list: some elements in a row. *)
Definition segment {A} (seg l : list A) : Prop :=
  exists pre post, l = pre ++ seg ++ post.

End Invariants.

(** * The reference semantics, the accounting of streams and the postmaster's side *)
(** ** Reference notions for the properties of the collector *)

Section Reference.
Context `{SysloggerHeaders}.

(** The records the chunks of one producer amount to: a record ends with
    every chunk flagged as the last one and goes to the destination that
    chunk names; [acc] holds the payloads of the record in progress. *)
Fixpoint messages (src : Z) (acc : list byte) (cs : list chunk) : list write_event :=
  match cs with
  | [] => []
  | c :: cs' =>
      if is_last c
      then {| w_origin := Some src; w_bytes := acc ++ c_payload c; w_dest := chunk_dest c |}
           :: messages src [] cs'
      else messages src (acc ++ c_payload c) cs'
  end.

(** The payloads of the record still in progress after the chunks. *)
Fixpoint unfinished (acc : list byte) (cs : list chunk) : list byte :=
  match cs with
  | [] => acc
  | c :: cs' => if is_last c then unfinished [] cs' else unfinished (acc ++ c_payload c) cs'
  end.

(** The [write_syslogger_file] calls the collector makes for what came
    through the pipe, in order: the records of [process_pipe_input] and
    what [flush_pipe_input] puts out.  The messages the collector
    reports itself with [ereport] end in [write_syslogger_file] too, by
    way of elog.c; those are the [IoLog] calls and the failures inside
    [IoMeta], and are not among these. *)
Definition pipe_writes (out : list io) : list write_event :=
  omap (fun e => match e with IoWrite w _ => Some w | _ => None end) out.

(** The streams a run of calls opened, and the ones it closed. *)
Definition opened_files (out : list io) : list FILE :=
  omap (fun e => match e with
                 | IoOpen path mode None => Some {| f_path := path; f_mode := mode |}
                 | _ => None
                 end) out.

Definition closed_files (out : list io) : list FILE :=
  omap (fun e => match e with IoClose f => Some f | _ => None end) out.


(** A destination's pair of variables agrees: the recorded name is the
    path of the open stream, and there is none without a stream. *)
Definition slot_ok (s : file_slot) : Prop :=
  last_file_name s = f_path <$> logFile s.

(** [syslogFile] is open and every pair of variables agrees. *)
Definition slots_ok (fs : file_slots) : Prop :=
  is_Some (logFile (slot_sys fs))
  /\ slot_ok (slot_sys fs) /\ slot_ok (slot_csv fs) /\ slot_ok (slot_json fs)
  /\ slot_ok (slot_audit fs) /\ slot_ok (slot_slow fs).

(** The destinations with a file of their own besides stderr, each with
    its pair of variables. *)
Definition structured_destinations : list (Z * (file_slots -> file_slot)) :=
  [ (LOG_DESTINATION_CSVLOG, slot_csv);
    (LOG_DESTINATION_JSONLOG, slot_json);
    (LOG_DESTINATION_POLAR_AUDITLOG, slot_audit);
    (LOG_DESTINATION_POLAR_SLOWLOG, slot_slow) ].

Definition log_destination_list : list Z :=
  [LOG_DESTINATION_STDERR; LOG_DESTINATION_CSVLOG; LOG_DESTINATION_JSONLOG;
   LOG_DESTINATION_POLAR_AUDITLOG; LOG_DESTINATION_POLAR_SLOWLOG].

(** The five destination bits of [Log_destination] are not zero and
    share no bit. *)
Definition log_destinations_ok : bool :=
  forallb (fun d => negb (d =? 0)) log_destination_list
  && pairwise_disjoint log_destination_list.

End Reference.

(** The data the passes of a run hand to [process_pipe_input], in order:
    the bytes of every read that returned some, up to the first read
    that reports end of file. *)
Fixpoint reads_until_eof (ticks : list tick) : list (list byte) :=
  match ticks with
  | [] => []
  | t :: ticks' =>
      match t_wait t with
      | WaitReadable (ReadBytes data) =>
          if 0 <? Z.of_nat (length data) then data :: reads_until_eof ticks' else []
      | _ => reads_until_eof ticks'
      end
  end.

(** The five destinations, each with its pair of variables. *)
Section AllSlots.
Context `{SysloggerHeaders}.

Definition all_slots : list (Z * (file_slots -> file_slot)) :=
  (LOG_DESTINATION_STDERR, slot_sys) :: structured_destinations.

End AllSlots.

(** An unfinished message and the end of the pipe: "ab" of pid 7 is
    read, then the read reports end of file. *)
Definition unfinished_then_eof : list tick :=
  [read_tick 1001 (encode_chunk ab_open); read_tick 1002 []].

Global Instance open_mode_eq_dec : EqDecision open_mode.
Proof. solve_decision. Defined.


(** A call that passes a stream to stdio passes one that is open:
    [fwrite] and [fflush] are not called on NULL. *)
Definition has_stream (e : io) : bool :=
  match e with
  | IoWrite _ None | IoFlush _ None => false
  | _ => true
  end.

(** The state a pass leaves behind, if it leaves one. *)
Definition step_state (s : step) : option logger :=
  match s with
  | Continue st | Exit0 st | Raised st => Some st
  | Undefined => None
  end.

(** The streams held before a run of calls, with the ones it opened, are
    the streams held after it, with the ones it closed: each as often
    on one side as on the other. *)
Definition balance (before after : list FILE) (out : list io) : Prop :=
  before ++ opened_files out ≡ₚ after ++ closed_files out.


(** The calls the rotation half of a pass can make: everything but
    writes, flushes and the wait. *)
Definition rotation_call (e : io) : Prop :=
  match e with
  | IoWrite _ _ | IoFlush _ _ | IoWait _ _ => False
  | _ => True
  end.

(** The first pass of the truncation scenario that finds a rotation
    due. *)
Definition rotation_due : list tick := [quiet_tick 1010; quiet_tick 1020].

(** A pass at time [t] that handles a reload installing [new]; every
    call succeeds. *)
Definition reload_tick (t : Z) (new : config) : tick :=
  {| t_sigusr1 := false; t_reload := Some new; t_time_reload := t; t_meta_reload := meta_ok;
     t_time := t; t_ftell := fun _ => 0; t_dir := Some []; t_rotate := quiet_rotate_env t;
     t_wait := WaitLatch |}.

(** The dated configuration with a size limit of one kilobyte, a
    collector that has the stderr and csv files open under it, and a
    pass at time [t] that finds the csv file, and no other, over the
    limit. *)
Definition sized_config : config :=
  {| Log_RotationAge := 1; Log_RotationSize := 1;
     Log_directory := "log"; Log_filename := "pg-%s.log";
     Log_truncate_on_rotation := false; Log_destination := 9;
     polar_max_log_files := -1; polar_max_auditlog_files := -1;
     polar_max_slowlog_files := -1 |}.

Definition sized_logger : logger :=
  {| cfg := sized_config; MyLoggerIndex := 0;
     rot := {| next_rotation_time := 1020; rotation_disabled := false;
               rotation_requested := false |};
     slots := dated_slots;
     buffer_lists := initial_buffer_lists; logbuffer := []; pipe_eof_seen := false;
     currentLogDir := "log"; currentLogFilename := "pg-%s.log"; currentLogRotationAge := 1;
     now := 1000 |}.

Definition csv_full_tick (t : Z) : tick :=
  {| t_sigusr1 := false; t_reload := None; t_time_reload := t; t_meta_reload := meta_ok;
     t_time := t;
     t_ftell := fun f =>
       match f with
       | Some f => if String.eqb (f_path f) "log/pg-960.csv" then 2048 else 10
       | None => 0
       end;
     t_dir := Some []; t_rotate := quiet_rotate_env t; t_wait := WaitLatch |}.

(** The collector of the truncation scenario after an open has failed:
    rotation is disabled. *)
Definition disabled_logger : logger :=
  {| cfg := plain_config; MyLoggerIndex := 0;
     rot := {| next_rotation_time := 1020; rotation_disabled := true;
               rotation_requested := false |};
     slots := slots plain_logger;
     buffer_lists := initial_buffer_lists; logbuffer := []; pipe_eof_seen := false;
     currentLogDir := "log"; currentLogFilename := "pg.log"; currentLogRotationAge := 1;
     now := 1000 |}.

(** The directory after [k] sweeps in a row, when nothing else creates
    or removes files in between and every unlink succeeds. *)
Fixpoint sweeps `{SysloggerHeaders} (cfg : config) (k : nat) (entries : list string)
  : list string :=
  match k with
  | O => entries
  | S k' => sweeps cfg k' (after_sweep cfg entries)
  end.

Section NameParts.
Context `{SysloggerHeaders} `{TimeLibrary}.

(** What [pg_strftime] makes of [Log_filename] when the directory and
    the slash have left it the rest of the buffer. *)
Definition formatted_name (cfg : config) (timestamp : Z) : string :=
  pg_strftime (MAXPGPATH - strlen (Log_directory cfg) - 1) (Log_filename cfg) timestamp.

(** The collector's index as the audit log's name carries it. *)
Definition index_tag (suffix : string) (MyLoggerIndex : Z) : string :=
  if String.eqb suffix AUDITLOG_SUFFIX
  then String.append "_" (int_to_string MyLoggerIndex)
  else EmptyString.

End NameParts.
(** ** The postmaster's side: starting a collector *)

(** The permission bits of sys/stat.h, with the values POSIX gives
    them. *)
Definition S_IWUSR : Z := 128.    (* 0200 *)
Definition S_IRWXU : Z := 448.    (* 0700 *)
Definition S_IRWXG : Z := 56.     (* 0070 *)
Definition S_IRWXO : Z := 7.      (* 0007 *)

(** The argument of the [umask] call in [logfile_open]:
    [(~(Log_file_mode | S_IWUSR)) & (S_IRWXU | S_IRWXG | S_IRWXO)]. *)
Definition logfile_umask (Log_file_mode : Z) : Z :=
  Z.land (Z.lnot (Z.lor Log_file_mode S_IWUSR)) (Z.lor S_IRWXU (Z.lor S_IRWXG S_IRWXO)).

(** The permissions a file gets when it is created with the permissions
    [requested] under the mask [mask]. *)
Definition created_mode (requested mask : Z) : Z := Z.land requested (Z.lnot mask).

Inductive buffering : Type :=
  | PG_IOLBF
  | PG_IOFBF.

(** The two ends of a pipe or channel, as the indices 0 and 1. *)
Inductive channel_end : Type :=
  | read_end
  | write_end.

Definition end_index (e : channel_end) : Z :=
  match e with
  | read_end => 0
  | write_end => 1
  end.

(** [syslogPipe] and [syslogChannels]; the table of channels is kept as
    the ints it is made of, row after row, two to a row. *)
Record channels := {
  syslogPipe : Z * Z;
  syslogChannels : list Z
}.

Definition pipe_fd (p : Z * Z) (e : channel_end) : Z :=
  match e with
  | read_end => fst p
  | write_end => snd p
  end.

Definition set_pipe_fd (p : Z * Z) (e : channel_end) (fd : Z) : Z * Z :=
  match e with
  | read_end => (fd, snd p)
  | write_end => (fst p, fd)
  end.

(** [syslogChannels[index][end]]: [None] outside the table. *)
Definition table_fd (table : list Z) (index : Z) (e : channel_end) : option Z :=
  if index <? 0 then None else table !! Z.to_nat (2 * index + end_index e).

Definition set_table_fd (table : list Z) (index : Z) (e : channel_end) (fd : Z)
  : option (list Z) :=
  if index <? 0 then None
  else if bool_decide (Z.to_nat (2 * index + end_index e) < length table)%nat
  then Some (<[Z.to_nat (2 * index + end_index e) := fd]> table)
  else None.

(** [GET_LOG_CHANNEL_FD_WITH_INDEX(index, end)] *)
Definition GET_LOG_CHANNEL_FD_WITH_INDEX (ch : channels) (index : Z) (e : channel_end)
  : option Z :=
  if negb (index =? 0) then table_fd (syslogChannels ch) index e
  else Some (pipe_fd (syslogPipe ch) e).

(** [SET_LOG_CHANNEL_FD_WITH_INDEX(index, end, fd)] *)
Definition SET_LOG_CHANNEL_FD_WITH_INDEX (ch : channels) (index : Z) (e : channel_end)
    (fd : Z) : option channels :=
  if index =? 0
  then Some {| syslogPipe := set_pipe_fd (syslogPipe ch) e fd;
               syslogChannels := syslogChannels ch |}
  else match set_table_fd (syslogChannels ch) index e fd with
       | Some table => Some {| syslogPipe := syslogPipe ch; syslogChannels := table |}
       | None => None
       end.

(** [memset(p, -1, n)] on an array of ints of four bytes: the ints that
    lie within the first [n] bytes become -1; an int the [n] bytes end
    in has its bytes at the lower addresses set, which are its low bytes
    when the bytes are stored little-endian, as the fields of the chunk
    header are. *)
Definition memset_int (v : Z) (bytes : Z) : Z :=
  let u := v mod 2 ^ 32 in
  to_int32 (u / 2 ^ (8 * bytes) * 2 ^ (8 * bytes) + (2 ^ (8 * bytes) - 1)).

Fixpoint memset_ints (a : list Z) (n : Z) : list Z :=
  match a with
  | [] => []
  | v :: a' =>
      if n <=? 0 then a
      else if 4 <=? n then -1 :: memset_ints a' (n - 4)
      else memset_int v n :: a'
  end.

(** The variables of the postmaster that [SysLogger_Start] works on. *)
Record postmaster := {
  pm_channels : channels;
  polar_syslog_channel_is_inited : bool;
  redirection_done : bool;
  first_syslogger_file_time : Z;
  syslogFile : option FILE;
  csvlogFile : option FILE;
  jsonlogFile : option FILE;
  auditlogFile : option FILE;
  slowlogFile : option FILE
}.

(** The calls of the postmaster. *)
Inductive pm_call : Type :=
  | PmPipe (r : option (Z * Z))
  | PmSocketpair (index : Z) (r : option (Z * Z))
  | PmUmask (mask : Z)                    (* the umask around an fopen *)
  | PmSetvbuf (f : FILE) (mode : buffering)
  | PmFork (r : Z)
  | PmDup2 (fd target : Z) (ok : bool)
  | PmCloseFd (fd : Z)
  | PmIo (e : io).

(** The answers of the outside to one call of [SysLogger_Start]. *)
Record start_env := {
  s_pipe : option (Z * Z);                (* [None]: pipe() fails *)
  s_socketpair : option (Z * Z);
  s_time : Z;
  s_fopen : string -> open_mode -> option errno;
  s_fork : Z;
  s_dup2 : Z -> Z -> bool
}.

(** How [SysLogger_Start] ends. *)
Inductive start_result : Type :=
  | StartOff                              (* Logging_collector is off: return 0 *)
  | StartFatal                            (* ereport(FATAL, ...) *)
  | StartUndefined                        (* an index outside syslogChannels *)
  | StartForkFailed (pm : postmaster)     (* return 0 *)
  | StartChild (pm : postmaster)          (* the child, about to call SysLoggerMain *)
  | StartParent (pid : Z) (pm : postmaster).   (* return pid *)

Definition STDOUT_FILENO : Z := 1.
Definition STDERR_FILENO : Z := 2.

Section Postmaster.
Context `{SysloggerHeaders} `{TimeLibrary}.

(** [logfile_open_with_buffer_mode(filename, mode, allow_errors,
    buffer_mode)]: the stream, [None] for NULL, and the calls; the
    result is [None] when the function leaves through
    [ereport(FATAL)].  [logfile_open] is the same with [PG_IOLBF]. *)
Definition logfile_open_with_buffer_mode (Log_file_mode : Z)
    (fopen : string -> open_mode -> option errno)
    (filename : string) (mode : open_mode) (allow_errors : bool) (buffer_mode : buffering)
  : option (option FILE) * list pm_call :=
  let opening := [PmUmask (logfile_umask Log_file_mode);
                  PmIo (IoOpen filename mode (fopen filename mode))] in
  match fopen filename mode with
  | None =>
      let fh := {| f_path := filename; f_mode := mode |} in
      (Some (Some fh), opening ++ [PmSetvbuf fh buffer_mode])
  | Some e =>
      if allow_errors
      then (Some None, opening ++ [PmIo (IoLog "could not open log file")])
      else (None, opening)
  end.

Definition logfile_open (Log_file_mode : Z) (fopen : string -> open_mode -> option errno)
    (filename : string) (mode : open_mode) (allow_errors : bool)
  : option (option FILE) * list pm_call :=
  logfile_open_with_buffer_mode Log_file_mode fopen filename mode allow_errors PG_IOLBF.

(** The block that sets up [syslogPipe] or [syslogChannels[loggerIndex]]:
    the channels, or [StartFatal], or [StartUndefined]. *)
Definition start_channel (env : start_env) (inited : bool) (ch : channels) (loggerIndex : Z)
  : (channels + start_result) * list pm_call :=
  let table :=
    if inited then syslogChannels ch
    else memset_ints (syslogChannels ch) (Z.of_nat (length (syslogChannels ch))) in
  let ch := {| syslogPipe := syslogPipe ch; syslogChannels := table |} in
  if loggerIndex =? 0 then
    if fst (syslogPipe ch) <? 0 then
      match s_pipe env with
      | Some p => (inl {| syslogPipe := p; syslogChannels := table |}, [PmPipe (Some p)])
      | None => (inr StartFatal, [PmPipe None])
      end
    else (inl ch, [])
  else
    match table_fd table loggerIndex read_end with
    | None => (inr StartUndefined, [])
    | Some fd =>
        if fd <? 0 then
          match s_socketpair env with
          | Some p =>
              match set_table_fd table loggerIndex read_end (fst p) with
              | Some table1 =>
                  match set_table_fd table1 loggerIndex write_end (snd p) with
                  | Some table2 =>
                      (inl {| syslogPipe := syslogPipe ch; syslogChannels := table2 |},
                       [PmSocketpair loggerIndex (Some p)])
                  | None => (inr StartUndefined, [])
                  end
              | None => (inr StartUndefined, [])
              end
          | None => (inr StartFatal, [PmSocketpair loggerIndex None])
          end
        else (inl ch, [])
    end.

(** The initial log files: the stderr file always, the csv, json and
    slow-log files when their destinations are enabled.  The names are
    computed in the postmaster, where [MyLoggerIndex] is 0.  [None]
    when an open fails, which is fatal here. *)
Definition open_if (c : config) (Log_file_mode : Z) (env : start_env) (time : Z)
    (destination : Z) (suffix : string) (old : option FILE)
  : option (option FILE) * list pm_call :=
  if negb (Z.land (Log_destination c) destination =? 0) then
    logfile_open Log_file_mode (s_fopen env)
      (logfile_getname c 0 time (Some suffix)) mode_a false
  else (Some old, []).

(** The redirection of stdout and stderr into the pipe, done once. *)
Definition redirect (env : start_env) (ch : channels) (loggerIndex : Z)
  : (channels + start_result) * list pm_call :=
  let breadcrumb :=
    PmIo (IoLog "redirecting log output to logging collector process") in
  if loggerIndex =? 0 then
    let w := snd (syslogPipe ch) in
    if negb (s_dup2 env w STDOUT_FILENO)
    then (inr StartFatal, [breadcrumb; PmDup2 w STDOUT_FILENO false])
    else if negb (s_dup2 env w STDERR_FILENO)
    then (inr StartFatal,
          [breadcrumb; PmDup2 w STDOUT_FILENO true; PmDup2 w STDERR_FILENO false])
    else (inl {| syslogPipe := (fst (syslogPipe ch), -1);
                 syslogChannels := syslogChannels ch |},
          [breadcrumb; PmDup2 w STDOUT_FILENO true; PmDup2 w STDERR_FILENO true;
           PmCloseFd w])
  else
    match table_fd (syslogChannels ch) loggerIndex write_end,
          set_table_fd (syslogChannels ch) loggerIndex write_end (-1) with
    | Some w, Some table =>
        (inl {| syslogPipe := syslogPipe ch; syslogChannels := table |},
         [breadcrumb; PmCloseFd w])
    | _, _ => (inr StartUndefined, [breadcrumb])
    end.

Definition fclose_if (f : option FILE) : list pm_call :=
  match f with
  | Some f => [PmIo (IoClose f)]
  | None => []
  end.

(** [SysLogger_Start(loggerIndex)] *)
Definition SysLogger_Start (Logging_collector : bool) (c : config) (Log_file_mode : Z)
    (env : start_env) (pm : postmaster) (loggerIndex : Z)
  : start_result * list pm_call :=
  if negb Logging_collector then (StartOff, []) else
  match start_channel env (polar_syslog_channel_is_inited pm) (pm_channels pm) loggerIndex with
  | (inr r, out0) => (r, out0)
  | (inl ch, out0) =>
      let out1 := out0 ++ [PmIo (IoMkdir (Log_directory c))] in
      let time := s_time env in
      match logfile_open Log_file_mode (s_fopen env)
              (logfile_getname c 0 time (Some SYSLOG_SUFFIX)) mode_a false with
      | (None, o) => (StartFatal, out1 ++ o)
      | (Some sys, o_sys) =>
      match open_if c Log_file_mode env time LOG_DESTINATION_CSVLOG ".csv"
              (csvlogFile pm) with
      | (None, o) => (StartFatal, out1 ++ o_sys ++ o)
      | (Some csv, o_csv) =>
      match open_if c Log_file_mode env time LOG_DESTINATION_JSONLOG ".json"
              (jsonlogFile pm) with
      | (None, o) => (StartFatal, out1 ++ o_sys ++ o_csv ++ o)
      | (Some json, o_json) =>
      match open_if c Log_file_mode env time LOG_DESTINATION_POLAR_SLOWLOG SLOWLOG_SUFFIX
              (slowlogFile pm) with
      | (None, o) => (StartFatal, out1 ++ o_sys ++ o_csv ++ o_json ++ o)
      | (Some slow, o_slow) =>
          let out2 := out1 ++ o_sys ++ o_csv ++ o_json ++ o_slow ++ [PmFork (s_fork env)] in
          let opened (ch : channels) (done : bool) :=
            {| pm_channels := ch; polar_syslog_channel_is_inited := true;
               redirection_done := done; first_syslogger_file_time := time;
               syslogFile := sys; csvlogFile := csv; jsonlogFile := json;
               auditlogFile := auditlogFile pm; slowlogFile := slow |} in
          if s_fork env =? -1 then
            (StartForkFailed (opened ch (redirection_done pm)),
             out2 ++ [PmIo (IoLog "could not fork system logger")])
          else if s_fork env =? 0 then
            (StartChild (opened ch (redirection_done pm)), out2)
          else
            let redirected :=
              if negb (redirection_done pm) then redirect env ch loggerIndex
              else (inl ch, []) in
            match redirected with
            | (inr r, o) => (r, out2 ++ o)
            | (inl ch', o) =>
                (StartParent (s_fork env)
                   {| pm_channels := ch'; polar_syslog_channel_is_inited := true;
                      redirection_done := true; first_syslogger_file_time := time;
                      syslogFile := None; csvlogFile := None; jsonlogFile := None;
                      auditlogFile := None; slowlogFile := None |},
                 out2 ++ o ++ fclose_if sys ++ fclose_if csv ++ fclose_if json
                 ++ fclose_if (auditlogFile pm) ++ fclose_if slow)
            end
      end end end end
  end.

(** The part of [SysLoggerMain] that closes the descriptors the
    collector must not hold: its copy of the write end of its own
    channel, and both ends of every other collector's channel.  [None]
    when an index falls outside [syslogChannels]. *)
Definition close_fd (fd : Z) : list pm_call :=
  if 0 <=? fd then [PmCloseFd fd] else [].

Definition close_end (ch : channels) (index : Z) (e : channel_end)
  : option (channels * list pm_call) :=
  match GET_LOG_CHANNEL_FD_WITH_INDEX ch index e with
  | None => None
  | Some channel_fd =>
      match SET_LOG_CHANNEL_FD_WITH_INDEX ch index e (-1) with
      | None => None
      | Some ch' => Some (ch', close_fd channel_fd)
      end
  end.

(** The [for (i = 0; i < polar_syslogger_num; i++)] loop, [n] passes
    from [i] on. *)
Fixpoint close_others (n : nat) (i : Z) (MyLoggerIndex : Z) (ch : channels)
  : option (channels * list pm_call) :=
  match n with
  | O => Some (ch, [])
  | S n' =>
      if negb (i =? MyLoggerIndex) then
        match close_end ch i read_end with
        | None => None
        | Some (ch1, o1) =>
            match close_end ch1 i write_end with
            | None => None
            | Some (ch2, o2) =>
                match close_others n' (i + 1) MyLoggerIndex ch2 with
                | None => None
                | Some (ch3, o3) => Some (ch3, o1 ++ o2 ++ o3)
                end
            end
        end
      else close_others n' (i + 1) MyLoggerIndex ch
  end.

Definition SysLoggerMain_channels (ch : channels) (MyLoggerIndex : Z)
    (polar_syslogger_num : Z) : option (channels * list pm_call) :=
  match close_end ch MyLoggerIndex write_end with
  | None => None
  | Some (ch1, o1) =>
      match close_others (Z.to_nat polar_syslogger_num) 0 MyLoggerIndex ch1 with
      | None => None
      | Some (ch2, o2) => Some (ch2, o1 ++ o2)
      end
  end.

(** The collector from the fork on: [SysLoggerMain] up to the loop, run
    in the child [SysLogger_Start] has left. *)
Definition collector_start (c : config) (loggerIndex : Z) (MyStartTime : Z)
    (pm : postmaster) (audit_open : option errno) (clock : Z) (menv : meta_env)
  : option (logger * list io) :=
  SysLoggerMain_start c loggerIndex MyStartTime (first_syslogger_file_time pm)
    (syslogFile pm) (csvlogFile pm) (jsonlogFile pm) (slowlogFile pm)
    audit_open clock menv.

(** The [io] calls among the calls of the postmaster. *)
Definition pm_ios (out : list pm_call) : list io :=
  omap (fun e => match e with PmIo e => Some e | _ => None end) out.

End Postmaster.

(** A postmaster that has not started a collector yet, with a table of
    [n] channels. *)
Definition fresh_postmaster (n : nat) : postmaster :=
  {| pm_channels := {| syslogPipe := (-1, -1); syslogChannels := replicate (2 * n) 0 |};
     polar_syslog_channel_is_inited := false; redirection_done := false;
     first_syslogger_file_time := 0;
     syslogFile := None; csvlogFile := None; jsonlogFile := None;
     auditlogFile := None; slowlogFile := None |}.

(** A start at time [t] in which every call succeeds; the pipe gets the
    descriptors 5 and 6, a channel 7 and 8, and [fork] returns [r]. *)
Definition quiet_start (t : Z) (r : Z) : start_env :=
  {| s_pipe := Some (5, 6); s_socketpair := Some (7, 8); s_time := t;
     s_fopen := fun _ _ => None; s_fork := r; s_dup2 := fun _ _ => true |}.

(** The state [SysLogger_Start] leaves behind when it returns or goes
    on into the child. *)
Definition start_state (r : start_result) : option postmaster :=
  match r with
  | StartForkFailed pm | StartChild pm | StartParent _ pm => Some pm
  | StartOff | StartFatal | StartUndefined => None
  end.

(** Calls that create, duplicate or close descriptors. *)
Definition descriptor_call (e : pm_call) : bool :=
  match e with
  | PmPipe _ | PmSocketpair _ _ | PmDup2 _ _ _ | PmCloseFd _ => true
  | _ => false
  end.

Definition is_socketpair (e : pm_call) : bool :=
  match e with
  | PmSocketpair _ _ => true
  | _ => false
  end.

Section AtFork.
Context `{SysloggerHeaders} `{TimeLibrary}.

(** What [SysLogger_Start] has made of the file variables of [pm] when
    it gets as far as the fork at time [time]: the stderr file is open,
    the csv, json and slow-log files are open if their destinations are
    enabled, the other variables are as they were. *)
Definition files_at_fork (c : config) (time : Z) (pm pm' : postmaster) : Prop :=
  first_syslogger_file_time pm' = time
  /\ syslogFile pm'
     = Some {| f_path := logfile_getname c 0 time (Some SYSLOG_SUFFIX); f_mode := mode_a |}
  /\ csvlogFile pm'
     = (if dest_enabled c LOG_DESTINATION_CSVLOG
        then Some {| f_path := logfile_getname c 0 time (Some ".csv"%string);
                     f_mode := mode_a |}
        else csvlogFile pm)
  /\ jsonlogFile pm'
     = (if dest_enabled c LOG_DESTINATION_JSONLOG
        then Some {| f_path := logfile_getname c 0 time (Some ".json"%string);
                     f_mode := mode_a |}
        else jsonlogFile pm)
  /\ slowlogFile pm'
     = (if dest_enabled c LOG_DESTINATION_POLAR_SLOWLOG
        then Some {| f_path := logfile_getname c 0 time (Some SLOWLOG_SUFFIX);
                     f_mode := mode_a |}
        else slowlogFile pm)
  /\ auditlogFile pm' = auditlogFile pm.

(** The file variables of the postmaster hold no stream. *)
Definition no_files (pm : postmaster) : Prop :=
  syslogFile pm = None /\ csvlogFile pm = None /\ jsonlogFile pm = None
  /\ auditlogFile pm = None /\ slowlogFile pm = None.

End AtFork.

(** A postmaster whose collector has been started before: the pipe is
    there, its write end closed, and stderr is redirected. *)
Definition running_postmaster : postmaster :=
  {| pm_channels := {| syslogPipe := (5, -1); syslogChannels := replicate 16 (-1) |};
     polar_syslog_channel_is_inited := true; redirection_done := true;
     first_syslogger_file_time := 900;
     syslogFile := None; csvlogFile := None; jsonlogFile := None;
     auditlogFile := None; slowlogFile := None |}.

(** The descriptors a collector with index 1 inherits when two
    collectors have been started: the pipe of collector 0 and its own
    channel, in a table of four channels. *)
Definition two_collectors : channels :=
  {| syslogPipe := (5, 6); syslogChannels := [-1; -1; 7; 8; -1; -1; -1; -1] |}.

(** A table as the partial [memset] of [SysLogger_Start] leaves it for
    the collector with index 2: the rows from 2 on hold zeros. *)
Definition unmarked_channels : channels :=
  {| syslogPipe := (5, 6); syslogChannels := [-1; -1; 7; 8; 0; 0; 0; 0] |}.



(** ** Buffers and producers *)

Section Savers.
Context `{SysloggerHeaders}.

(** The producers a stream makes the parser keep data for in the list
    with index [i]: the pids that hash to [i] and wrote a chunk that is
    not the last of its message, each named once. *)
Definition savers (i : nat) (cs : list chunk) : list Z :=
  remove_dups
    (filter (fun q => Z.rem q NBUFFER_LISTS = Z.of_nat i)
       (c_pid <$> filter (fun c => is_last c = false) cs)).

End Savers.

(** Three messages of pid 7, each in two chunks. *)
Definition three_messages : list chunk :=
  [ab_open; c_close; ab_open; c_close; ab_open; c_close].

(** ** The ways out of the main loop *)

Section WaysOut.
Context `{SysloggerHeaders} `{TimeLibrary}.




End WaysOut.



(** A rotation age whose interval in seconds does not fit an [int]. *)
Definition long_age_config : config :=
  {| Log_RotationAge := 40000000; Log_RotationSize := 0;
     Log_directory := "log"; Log_filename := "pg.log";
     Log_truncate_on_rotation := true; Log_destination := 1;
     polar_max_log_files := -1; polar_max_auditlog_files := -1;
     polar_max_slowlog_files := -1 |}.

(** * Properties *)

(** ** Bytes *)

Lemma byte_val_range (b : byte) : 0 <= byte_val b < 256.
Proof.
  unfold byte_val. pose proof (Byte.to_N_bounded b) as Hb.
  lia.
Qed.

Lemma byte_val_of (z : Z) : 0 <= z < 256 -> byte_val (byte_of z) = z.
Proof.
  intros Hz. unfold byte_val, byte_of.
  destruct (Byte.of_N (Z.to_N z)) as [b|] eqn:Hb.
  - simpl. apply Byte.to_of_N in Hb. rewrite Hb. lia.
  - apply Byte.of_N_None_iff in Hb. lia.
Qed.

Section Popcount.
Context `{SysloggerHeaders}.

Lemma bit_of_lor (a b i : Z) :
  Z.land a b = 0 -> bit_of (Z.lor a b) i = bit_of a i + bit_of b i.
Proof.
  intros Hd. unfold bit_of. rewrite Z.lor_spec.
  assert (Hi : Z.testbit a i && Z.testbit b i = false).
  { rewrite <- Z.land_spec, Hd. apply Z.bits_0. }
  destruct (Z.testbit a i), (Z.testbit b i); simpl in *; congruence || lia.
Qed.

Lemma popcount8_lor (a b : Z) :
  Z.land a b = 0 -> pg_popcount8 (Z.lor a b) = pg_popcount8 a + pg_popcount8 b.
Proof.
  intros Hd. unfold pg_popcount8. rewrite !(bit_of_lor a b) by done. lia.
Qed.

Lemma popcount8_bits8 (x : Z) : pg_popcount8 (to_bits8 x) = pg_popcount8 x.
Proof.
  unfold pg_popcount8, to_bits8, bit_of.
  change 256 with (2 ^ 8). rewrite !Z.mod_pow2_bits_low by lia. done.
Qed.

Lemma land_pow2 (f k : Z) :
  0 <= k -> Z.land f (2 ^ k) = if Z.testbit f k then 2 ^ k else 0.
Proof.
  intros Hk. apply Z.bits_inj'. intros n Hn.
  rewrite Z.land_spec, Z.pow2_bits_eqb by done.
  destruct (Z.eqb_spec k n) as [->|Hne].
  - destruct (Z.testbit f n); simpl.
    + rewrite Z.pow2_bits_eqb by done. by rewrite Z.eqb_refl.
    + by rewrite Z.bits_0.
  - rewrite andb_false_r. destruct (Z.testbit f k).
    + rewrite Z.pow2_bits_eqb by done. symmetry. by apply Z.eqb_neq.
    + by rewrite Z.bits_0.
Qed.

Lemma single_bit_cases (m : Z) :
  single_bit m = true ->
  m = 1 \/ m = 2 \/ m = 4 \/ m = 8 \/ m = 16 \/ m = 32 \/ m = 64 \/ m = 128.
Proof.
  unfold single_bit. simpl. intros Hm.
  repeat (apply orb_true_iff in Hm; destruct Hm as [Hm|Hm];
          [apply Z.eqb_eq in Hm; subst m; tauto|]).
  discriminate.
Qed.

Lemma popcount8_land_single (f m : Z) :
  single_bit m = true ->
  pg_popcount8 (Z.land f m) = if Z.land f m =? 0 then 0 else 1.
Proof.
  intros Hm. apply single_bit_cases in Hm.
  assert (Hk : exists k, 0 <= k < 8 /\ m = 2 ^ k).
  { destruct Hm as [->|[->|[->|[->|[->|[->|[->| ->]]]]]]];
      [exists 0|exists 1|exists 2|exists 3|exists 4|exists 5|exists 6|exists 7];
      split; (lia || reflexivity). }
  destruct Hk as (k & Hk & ->).
  rewrite land_pow2 by lia.
  destruct (Z.testbit f k).
  - assert (k = 0 \/ k = 1 \/ k = 2 \/ k = 3 \/ k = 4 \/ k = 5 \/ k = 6 \/ k = 7) as Hc by lia.
    destruct Hc as [->|[->|[->|[->|[->|[->|[->| ->]]]]]]]; reflexivity.
  - reflexivity.
Qed.

Lemma land_land_disjoint (f a b : Z) :
  Z.land a b = 0 -> Z.land (Z.land f a) (Z.land f b) = 0.
Proof.
  intros Hd. apply Z.bits_inj'. intros n Hn.
  rewrite !Z.land_spec, Z.bits_0.
  assert (Hi : Z.testbit a n && Z.testbit b n = false).
  { rewrite <- Z.land_spec, Hd. apply Z.bits_0. }
  destruct (Z.testbit f n), (Z.testbit a n), (Z.testbit b n); simpl in *; congruence.
Qed.

Lemma land_lor_disjoint (a b c : Z) :
  Z.land a b = 0 -> Z.land a c = 0 -> Z.land a (Z.lor b c) = 0.
Proof. intros Hb Hc. by rewrite Z.land_lor_distr_r, Hb, Hc. Qed.

Lemma popcount_dest_flags (f : Z) :
  dest_flags_ok = true ->
  pg_popcount8 (to_bits8 (Z.land f all_dest_flags)) = dest_bits_set f.
Proof.
  unfold dest_flags_ok, dest_flag_list, dest_bits_set, all_dest_flags. simpl.
  rewrite !andb_true_iff, !Z.eqb_eq.
  intros Hok. destruct_and!.
  rewrite popcount8_bits8.
  rewrite !Z.land_lor_distr_r.
  rewrite !popcount8_lor.
  - rewrite !popcount8_land_single by done. lia.
  - by apply land_land_disjoint.
  - rewrite <- Z.land_lor_distr_r. apply land_land_disjoint. by apply land_lor_disjoint.
  - rewrite <- !Z.land_lor_distr_r. apply land_land_disjoint.
    apply land_lor_disjoint; [done|]. by apply land_lor_disjoint.
  - rewrite <- !Z.land_lor_distr_r. apply land_land_disjoint.
    apply land_lor_disjoint; [done|]. apply land_lor_disjoint; [done|].
    by apply land_lor_disjoint.
Qed.

End Popcount.

(** ** The parser: validity of headers and progress of the loop *)

Section Parser.
Context `{SysloggerHeaders}.

Lemma scan_nul_bounds (l : list byte) (k : Z) :
  k <= scan_nul l k <= k + Z.of_nat (length l).
Proof.
  revert k. induction l as [|b l IH]; intros k; simpl; [lia|].
  destruct (byte_val b =? 0); [lia|]. specialize (IH (k + 1)). lia.
Qed.

Lemma header_valid_fields (p : PipeProtoHeader) :
  header_valid p = true <->
  nuls0 p = 0 /\ nuls1 p = 0 /\ 0 < len p /\ pid p <> 0
  /\ pg_popcount8 (dest_flags_of p) = 1.
Proof.
  unfold header_valid.
  rewrite !andb_true_iff, negb_true_iff, !Z.eqb_eq, Z.eqb_neq, Z.ltb_lt. tauto.
Qed.

(** The branch for non-protocol data: what it writes and where it leaves
    the cursor. *)
Lemma pp_iter_unframed (bl : buffer_lists_t) (cursor : list byte) (dest : Z) :
  header_valid (decode_header cursor) = false ->
  pp_iter bl cursor dest =
    Next bl (drop (Z.to_nat (scan_nul (drop 1 cursor) 1)) cursor) dest
      [{| w_origin := None;
          w_bytes := take (Z.to_nat (scan_nul (drop 1 cursor) 1)) cursor;
          w_dest := LOG_DESTINATION_STDERR |}].
Proof. intros Hv. unfold pp_iter. by rewrite Hv. Qed.

Lemma save_chunk_origin bl p payload dest bl' out :
  save_chunk bl p payload dest = Some (bl', out) ->
  Forall (fun w => w_origin w = Some (pid p) /\ w_dest w = dest) out.
Proof.
  unfold save_chunk. intros Hs.
  repeat (case_match; simplify_eq); repeat constructor.
Qed.

Lemma pp_iter_consumes bl cursor dest bl' cursor' dest' out :
  PIPE_HEADER_SIZE + 1 <= Z.of_nat (length cursor) ->
  pp_iter bl cursor dest = Next bl' cursor' dest' out ->
  (length cursor' < length cursor)%nat.
Proof.
  unfold PIPE_HEADER_SIZE. intros Hc. unfold pp_iter.
  destruct (header_valid (decode_header cursor)) eqn:Hv.
  - apply header_valid_fields in Hv as (_ & _ & Hlen & _).
    destruct (Z.ltb_spec (Z.of_nat (length cursor))
                (PIPE_HEADER_SIZE + len (decode_header cursor))) as [|Hge]; [done|].
    destruct (save_chunk _ _ _ _) as [[bl1 out1]|]; [|done].
    intros [= <- <- <- <-]. rewrite length_drop. unfold PIPE_HEADER_SIZE in *.
    simpl in *. lia.
  - intros [= <- <- <- <-]. rewrite length_drop.
    pose proof (scan_nul_bounds (drop 1 cursor) 1). lia.
Qed.

Lemma pp_iter_unframed_nonempty bl cursor dest bl' cursor' dest' out :
  PIPE_HEADER_SIZE + 1 <= Z.of_nat (length cursor) ->
  pp_iter bl cursor dest = Next bl' cursor' dest' out ->
  Forall (fun w => w_origin w = None -> (1 <= length (w_bytes w))%nat) out.
Proof.
  unfold PIPE_HEADER_SIZE. intros Hc. unfold pp_iter.
  destruct (header_valid (decode_header cursor)) eqn:Hv.
  - destruct (_ <? _); [done|].
    destruct (save_chunk _ _ _ _) as [[bl1 out1]|] eqn:Hs; [|done].
    intros [= <- <- <- <-]. apply save_chunk_origin in Hs.
    eapply Forall_impl; [exact Hs|]. simpl. intros w [Hw _]. congruence.
  - intros [= <- <- <- <-]. constructor; [|constructor]. simpl. intros _.
    rewrite length_take.
    pose proof (scan_nul_bounds (drop 1 cursor) 1). lia.
Qed.

Lemma pp_loop_fuel_enough (fuel : nat) bl cursor dest :
  (length cursor <= fuel)%nat -> pp_loop fuel bl cursor dest <> OutOfFuel.
Proof.
  revert bl cursor dest. induction fuel as [|fuel IH]; intros bl cursor dest Hf; simpl.
  - destruct (Z.ltb_spec (Z.of_nat (length cursor)) (PIPE_HEADER_SIZE + 1)); [done|].
    unfold PIPE_HEADER_SIZE in *. lia.
  - destruct (Z.ltb_spec (Z.of_nat (length cursor)) (PIPE_HEADER_SIZE + 1)) as [|Hge]; [done|].
    destruct (pp_iter bl cursor dest) as [| |bl1 cursor1 dest1 out1] eqn:Hi; [done|done|].
    apply pp_iter_consumes in Hi; [|done].
    specialize (IH bl1 cursor1 dest1 ltac:(lia)).
    destruct (pp_loop fuel bl1 cursor1 dest1) as [[[? ?] ?]| |]; done.
Qed.

Lemma pp_loop_unframed_nonempty (fuel : nat) bl cursor dest bl' out rest :
  pp_loop fuel bl cursor dest = Done (bl', out, rest) ->
  Forall (fun w => w_origin w = None -> (1 <= length (w_bytes w))%nat) out.
Proof.
  revert bl cursor dest bl' out rest.
  induction fuel as [|fuel IH]; intros bl cursor dest bl' out rest; simpl.
  - destruct (_ <? _); [|done]. intros [= <- <- <-]. constructor.
  - destruct (Z.ltb_spec (Z.of_nat (length cursor)) (PIPE_HEADER_SIZE + 1)) as [|Hge].
    { intros [= <- <- <-]. constructor. }
    destruct (pp_iter bl cursor dest) as [| |bl1 cursor1 dest1 out1] eqn:Hi.
    + intros [= <- <- <-]. constructor.
    + done.
    + destruct (pp_loop fuel bl1 cursor1 dest1) as [[[bl2 out2] rest2]| |] eqn:Hl; [|done|done].
      intros [= <- <- <-]. apply Forall_app. split.
      * by eapply pp_iter_unframed_nonempty.
      * by eapply IH.
Qed.

(** C3.  A header is taken for a protocol header exactly when both
    sentinel bytes are zero, the length is positive, the pid is not zero
    and one of the five destination flags is set, the flags being five
    different bits; a header that fails the test, one of length 0 among
    them, makes the pass write the bytes up to the next zero byte as
    non-protocol data to the stderr destination, while a pass over a
    header that passes it eats header and payload and writes nothing
    but records of the header's pid to the destination of its flag. *)
Theorem header_validity (bl : buffer_lists_t) (cursor : list byte) (dest : Z) :
  dest_flags_ok = true ->
  (header_valid (decode_header cursor) = true <->
     nuls0 (decode_header cursor) = 0 /\ nuls1 (decode_header cursor) = 0
     /\ 0 < len (decode_header cursor) /\ pid (decode_header cursor) <> 0
     /\ dest_bits_set (flags (decode_header cursor)) = 1)
  /\ (len (decode_header cursor) = 0 -> header_valid (decode_header cursor) = false)
  /\ (header_valid (decode_header cursor) = false ->
      pp_iter bl cursor dest =
        Next bl (drop (Z.to_nat (scan_nul (drop 1 cursor) 1)) cursor) dest
          [{| w_origin := None;
              w_bytes := take (Z.to_nat (scan_nul (drop 1 cursor) 1)) cursor;
              w_dest := LOG_DESTINATION_STDERR |}])
  /\ (header_valid (decode_header cursor) = true ->
      forall bl' cursor' dest' out,
        pp_iter bl cursor dest = Next bl' cursor' dest' out ->
        cursor' = drop (Z.to_nat (PIPE_HEADER_SIZE + len (decode_header cursor))) cursor
        /\ Forall (fun w => w_origin w = Some (pid (decode_header cursor))
                            /\ w_dest w = select_dest (decode_header cursor) dest) out).
Proof.
  intros Hok. split; [|split; [|split]].
  - rewrite header_valid_fields. unfold dest_flags_of.
    by rewrite popcount_dest_flags.
  - intros Hlen. apply not_true_is_false. rewrite header_valid_fields. lia.
  - apply pp_iter_unframed.
  - intros Hv bl' cursor' dest' out. unfold pp_iter. rewrite Hv.
    destruct (_ <? _); [done|].
    destruct (save_chunk _ _ _ _) as [[bl1 out1]|] eqn:Hs; [|done].
    intros [= <- <- <- <-]. split; [done|].
    by apply save_chunk_origin in Hs.
Qed.

Lemma pp_loop_fuel_irrelevant (fuel1 : nat) :
  forall (fuel2 : nat) bl cursor dest,
  (length cursor <= fuel1)%nat -> (length cursor <= fuel2)%nat ->
  pp_loop fuel1 bl cursor dest = pp_loop fuel2 bl cursor dest.
Proof.
  induction fuel1 as [|fuel1 IH]; intros fuel2 bl cursor dest H1 H2.
  - destruct cursor; [|simpl in H1; lia]. by destruct fuel2.
  - destruct fuel2 as [|fuel2].
    { destruct cursor; [done|simpl in H2; lia]. }
    simpl. destruct (Z.ltb_spec (Z.of_nat (length cursor)) (PIPE_HEADER_SIZE + 1)) as [|Hge];
      [done|].
    destruct (pp_iter bl cursor dest) as [| |bl1 cursor1 dest1 out1] eqn:Hi; [done|done|].
    apply pp_iter_consumes in Hi; [|done].
    by rewrite (IH fuel2 bl1 cursor1 dest1) by lia.
Qed.

(** C9.  [process_pipe_input] terminates: the bound of the model's loop
    is never exhausted, and a larger bound gives the same result,
    because every pass that continues leaves fewer bytes than it found.
    Non-protocol records are at least one byte long, and the byte at the
    cursor, zero or not, is the first byte of the non-protocol record
    written under an invalid header. *)
Theorem process_pipe_input_progress (bl : buffer_lists_t) (logbuffer : list byte) :
  process_pipe_input bl logbuffer <> OutOfFuel
  /\ (forall fuel, (length logbuffer <= fuel)%nat ->
        pp_loop fuel bl logbuffer LOG_DESTINATION_STDERR = process_pipe_input bl logbuffer)
  /\ (forall bl0 cursor dest bl' cursor' dest' out,
        PIPE_HEADER_SIZE + 1 <= Z.of_nat (length cursor) ->
        pp_iter bl0 cursor dest = Next bl' cursor' dest' out ->
        (length cursor' < length cursor)%nat)
  /\ (forall bl' out rest,
        process_pipe_input bl logbuffer = Done (bl', out, rest) ->
        Forall (fun w => w_origin w = None -> (1 <= length (w_bytes w))%nat) out)
  /\ (forall bl0 b tail dest,
        header_valid (decode_header (b :: tail)) = false ->
        exists n,
          pp_iter bl0 (b :: tail) dest =
            Next bl0 (drop n tail) dest
              [{| w_origin := None; w_bytes := b :: take n tail;
                  w_dest := LOG_DESTINATION_STDERR |}]).
Proof.
  split; [|split; [|split; [|split]]].
  - by apply pp_loop_fuel_enough.
  - intros fuel Hf. by apply pp_loop_fuel_irrelevant.
  - intros *. apply pp_iter_consumes.
  - intros *. apply pp_loop_unframed_nonempty.
  - intros bl0 b tail dest Hv. rewrite pp_iter_unframed by done.
    pose proof (scan_nul_bounds (drop 1 (b :: tail)) 1) as Hb.
    exists (Z.to_nat (scan_nul (drop 1 (b :: tail)) 1) - 1)%nat.
    replace (Z.to_nat (scan_nul (drop 1 (b :: tail)) 1))
      with (S (Z.to_nat (scan_nul (drop 1 (b :: tail)) 1) - 1)) at 1 2 by lia.
    done.
Qed.

End Parser.

(** ** The reassembly buffers *)

Section Buffers.
Context `{SysloggerHeaders}.

Lemma buffers_ok_buckets (bl : buffer_lists_t) :
  buffers_ok bl <->
  length bl = Z.to_nat NBUFFER_LISTS /\ forall i l, bl !! i = Some l -> bucket_ok i l.
Proof.
  unfold buffers_ok, bucket_ok. split.
  - intros (Hlen & Hhome & Huniq). split; [done|]. intros i l Hl. split.
    + intros j buf Hj Hnz. eapply Hhome; eauto.
    + intros j1 j2 b1 b2 H1 H2 He Hnz. eapply Huniq; eauto.
  - intros (Hlen & Hb). split; [done|]. split.
    + intros i l j buf Hl Hj Hnz. destruct (Hb i l Hl) as [Hh _]. eapply Hh; eauto.
    + intros i l j1 j2 b1 b2 Hl H1 H2 He Hnz. destruct (Hb i l Hl) as [_ Hu].
      eapply Hu; eauto.
Qed.

Lemma initial_buffers_ok : buffers_ok initial_buffer_lists.
Proof.
  apply buffers_ok_buckets. unfold initial_buffer_lists. split.
  - by rewrite length_replicate.
  - intros i l [-> _]%lookup_replicate. split; intros *; by rewrite lookup_nil.
Qed.

Lemma buffers_ok_insert (bl : buffer_lists_t) (i : nat) (l : list save_buffer) :
  buffers_ok bl -> bucket_ok i l -> buffers_ok (<[i := l]> bl).
Proof.
  rewrite !buffers_ok_buckets. intros (Hlen & Hb) Hl. split.
  - by rewrite length_insert.
  - intros i' l' [(-> & -> & _)|(_ & Hl')]%list_lookup_insert_Some; [done|by apply Hb].
Qed.

(** What the scan of a list finds. *)
Lemma locate_existing src l i free e f :
  locate src l i free = (Some e, f) ->
  exists j buf, e = (i + j)%nat /\ l !! j = Some buf /\ sb_pid buf = src
    /\ bucket_data src l = Some (sb_data buf).
Proof.
  revert i free. induction l as [|b l IH]; intros i free; simpl; [done|].
  destruct (Z.eqb_spec (sb_pid b) src) as [Hb|Hb].
  - intros [= <- <-]. exists 0%nat, b. split_and!; [lia|done..].
  - intros (j & buf & -> & Hj & Hp & Hd)%IH.
    exists (S j), buf. split_and!; [lia|done..].
Qed.

Lemma locate_missing src l i free f :
  locate src l i free = (None, f) ->
  bucket_data src l = None /\ forall j buf, l !! j = Some buf -> sb_pid buf <> src.
Proof.
  revert i free. induction l as [|b l IH]; intros i free; simpl.
  - intros _. split; [done|]. intros j buf. by rewrite lookup_nil.
  - destruct (Z.eqb_spec (sb_pid b) src) as [Hb|Hb]; [done|].
    intros [Hd Hall]%IH. split; [done|].
    intros [|j] buf; simpl; [by intros [= <-]|by apply Hall].
Qed.

Lemma locate_free src l i free e f :
  locate src l i free = (e, Some f) ->
  free = Some f \/ exists j buf, f = (i + j)%nat /\ l !! j = Some buf /\ sb_pid buf = 0.
Proof.
  revert i free. induction l as [|b l IH]; intros i free; simpl.
  - intros [= <- <-]. by left.
  - destruct (sb_pid b =? src); [intros [= <- <-]; by left|].
    intros [Hf|(j & buf & -> & Hj & Hp)]%IH.
    + destruct (Z.eqb_spec (sb_pid b) 0) as [Hz|Hz]; [|by left].
      destruct free as [f0|]; [by left|]. simplify_eq/=.
      right. exists 0%nat, b. split_and!; [lia|done..].
    + right. exists (S j), buf. split_and!; [lia|done..].
Qed.

(** The data a list holds for a pid. *)
Lemma bucket_data_None src l :
  bucket_data src l = None <-> forall j buf, l !! j = Some buf -> sb_pid buf <> src.
Proof.
  induction l as [|b l IH]; simpl.
  - split; [|done]. intros _ j buf. by rewrite lookup_nil.
  - destruct (Z.eqb_spec (sb_pid b) src) as [Hb|Hb].
    + split; [done|]. intros Hall. by destruct (Hall 0%nat b).
    + rewrite IH. split.
      * intros Hall [|j] buf; simpl; [by intros [= <-]|by apply Hall].
      * intros Hall j buf Hj. by apply (Hall (S j)).
Qed.

Lemma bucket_data_unique src l j buf :
  l !! j = Some buf -> sb_pid buf = src ->
  (forall j' b', l !! j' = Some b' -> sb_pid b' = src -> j' = j) ->
  bucket_data src l = Some (sb_data buf).
Proof.
  revert j. induction l as [|b l IH]; intros j; simpl; [by rewrite lookup_nil|].
  intros Hj Hp Hu. destruct (Z.eqb_spec (sb_pid b) src) as [Hb|Hb].
  - assert (0%nat = j) as <- by (by apply (Hu 0%nat b)). by simplify_eq/=.
  - destruct j as [|j]; simplify_eq/=. apply (IH j); [done..|].
    intros j' b' Hj' Hp'. specialize (Hu (S j') b' Hj' Hp'). lia.
Qed.

Lemma bucket_data_insert_ne src l e old new :
  l !! e = Some old -> sb_pid old <> src -> sb_pid new <> src ->
  bucket_data src (<[e := new]> l) = bucket_data src l.
Proof.
  revert e. induction l as [|b l IH]; intros e; simpl; [done|].
  destruct e as [|e]; simpl.
  - intros [= ->] Ho Hn.
    destruct (Z.eqb_spec (sb_pid new) src), (Z.eqb_spec (sb_pid old) src); done.
  - intros He Ho Hn. destruct (sb_pid b =? src); [done|]. by apply IH.
Qed.

Lemma bucket_data_snoc src l new :
  bucket_data src (l ++ [new]) =
    match bucket_data src l with
    | Some d => Some d
    | None => if sb_pid new =? src then Some (sb_data new) else None
    end.
Proof.
  induction l as [|b l IH]; simpl; [done|]. by destruct (sb_pid b =? src).
Qed.

(** Overwriting a buffer keeps a list in order when the new pid is zero
    or hashes to the list and occurs nowhere else in it. *)
Lemma bucket_ok_insert i l e new :
  bucket_ok i l ->
  (sb_pid new = 0
   \/ (Z.rem (sb_pid new) NBUFFER_LISTS = Z.of_nat i
       /\ forall j b, j <> e -> l !! j = Some b -> sb_pid b <> sb_pid new)) ->
  bucket_ok i (<[e := new]> l).
Proof.
  intros [Hhome Huniq] Hnew. split.
  - intros j buf [(-> & -> & _)|(_ & Hj)]%list_lookup_insert_Some Hnz.
    + by destruct Hnew as [?|[? _]].
    + by eapply Hhome.
  - intros j1 j2 b1 b2 [(-> & -> & _)|(Hne1 & H1)]%list_lookup_insert_Some
      [(-> & -> & _)|(Hne2 & H2)]%list_lookup_insert_Some Heq Hnz; [done|..].
    + destruct Hnew as [?|[_ Hfresh]]; [done|]. by destruct (Hfresh j2 b2).
    + destruct Hnew as [?|[_ Hfresh]]; [congruence|].
      destruct (Hfresh j1 b1); done.
    + by eapply Huniq.
Qed.

Lemma bucket_ok_snoc i l new :
  bucket_ok i l ->
  Z.rem (sb_pid new) NBUFFER_LISTS = Z.of_nat i ->
  (forall j b, l !! j = Some b -> sb_pid b <> sb_pid new) ->
  bucket_ok i (l ++ [new]).
Proof.
  intros [Hhome Huniq] Hrem Hfresh. split.
  - intros j buf [[_ Hj]|[_ <-]]%lookup_snoc_Some Hnz; [by eapply Hhome|done].
  - intros j1 j2 b1 b2 [[_ H1]|[-> <-]]%lookup_snoc_Some
      [[_ H2]|[-> <-]]%lookup_snoc_Some Heq Hnz; [by eapply Huniq| | |done].
    + by destruct (Hfresh j1 b1).
    + by destruct (Hfresh j2 b2).
Qed.

Lemma pending_insert_other (bl : buffer_lists_t) i l src :
  Z.to_nat (Z.rem src NBUFFER_LISTS) <> i ->
  pending (<[i := l]> bl) src = pending bl src.
Proof. intros Hne. unfold pending. by rewrite list_lookup_insert_ne. Qed.

Lemma pending_insert_same (bl : buffer_lists_t) i l src :
  Z.to_nat (Z.rem src NBUFFER_LISTS) = i -> (i < length bl)%nat ->
  pending (<[i := l]> bl) src = default [] (bucket_data src l).
Proof. intros <- Hlt. unfold pending. by rewrite list_lookup_insert_eq. Qed.

End Buffers.

Section SaveChunk.
Context `{SysloggerHeaders}.

Lemma rem_lists_bound (z : Z) :
  0 <= Z.rem z NBUFFER_LISTS -> (Z.to_nat (Z.rem z NBUFFER_LISTS) < Z.to_nat NBUFFER_LISTS)%nat.
Proof.
  intros Hz. pose proof (Z.rem_bound_abs z NBUFFER_LISTS) as Hb.
  unfold NBUFFER_LISTS in *. lia.
Qed.

(** What [save_chunk] does to the buffers and what it writes, in terms
    of the data pending for each pid. *)
Lemma save_chunk_spec (bl : buffer_lists_t) p payload dest :
  buffers_ok bl -> pid p <> 0 -> 0 <= Z.rem (pid p) NBUFFER_LISTS ->
  exists bl',
    save_chunk bl p payload dest =
      Some (bl',
            if Z.land (flags p) PIPE_PROTO_IS_LAST =? 0 then []
            else [{| w_origin := Some (pid p);
                     w_bytes := pending bl (pid p) ++ payload; w_dest := dest |}])
    /\ buffers_ok bl'
    /\ pending bl' (pid p) =
         (if Z.land (flags p) PIPE_PROTO_IS_LAST =? 0
          then pending bl (pid p) ++ payload else [])
    /\ forall q, q <> pid p -> q <> 0 -> pending bl' q = pending bl q.
Proof.
  intros Hok Hnz Hrem.
  pose proof (rem_lists_bound _ Hrem) as Hlt.
  pose proof Hok as [Hlen Hb]%buffers_ok_buckets.
  set (idx := Z.to_nat (Z.rem (pid p) NBUFFER_LISTS)) in *.
  destruct (lookup_lt_is_Some_2 bl idx ltac:(lia)) as [l Hl].
  pose proof (Hb idx l Hl) as Hbl. pose proof Hbl as [Hhome Huniq].
  assert (Hidx : Z.rem (pid p) NBUFFER_LISTS = Z.of_nat idx) by (unfold idx; lia).
  assert (Hpend : pending bl (pid p) = default [] (bucket_data (pid p) l)).
  { unfold pending. fold idx. by rewrite Hl. }
  (* the buffers of other pids are not touched *)
  assert (Hother_ins : forall e old new q,
    l !! e = Some old -> (sb_pid old = pid p \/ sb_pid old = 0) ->
    (sb_pid new = pid p \/ sb_pid new = 0) ->
    q <> pid p -> q <> 0 ->
    pending (<[idx := <[e := new]> l]> bl) q = pending bl q).
  { intros e old new q He Ho Hn Hq Hq0.
    destruct (decide (Z.to_nat (Z.rem q NBUFFER_LISTS) = idx)) as [Hsame|Hdiff].
    - rewrite pending_insert_same by (done || lia).
      unfold pending. rewrite Hsame, Hl.
      f_equal. eapply bucket_data_insert_ne; [done|destruct Ho; congruence|destruct Hn; congruence].
    - by rewrite pending_insert_other. }
  unfold save_chunk. fold idx.
  destruct (Z.ltb_spec (Z.rem (pid p) NBUFFER_LISTS) 0) as [|_]; [lia|].
  rewrite Hl.
  destruct (locate (pid p) l 0 None) as [e f] eqn:Hloc.
  destruct (Z.land (flags p) PIPE_PROTO_IS_LAST =? 0) eqn:Hlast.
  - (* a chunk that is not the last one *)
    destruct e as [e|].
    + apply locate_existing in Hloc as (j & buf & -> & Hj & Hp & Hd). simpl.
      rewrite Hj. simpl. eexists. split; [done|].
      rewrite Hpend, Hd. simpl. split_and!.
      * apply buffers_ok_insert; [done|]. apply bucket_ok_insert; [done|].
        right. simpl. split; [done|]. intros j' b' Hne Hj' Heq.
        apply Hne. apply (Huniq j' j b' buf); congruence.
      * rewrite pending_insert_same by (done || lia).
        rewrite (bucket_data_unique (pid p) _ j
                   {| sb_pid := pid p; sb_data := sb_data buf ++ payload |});
          [done|apply list_lookup_insert_eq; by eapply lookup_lt_Some|done|].
        intros j' b' [(-> & _)|(Hne & Hj')]%list_lookup_insert_Some Hp'; [done|].
        apply (Huniq j' j b' buf); congruence.
      * intros q Hq Hq0. eapply Hother_ins; eauto.
    + pose proof Hloc as [Hd Hnone]%locate_missing. rewrite Hpend, Hd. simpl.
      destruct f as [f|].
      * apply locate_free in Hloc as [|(j & buf & -> & Hj & Hp)]; [done|]. simpl.
        eexists. split; [done|]. split_and!.
        -- apply buffers_ok_insert; [done|]. apply bucket_ok_insert; [done|].
           right. simpl. split; [done|]. intros j' b' _ Hj'. by apply (Hnone j').
        -- rewrite pending_insert_same by (done || lia).
           rewrite (bucket_data_unique (pid p) _ j
                      {| sb_pid := pid p; sb_data := payload |});
             [done|apply list_lookup_insert_eq; by eapply lookup_lt_Some|done|].
           intros j' b' [(-> & _)|(Hne & Hj')]%list_lookup_insert_Some Hp'; [done|].
           by destruct (Hnone j' b').
        -- intros q Hq Hq0. eapply Hother_ins; eauto.
      * eexists. split; [done|]. split_and!.
        -- apply buffers_ok_insert; [done|]. apply bucket_ok_snoc; [done..|].
           intros j b Hj. by apply (Hnone j).
        -- rewrite pending_insert_same by (done || lia).
           rewrite bucket_data_snoc, Hd. simpl. by rewrite Z.eqb_refl.
        -- intros q Hq Hq0.
           destruct (decide (Z.to_nat (Z.rem q NBUFFER_LISTS) = idx)) as [Hsame|Hdiff].
           ++ rewrite pending_insert_same by (done || lia).
              unfold pending. rewrite Hsame, Hl. rewrite bucket_data_snoc. simpl.
              destruct (bucket_data q l); [done|].
              destruct (Z.eqb_spec (pid p) q); [congruence|done].
           ++ by rewrite pending_insert_other.
  - (* the last chunk of a message *)
    destruct e as [e|].
    + apply locate_existing in Hloc as (j & buf & -> & Hj & Hp & Hd). simpl.
      rewrite Hj. simpl. eexists. rewrite Hpend, Hd. simpl. split; [done|]. split_and!.
      * apply buffers_ok_insert; [done|]. apply bucket_ok_insert; [done|]. by left.
      * rewrite pending_insert_same by (done || lia).
        replace (bucket_data (pid p) (<[j:={| sb_pid := 0; sb_data := [] |}]> l))
          with (@None (list byte)); [done|].
        symmetry. apply bucket_data_None.
        intros j' b' [(-> & <- & _)|(Hne & Hj')]%list_lookup_insert_Some Hp'; [done|].
        apply Hne. symmetry. apply (Huniq j' j b' buf); congruence.
      * intros q Hq Hq0. eapply Hother_ins; eauto.
    + pose proof Hloc as [Hd Hnone]%locate_missing. rewrite Hpend, Hd. simpl.
      eexists. split; [done|]. split_and!; [done| |done].
      by rewrite Hpend, Hd.
Qed.

(** A call of [save_chunk] that returns keeps the buffers in order. *)
Lemma save_chunk_ok (bl : buffer_lists_t) p payload dest bl' out :
  buffers_ok bl -> pid p <> 0 ->
  save_chunk bl p payload dest = Some (bl', out) -> buffers_ok bl'.
Proof.
  intros Hok Hnz Hs.
  assert (Hrem : 0 <= Z.rem (pid p) NBUFFER_LISTS).
  { unfold save_chunk in Hs.
    destruct (Z.ltb_spec (Z.rem (pid p) NBUFFER_LISTS) 0); [done|lia]. }
  destruct (save_chunk_spec bl p payload dest Hok Hnz Hrem) as (bl1 & Hs1 & Hok1 & _).
  congruence.
Qed.

End SaveChunk.

(** ** Chunks on the wire *)

Section Wire.
Context `{SysloggerHeaders}.

Lemma chunk_ok_fields (c : chunk) :
  chunk_ok c = true ->
  0 < c_pid c < 2 ^ 31 /\ 0 <= c_flags c < 256
  /\ 0 < Z.of_nat (length (c_payload c)) < 65536
  /\ pg_popcount8 (dest_flags_of (header_of c)) = 1.
Proof.
  unfold chunk_ok. rewrite !andb_true_iff, !Z.ltb_lt, Z.leb_le, Z.eqb_eq. tauto.
Qed.

Lemma header_of_valid (c : chunk) : chunk_ok c = true -> header_valid (header_of c) = true.
Proof.
  intros (Hp & Hf & Hl & Hd)%chunk_ok_fields. apply header_valid_fields. simpl.
  split_and!; (done || lia).
Qed.

Lemma length_header_bytes (c : chunk) : length (header_bytes c) = 9%nat.
Proof. done. Qed.

Lemma length_encode_chunk (c : chunk) :
  length (encode_chunk c) = (9 + length (c_payload c))%nat.
Proof. unfold encode_chunk. by rewrite length_app, length_header_bytes. Qed.

Lemma decode_header_bytes (c : chunk) (rest : list byte) :
  chunk_ok c = true -> decode_header (header_bytes c ++ rest) = header_of c.
Proof.
  intros (Hp & Hf & Hl & _)%chunk_ok_fields.
  unfold decode_header, header_of, header_bytes, byte_at. simpl nth.
  set (n := Z.of_nat (length (c_payload c))) in *.
  rewrite !byte_val_of;
    try (apply Z.mod_pos_bound; lia);
    try (split; [apply Z.div_pos; lia|apply Z.div_lt_upper_bound; lia]);
    try lia.
  f_equal.
  - Z.div_mod_to_equations. lia.
  - unfold to_int32.
    assert (c_pid c mod 256 + 2 ^ 8 * (c_pid c / 2 ^ 8 mod 256)
            + 2 ^ 16 * (c_pid c / 2 ^ 16 mod 256)
            + 2 ^ 24 * (c_pid c / 2 ^ 24 mod 256) = c_pid c) as ->.
    { change (2 ^ 8) with 256. change (2 ^ 16) with 65536. change (2 ^ 24) with 16777216.
      change (2 ^ 31) with 2147483648 in Hp.
      Z.div_mod_to_equations. lia. }
    destruct (Z.ltb_spec (c_pid c) (2 ^ 31)); lia.
Qed.

(** A pass over a complete chunk hands it to [save_chunk]. *)
Lemma pp_iter_chunk (bl : buffer_lists_t) (c : chunk) (rest : list byte) (dest : Z) :
  chunk_ok c = true ->
  pp_iter bl (encode_chunk c ++ rest) dest =
    match save_chunk bl (header_of c) (c_payload c) (select_dest (header_of c) dest) with
    | None => Crash
    | Some (bl', out) => Next bl' rest (select_dest (header_of c) dest) out
    end.
Proof.
  intros Hc. unfold pp_iter, encode_chunk. rewrite <- app_assoc.
  rewrite decode_header_bytes by done. rewrite header_of_valid by done.
  rewrite !length_app, length_header_bytes. simpl len.
  destruct (Z.ltb_spec (Z.of_nat (9 + (length (c_payload c) + length rest)))
              (PIPE_HEADER_SIZE + Z.of_nat (length (c_payload c)))) as [Hlt|_].
  { unfold PIPE_HEADER_SIZE in Hlt. lia. }
  replace (Z.to_nat PIPE_HEADER_SIZE) with (length (header_bytes c)) by done.
  rewrite drop_app_length.
  rewrite Nat2Z.id, take_app_length.
  replace (Z.to_nat (PIPE_HEADER_SIZE + Z.of_nat (length (c_payload c))))
    with (length (header_bytes c ++ c_payload c))
    by (rewrite length_app, length_header_bytes; unfold PIPE_HEADER_SIZE; lia).
  by rewrite app_assoc, drop_app_length.
Qed.

(** A pass over the beginning of a chunk waits for the rest. *)
Lemma pp_iter_partial (bl : buffer_lists_t) (c : chunk) (t : list byte) (dest : Z) :
  chunk_ok c = true -> partial_chunk t c ->
  PIPE_HEADER_SIZE + 1 <= Z.of_nat (length t) ->
  pp_iter bl t dest = Break.
Proof.
  intros Hc (t' & Henc & Hne) Hlen. unfold PIPE_HEADER_SIZE in Hlen.
  assert (Ht : t = header_bytes c ++ drop 9 t).
  { rewrite <- (take_drop 9 t) at 1. f_equal.
    assert (take 9 (encode_chunk c) = header_bytes c) as <-.
    { unfold encode_chunk. by rewrite take_app_length' by done. }
    rewrite Henc. rewrite take_app_le by lia. done. }
  assert (Hlt : (length t < length (encode_chunk c))%nat).
  { rewrite Henc, length_app. destruct t'; [done|simpl; lia]. }
  rewrite length_encode_chunk in Hlt.
  assert (Hdec : decode_header t = header_of c).
  { rewrite Ht. by apply decode_header_bytes. }
  unfold pp_iter. rewrite !Hdec.
  rewrite header_of_valid by done. simpl len.
  destruct (Z.ltb_spec (Z.of_nat (length t))
              (PIPE_HEADER_SIZE + Z.of_nat (length (c_payload c)))) as [_|Hge]; [done|].
  unfold PIPE_HEADER_SIZE in Hge. lia.
Qed.

(** For a valid header the if-cascade never falls through, so the
    destination does not depend on the previous one. *)
Lemma select_dest_valid (p : PipeProtoHeader) (d1 d2 : Z) :
  pg_popcount8 (dest_flags_of p) = 1 -> select_dest p d1 = select_dest p d2.
Proof.
  intros Hpc. unfold select_dest.
  repeat (match goal with |- context [negb (?x =? 0)] =>
            destruct (Z.eqb_spec x 0); simpl; [|done] end).
  exfalso. unfold dest_flags_of, all_dest_flags in Hpc.
  rewrite !Z.land_lor_distr_r in Hpc.
  repeat match goal with Hz : Z.land _ _ = 0 |- _ => rewrite Hz in Hpc; clear Hz end.
  simpl in Hpc. unfold to_bits8 in Hpc. simpl in Hpc. discriminate.
Qed.

Lemma chunk_dest_any (c : chunk) (dest : Z) :
  chunk_ok c = true -> select_dest (header_of c) dest = chunk_dest c.
Proof. intros (_ & _ & _ & Hd)%chunk_ok_fields. by apply select_dest_valid. Qed.

(** The loop over complete chunks followed by at most the beginning of
    another one: every chunk goes through [save_chunk], the beginning
    stays in the buffer. *)
Lemma stream_cons (c : chunk) (cs : list chunk) :
  stream (c :: cs) = encode_chunk c ++ stream cs.
Proof. done. Qed.

Lemma pp_loop_S (fuel : nat) (bl : buffer_lists_t) (cursor : list byte) (dest : Z) :
  pp_loop (S fuel) bl cursor dest =
    if Z.of_nat (length cursor) <? PIPE_HEADER_SIZE + 1 then Done (bl, [], cursor)
    else
      match pp_iter bl cursor dest with
      | Break => Done (bl, [], cursor)
      | Crash => OutOfBounds
      | Next bl' cursor' dest' out =>
          match pp_loop fuel bl' cursor' dest' with
          | Done (bl'', out', rest) => Done (bl'', out ++ out', rest)
          | OutOfBounds => OutOfBounds
          | OutOfFuel => OutOfFuel
          end
      end.
Proof. done. Qed.

Lemma pp_loop_stream (cs : list chunk) :
  forall (fuel : nat) (bl : buffer_lists_t) (t : list byte) (dest : Z) (cs' : list chunk),
  Forall (fun c => chunk_ok c = true) (cs ++ cs') ->
  leftover t cs' ->
  (length (stream cs ++ t) <= fuel)%nat ->
  pp_loop fuel bl (stream cs ++ t) dest =
    match save_chunks bl cs with
    | Some (bl', out) => Done (bl', out, t)
    | None => OutOfBounds
    end.
Proof.
  induction cs as [|c cs IH]; intros fuel bl t dest cs' Hok Hleft Hfuel.
  - change (stream [] ++ t) with t in *. simpl save_chunks.
    destruct fuel as [|fuel].
    + simpl. destruct (Z.ltb_spec (Z.of_nat (length t)) (PIPE_HEADER_SIZE + 1)); [done|].
      unfold PIPE_HEADER_SIZE in *. lia.
    + rewrite pp_loop_S.
      destruct (Z.ltb_spec (Z.of_nat (length t)) (PIPE_HEADER_SIZE + 1)) as [|Hge]; [done|].
      destruct Hleft as [->|(c & cs'' & -> & Hpart)].
      { unfold PIPE_HEADER_SIZE in Hge. simpl in Hge. lia. }
      apply Forall_cons in Hok as [Hc _].
      by rewrite (pp_iter_partial bl c t dest).
  - rewrite <- app_comm_cons in Hok. apply Forall_cons in Hok as [Hc Hok].
    rewrite stream_cons, <- app_assoc in *.
    pose proof (length_encode_chunk c) as Hlc.
    pose proof Hc as (_ & _ & Hpl & _)%chunk_ok_fields.
    rewrite length_app in Hfuel.
    destruct fuel as [|fuel]; [lia|]. rewrite pp_loop_S.
    destruct (Z.ltb_spec (Z.of_nat (length (encode_chunk c ++ stream cs ++ t)))
                (PIPE_HEADER_SIZE + 1)) as [Hlt|_].
    { rewrite length_app in Hlt. unfold PIPE_HEADER_SIZE in Hlt. lia. }
    rewrite pp_iter_chunk by done. rewrite chunk_dest_any by done. simpl save_chunks.
    destruct (save_chunk bl (header_of c) (c_payload c) (chunk_dest c)) as [[bl1 out1]|];
      [|done].
    rewrite (IH fuel bl1 t (chunk_dest c) cs') by (done || lia).
    by destruct (save_chunks bl1 cs) as [[bl2 out2]|].
Qed.

Lemma process_pipe_input_stream (bl : buffer_lists_t) (cs cs' : list chunk) (t : list byte) :
  Forall (fun c => chunk_ok c = true) (cs ++ cs') ->
  leftover t cs' ->
  process_pipe_input bl (stream cs ++ t) =
    match save_chunks bl cs with
    | Some (bl', out) => Done (bl', out, t)
    | None => OutOfBounds
    end.
Proof. intros Hok Hleft. unfold process_pipe_input. by eapply pp_loop_stream. Qed.

Lemma save_chunks_app (bl : buffer_lists_t) (cs1 cs2 : list chunk) :
  save_chunks bl (cs1 ++ cs2) =
    match save_chunks bl cs1 with
    | None => None
    | Some (bl1, out1) =>
        match save_chunks bl1 cs2 with
        | None => None
        | Some (bl2, out2) => Some (bl2, out1 ++ out2)
        end
    end.
Proof.
  revert bl. induction cs1 as [|c cs1 IH]; intros bl; simpl.
  - by destruct (save_chunks bl cs2) as [[? ?]|].
  - destruct (save_chunk _ _ _ _) as [[bl1 out1]|]; [|done].
    rewrite IH. destruct (save_chunks bl1 cs1) as [[bl2 out2]|]; [|done].
    destruct (save_chunks bl2 cs2) as [[bl3 out3]|]; [|done].
    by rewrite app_assoc.
Qed.

(** Any beginning of a stream is some complete chunks and at most the
    beginning of the next one. *)
Lemma stream_split (cs : list chunk) :
  forall (b rest : list byte),
  b ++ rest = stream cs ->
  exists cs1 cs2 t,
    cs = cs1 ++ cs2 /\ b = stream cs1 ++ t /\ t ++ rest = stream cs2 /\ leftover t cs2.
Proof.
  induction cs as [|c cs IH]; intros b rest Hb.
  - unfold stream in Hb. simpl in Hb. apply app_eq_nil in Hb as [-> ->].
    exists [], [], []. split_and!; try done. by left.
  - rewrite stream_cons in Hb.
    destruct (decide (length b < length (encode_chunk c))%nat) as [Hlt|Hge].
    + exists [], (c :: cs), b. split_and!; try done.
      destruct (decide (b = [])) as [->|Hne]; [by left|]. right.
      exists c, cs. split; [done|].
      exists (drop (length b) (encode_chunk c)). split.
      * rewrite <- (take_drop (length b) (encode_chunk c)) at 1. f_equal.
        assert (take (length b) (b ++ rest) = b) as Hb1 by (by rewrite take_app_length).
        rewrite Hb in Hb1. rewrite take_app_le in Hb1 by lia. done.
      * intros Hnil. apply (f_equal length) in Hnil. rewrite length_drop in Hnil.
        change (length (@nil byte)) with 0%nat in Hnil. lia.
    + assert (Hb1 : b = encode_chunk c ++ drop (length (encode_chunk c)) b).
      { rewrite <- (take_drop (length (encode_chunk c)) b) at 1. f_equal.
        assert (take (length (encode_chunk c)) (encode_chunk c ++ stream cs) = encode_chunk c)
          as Hc1 by (by rewrite take_app_length).
        rewrite <- Hb in Hc1. rewrite take_app_le in Hc1 by lia. done. }
      destruct (IH (drop (length (encode_chunk c)) b) rest) as (cs1 & cs2 & t & -> & Hd & Ht & Hl).
      { rewrite Hb1 in Hb. rewrite <- app_assoc in Hb. by apply app_inv_head in Hb. }
      exists (c :: cs1), cs2, t. split_and!; try done.
      rewrite Hb1 at 1. rewrite stream_cons, <- app_assoc. f_equal. exact Hd.
Qed.

(** Reads that cut a stream of chunks anywhere: the parser hands every
    chunk to [save_chunk], in order, and ends with an empty buffer. *)
Lemma read_loop_stream (reads : list (list byte)) :
  forall (cs : list chunk) (t : list byte) (bl : buffer_lists_t),
  Forall (fun c => chunk_ok c = true) cs ->
  leftover t cs ->
  t ++ concat reads = stream cs ->
  read_loop bl t reads =
    match save_chunks bl cs with
    | Some (bl', out) => Done (bl', out, [])
    | None => OutOfBounds
    end.
Proof.
  induction reads as [|r reads IH]; intros cs t bl Hok Hleft Hst.
  - simpl in *. rewrite app_nil_r in Hst.
    assert (cs = [] /\ t = []) as [-> ->].
    { destruct Hleft as [->|(c & cs' & -> & t' & Henc & Hne)].
      - destruct cs as [|c cs]; [done|]. rewrite stream_cons in Hst.
        symmetry in Hst. apply app_eq_nil in Hst as [Hst _].
        apply (f_equal length) in Hst. by rewrite length_encode_chunk in Hst.
      - exfalso. rewrite stream_cons in Hst. apply (f_equal length) in Hst.
        apply (f_equal length) in Henc. rewrite !length_app in *.
        destruct t'; [done|]. simpl in *. lia. }
    done.
  - simpl in Hst. rewrite app_assoc in Hst.
    destruct (stream_split cs (t ++ r) (concat reads) Hst)
      as (cs1 & cs2 & t2 & -> & Hb & Ht2 & Hl2).
    simpl. rewrite Hb.
    rewrite (process_pipe_input_stream bl cs1 cs2 t2) by done.
    rewrite save_chunks_app.
    destruct (save_chunks bl cs1) as [[bl1 out1]|]; [|done].
    apply Forall_app in Hok as [_ Hok2].
    rewrite (IH cs2 t2 bl1) by done.
    by destruct (save_chunks bl1 cs2) as [[bl2 out2]|].
Qed.

End Wire.

(** ** Reassembly of the chunks of a stream *)

Section Reassembly.
Context `{SysloggerHeaders}.

Lemma pending_initial (src : Z) : pending initial_buffer_lists src = [].
Proof.
  unfold pending, initial_buffer_lists.
  destruct (replicate _ _ !! _) as [l|] eqn:Hl; [|done].
  by apply lookup_replicate in Hl as [-> _].
Qed.

Lemma payloads_cons (c : chunk) (cs : list chunk) :
  payloads (c :: cs) = c_payload c ++ payloads cs.
Proof. done. Qed.

Lemma written_app (o1 o2 : list write_event) : written (o1 ++ o2) = written o1 ++ written o2.
Proof. unfold written. by rewrite fmap_app, concat_app. Qed.

Lemma records_of_app (src : Z) (o1 o2 : list write_event) :
  records_of src (o1 ++ o2) = records_of src o1 ++ records_of src o2.
Proof. unfold records_of. by rewrite filter_app. Qed.

Lemma chunk_ok_rem (c : chunk) :
  chunk_ok c = true -> c_pid c <> 0 /\ 0 <= Z.rem (c_pid c) NBUFFER_LISTS.
Proof.
  intros (Hp & _)%chunk_ok_fields. split; [lia|].
  apply Z.rem_nonneg; unfold NBUFFER_LISTS; lia.
Qed.

(** One chunk through [save_chunk], seen from the producer's side. *)
Lemma save_chunk_chunk (bl : buffer_lists_t) (c : chunk) :
  buffers_ok bl -> chunk_ok c = true ->
  exists bl',
    save_chunk bl (header_of c) (c_payload c) (chunk_dest c) =
      Some (bl',
            if is_last c
            then [{| w_origin := Some (c_pid c);
                     w_bytes := pending bl (c_pid c) ++ c_payload c;
                     w_dest := chunk_dest c |}]
            else [])
    /\ buffers_ok bl'
    /\ pending bl' (c_pid c) = (if is_last c then [] else pending bl (c_pid c) ++ c_payload c)
    /\ forall q, q <> c_pid c -> q <> 0 -> pending bl' q = pending bl q.
Proof.
  intros Hok [Hnz Hrem]%chunk_ok_rem.
  destruct (save_chunk_spec bl (header_of c) (c_payload c) (chunk_dest c) Hok Hnz Hrem)
    as (bl' & Hs & Hok' & Hp & Ho).
  exists bl'. unfold is_last. simpl in *.
  destruct (Z.land (c_flags c) PIPE_PROTO_IS_LAST =? 0); simpl; done.
Qed.

(** The bytes written for a pid, followed by what is still buffered for
    it, are what was buffered before followed by the payloads of its
    chunks. *)
Lemma save_chunks_spec (cs : list chunk) :
  forall bl : buffer_lists_t,
  buffers_ok bl -> Forall (fun c => chunk_ok c = true) cs ->
  exists bl' out,
    save_chunks bl cs = Some (bl', out)
    /\ buffers_ok bl'
    /\ (forall q, q <> 0 ->
          written (records_of q out) ++ pending bl' q = pending bl q ++ payloads (chunks_of q cs))
    /\ Forall (fun w => exists c, c ∈ cs /\ w_origin w = Some (c_pid c)) out.
Proof.
  induction cs as [|c cs IH]; intros bl Hok Hcs.
  - exists bl, []. split_and!; [done|done| |constructor].
    intros q _. by rewrite app_nil_r.
  - apply Forall_cons in Hcs as [Hc Hcs].
    destruct (save_chunk_chunk bl c Hok Hc) as (bl1 & Hs1 & Hok1 & Hp1 & Ho1).
    destruct (IH bl1 Hok1 Hcs) as (bl2 & out2 & Hs2 & Hok2 & Hp2 & Hor2).
    simpl. rewrite Hs1, Hs2. eexists _, _. split; [done|]. split; [done|]. split.
    + intros q Hq. rewrite records_of_app, written_app. specialize (Hp2 q Hq).
      unfold chunks_of in *. destruct (decide (c_pid c = q)) as [<-|Hne].
      * rewrite filter_cons_True by done. rewrite payloads_cons.
        rewrite <- app_assoc, Hp2, Hp1.
        destruct (is_last c); simpl.
        -- unfold records_of. rewrite filter_cons_True by done.
           unfold written. simpl. by rewrite !app_nil_r, <- !app_assoc.
        -- by rewrite <- !app_assoc.
      * rewrite filter_cons_False by done.
        rewrite <- app_assoc, Hp2, Ho1 by done.
        destruct (is_last c); simpl; [|done].
        unfold records_of. rewrite filter_cons_False; [done|]. simpl. congruence.
    + apply Forall_app. split.
      * destruct (is_last c); constructor; [|constructor].
        exists c. split; [left|done].
      * eapply Forall_impl; [exact Hor2|]. simpl.
        intros w (c' & Hin & Hw). exists c'. split; [by right|done].
Qed.

(** When the last chunk of a pid is a final one nothing stays buffered
    for it. *)
Lemma save_chunks_last (cs : list chunk) :
  forall (bl bl' : buffer_lists_t) out q c,
  buffers_ok bl -> Forall (fun c => chunk_ok c = true) cs ->
  save_chunks bl cs = Some (bl', out) ->
  q <> 0 -> last (chunks_of q cs) = Some c -> is_last c = true ->
  pending bl' q = [].
Proof.
  induction cs as [|c0 cs IH]; intros bl bl' out q c Hok Hcs Hs Hq Hlast Hfin; [done|].
  apply Forall_cons in Hcs as [Hc0 Hcs].
  destruct (save_chunk_chunk bl c0 Hok Hc0) as (bl1 & Hs1 & Hok1 & Hp1 & Ho1).
  simpl in Hs. rewrite Hs1 in Hs.
  destruct (save_chunks_spec cs bl1 Hok1 Hcs) as (bl2 & out2 & Hs2 & Hok2 & Hp2 & _).
  rewrite Hs2 in Hs. simplify_eq.
  destruct (chunks_of q cs) as [|c1 cs1] eqn:Hq1.
  - specialize (Hp2 q Hq). rewrite Hq1 in Hp2.
    unfold chunks_of in Hlast, Hq1.
    destruct (decide (c_pid c0 = q)) as [<-|Hne].
    + rewrite filter_cons_True, Hq1 in Hlast by done. simplify_eq/=.
      rewrite Hfin in Hp1. rewrite Hp1 in Hp2. simpl in Hp2.
      by apply app_eq_nil in Hp2 as [_ ?].
    + rewrite filter_cons_False, Hq1 in Hlast by done. done.
  - eapply (IH bl1); [done..| |done].
    unfold chunks_of in *.
    destruct (decide (c_pid c0 = q)) as [<-|Hne].
    + rewrite filter_cons_True in Hlast by done. rewrite Hq1 in *. exact Hlast.
    + by rewrite filter_cons_False in Hlast by done.
Qed.

Lemma segment_cons {A} (x : A) (seg l : list A) : segment seg l -> segment seg (x :: l).
Proof. intros (pre & post & ->). by exists (x :: pre), post. Qed.

Lemma prefix_segment {A} (seg l : list A) : seg `prefix_of` l -> segment seg l.
Proof. intros [post ->]. by exists [], post. Qed.

(** Every record is made of the payloads of consecutive chunks of one
    pid, after what was buffered for that pid at the start. *)
Lemma save_chunks_segments (cs : list chunk) :
  forall (bl bl' : buffer_lists_t) out,
  buffers_ok bl -> Forall (fun c => chunk_ok c = true) cs ->
  save_chunks bl cs = Some (bl', out) ->
  Forall (fun w => exists q seg,
            w_origin w = Some q /\ q <> 0
            /\ ((w_bytes w = payloads seg /\ segment seg (chunks_of q cs))
                \/ (w_bytes w = pending bl q ++ payloads seg
                    /\ seg `prefix_of` chunks_of q cs))) out.
Proof.
  induction cs as [|c cs IH]; intros bl bl' out Hok Hcs Hs.
  - simpl in Hs. simplify_eq. constructor.
  - apply Forall_cons in Hcs as [Hc Hcs].
    destruct (save_chunk_chunk bl c Hok Hc) as (bl1 & Hs1 & Hok1 & Hp1 & Ho1).
    simpl in Hs. rewrite Hs1 in Hs.
    destruct (save_chunks bl1 cs) as [[bl2 out2]|] eqn:Hs2; [|done].
    injection Hs as <- <-.
    pose proof (chunk_ok_rem c Hc) as [Hnz _].
    apply Forall_app. split.
    + destruct (is_last c); constructor; [|constructor].
      exists (c_pid c), [c]. simpl. split_and!; [done..|]. right. split.
      * unfold payloads. simpl. by rewrite app_nil_r.
      * unfold chunks_of. rewrite filter_cons_True by done.
        by apply prefix_cons, prefix_nil.
    + eapply Forall_impl; [exact (IH bl1 bl2 out2 Hok1 Hcs Hs2)|]. simpl.
      intros w (q & seg & Hw & Hq & Hcase). exists q.
      unfold chunks_of in *. destruct (decide (c_pid c = q)) as [<-|Hne].
      * rewrite filter_cons_True by done.
        destruct Hcase as [[Hb Hseg]|[Hb Hpre]].
        -- exists seg. split_and!; [done..|]. left. split; [done|by apply segment_cons].
        -- rewrite Hp1 in Hb. destruct (is_last c).
           ++ exists seg. split_and!; [done..|]. left. split; [done|].
              by apply segment_cons, prefix_segment.
           ++ exists (c :: seg). split_and!; [done..|]. right. split.
              ** by rewrite payloads_cons, Hb, <- app_assoc.
              ** by apply prefix_cons.
      * rewrite filter_cons_False by done. exists seg. split_and!; [done..|].
        destruct Hcase as [[Hb Hseg]|[Hb Hpre]]; [by left|]. right.
        by rewrite <- Ho1.
Qed.

(** The buffers stay in order whatever bytes arrive. *)
Lemma pp_loop_buffers_ok (fuel : nat) :
  forall (bl : buffer_lists_t) cursor dest bl' out rest,
  buffers_ok bl -> pp_loop fuel bl cursor dest = Done (bl', out, rest) -> buffers_ok bl'.
Proof.
  induction fuel as [|fuel IH]; intros bl cursor dest bl' out rest Hok; simpl.
  - destruct (_ <? _); [|done]. by intros [= <- <- <-].
  - destruct (_ <? _); [by intros [= <- <- <-]|].
    destruct (pp_iter bl cursor dest) as [| |bl1 cursor1 dest1 out1] eqn:Hi;
      [by intros [= <- <- <-]|done|].
    destruct (pp_loop fuel bl1 cursor1 dest1) as [[[bl2 out2] rest2]| |] eqn:Hl; [|done..].
    intros [= <- <- <-]. eapply IH; [|exact Hl].
    unfold pp_iter in Hi.
    destruct (header_valid (decode_header cursor)) eqn:Hv.
    + destruct (_ <? _); [done|].
      destruct (save_chunk _ _ _ _) as [[bl3 out3]|] eqn:Hs; [|done].
      simplify_eq. eapply save_chunk_ok; [done| |exact Hs].
      by apply header_valid_fields in Hv as (_ & _ & _ & ? & _).
    + by simplify_eq.
Qed.

Lemma reachable_buffers_ok (bl : buffer_lists_t) : reachable bl -> buffers_ok bl.
Proof.
  induction 1 as [|bl logbuffer bl' out rest _ IH Hp].
  - apply initial_buffers_ok.
  - by eapply pp_loop_buffers_ok.
Qed.

Lemma buffers_ok_one_slot (bl : buffer_lists_t) : buffers_ok bl -> one_slot_per_pid bl.
Proof.
  intros (_ & Hhome & Huniq) i1 l1 j1 b1 i2 l2 j2 b2 Hl1 Hb1 Hl2 Hb2 Heq Hnz.
  assert (i1 = i2) as <-.
  { pose proof (Hhome i1 l1 j1 b1 Hl1 Hb1 Hnz).
    pose proof (Hhome i2 l2 j2 b2 Hl2 Hb2 ltac:(congruence)).
    rewrite Heq in *. lia. }
  split; [done|]. simplify_eq. by eapply Huniq.
Qed.

End Reassembly.

(** ** What a producer's chunks become *)

Section Producers.
Context `{SysloggerHeaders}.

(** C1, as the code has it.  A producer's chunks, cut by the reads in
    any way, are all eaten; every record written carries the producer's
    pid; the bytes written followed by the bytes still buffered for the
    pid are the payloads in the order written; and when the last chunk
    is an IS_LAST chunk nothing stays buffered, so that the bytes
    written are the payloads. *)
Theorem single_producer_stream (src : Z) (cs : list chunk) (reads : list (list byte)) :
  Forall (fun c => chunk_ok c = true) cs ->
  Forall (fun c => c_pid c = src) cs ->
  concat reads = stream cs ->
  exists bl' out,
    read_loop initial_buffer_lists [] reads = Done (bl', out, [])
    /\ Forall (fun w => w_origin w = Some src) out
    /\ written out ++ pending bl' src = payloads cs
    /\ (forall c, last cs = Some c -> is_last c = true ->
          pending bl' src = [] /\ written out = payloads cs).
Proof.
  intros Hok Hsrc Hst.
  rewrite (read_loop_stream reads cs [] initial_buffer_lists Hok) by (done || by left).
  destruct (save_chunks_spec cs initial_buffer_lists initial_buffers_ok Hok)
    as (bl' & out & Hs & Hok' & Hp & Hor).
  rewrite Hs. exists bl', out. split; [done|].
  assert (Hall : Forall (fun w => w_origin w = Some src) out).
  { eapply Forall_impl; [exact Hor|]. simpl. intros w (c & Hin & ->).
    rewrite Forall_forall in Hsrc. by rewrite (Hsrc c Hin). }
  assert (Hrec : records_of src out = out).
  { clear -Hall. induction Hall as [|w out Hw _ IH]; [done|].
    unfold records_of in *. by rewrite filter_cons_True, IH by done. }
  assert (Hchunks : chunks_of src cs = cs).
  { clear -Hsrc. induction Hsrc as [|c cs Hc _ IH]; [done|].
    unfold chunks_of in *. by rewrite filter_cons_True, IH by done. }
  destruct cs as [|c0 cs0].
  { simpl in Hs. simplify_eq. split_and!; [done| |done].
    by rewrite pending_initial. }
  assert (Hnz : src <> 0).
  { apply Forall_cons in Hok as [[Hnz _]%chunk_ok_rem _].
    apply Forall_cons in Hsrc as [<- _]. done. }
  specialize (Hp src Hnz). rewrite Hrec, Hchunks, pending_initial in Hp.
  split_and!; [done|done|].
  intros c Hlast Hfin.
  assert (Hnil : pending bl' src = []).
  { eapply (save_chunks_last (c0 :: cs0)); [apply initial_buffers_ok|done..| |done].
    by rewrite Hchunks. }
  split; [done|]. by rewrite Hnil, app_nil_r in Hp.
Qed.

(** C2.  Chunks of two producers, interleaved in any way and cut by the
    reads in any way, are all eaten; every record written is the
    payloads of consecutive chunks of one of the two producers; and
    afterwards, as after every call of [process_pipe_input] on any
    bytes, no two buffers in all the lists hold the same nonzero pid. *)
Theorem producers_never_mixed (a b : Z) (cs : list chunk) (reads : list (list byte)) :
  a <> b ->
  Forall (fun c => chunk_ok c = true) cs ->
  Forall (fun c => c_pid c = a \/ c_pid c = b) cs ->
  concat reads = stream cs ->
  (exists bl' out,
     read_loop initial_buffer_lists [] reads = Done (bl', out, [])
     /\ Forall (fun w => exists q seg,
                  (q = a \/ q = b) /\ w_origin w = Some q
                  /\ segment seg (chunks_of q cs) /\ w_bytes w = payloads seg) out
     /\ one_slot_per_pid bl')
  /\ (forall bl, reachable bl -> one_slot_per_pid bl).
Proof.
  intros _ Hok Hab Hst. split.
  - rewrite (read_loop_stream reads cs [] initial_buffer_lists Hok) by (done || by left).
    destruct (save_chunks_spec cs initial_buffer_lists initial_buffers_ok Hok)
      as (bl' & out & Hs & Hok' & _ & Hor).
    rewrite Hs. exists bl', out. split; [done|]. split; [|by apply buffers_ok_one_slot].
    pose proof (save_chunks_segments cs _ _ _ initial_buffers_ok Hok Hs) as Hseg.
    rewrite Forall_forall in Hseg. rewrite Forall_forall in Hor.
    rewrite Forall_forall in Hab. apply Forall_forall. intros w Hw.
    destruct (Hseg w Hw) as (q & seg & Hq & Hnz & Hcase).
    destruct (Hor w Hw) as (c & Hin & Hc).
    exists q, seg. split_and!.
    + rewrite Hq in Hc. injection Hc as ->. by apply Hab.
    + done.
    + destruct Hcase as [[_ ?]|[_ ?]]; [done|by apply prefix_segment].
    + destruct Hcase as [[? _]|[Hb _]]; [done|]. by rewrite pending_initial in Hb.
  - intros bl Hr. by apply buffers_ok_one_slot, reachable_buffers_ok.
Qed.

End Producers.

(** Scenarios with the sample constants. *)
Section ProducerScenarios.
Local Existing Instance sample_headers.

(** The split record of the specification: the reader returns after
    seven bytes and then the rest. *)
Lemma single_producer_stream_witness :
  Forall (fun c => chunk_ok c = true) [hello]
  /\ Forall (fun c => c_pid c = 42) [hello]
  /\ concat [take 7 (encode_chunk hello); drop 7 (encode_chunk hello)] = stream [hello]
  /\ exists bl' out,
       read_loop initial_buffer_lists []
         [take 7 (encode_chunk hello); drop 7 (encode_chunk hello)] = Done (bl', out, [])
       /\ Forall (fun w => w_origin w = Some 42) out
       /\ written out ++ pending bl' 42 = payloads [hello]
       /\ (forall c, last [hello] = Some c -> is_last c = true ->
             pending bl' 42 = [] /\ written out = payloads [hello]).
Proof.
  assert (H1 : Forall (fun c => chunk_ok c = true) [hello]) by (repeat constructor).
  assert (H2 : Forall (fun c => c_pid c = 42) [hello]) by (repeat constructor).
  assert (H3 : concat [take 7 (encode_chunk hello); drop 7 (encode_chunk hello)]
               = stream [hello]) by reflexivity.
  split; [exact H1|]. split; [exact H2|]. split; [exact H3|].
  exact (single_producer_stream 42 [hello]
           [take 7 (encode_chunk hello); drop 7 (encode_chunk hello)] H1 H2 H3).
Defined.

(** C1 counterexample.  A producer that has written one chunk that is
    not the last of its message: the chunk is eaten, nothing is written,
    and the payload sits in the buffer of the pid. *)
Lemma unfinished_message_not_written :
  chunk_ok ab_open = true
  /\ exists bl',
       read_loop initial_buffer_lists [] [encode_chunk ab_open] = Done (bl', [], [])
       /\ written (records_of 7 []) <> payloads [ab_open]
       /\ pending bl' 7 = payloads [ab_open].
Proof.
  split; [reflexivity|]. eexists. split; [vm_compute; reflexivity|]. split.
  - vm_compute. discriminate.
  - reflexivity.
Qed.

(** The two-producer interleave of the specification. *)
Lemma producers_never_mixed_witness :
  7 <> 9
  /\ Forall (fun c => chunk_ok c = true) [ab_open; x_whole; c_close]
  /\ Forall (fun c => c_pid c = 7 \/ c_pid c = 9) [ab_open; x_whole; c_close]
  /\ concat [take 12 (stream [ab_open; x_whole; c_close]); drop 12 (stream [ab_open; x_whole; c_close])] = stream [ab_open; x_whole; c_close]
  /\ (exists bl' out,
        read_loop initial_buffer_lists [] [take 12 (stream [ab_open; x_whole; c_close]); drop 12 (stream [ab_open; x_whole; c_close])]
          = Done (bl', out, [])
        /\ Forall (fun w => exists q seg,
                     (q = 7 \/ q = 9) /\ w_origin w = Some q
                     /\ segment seg (chunks_of q [ab_open; x_whole; c_close])
                     /\ w_bytes w = payloads seg) out
        /\ one_slot_per_pid bl')
  /\ (forall bl, reachable bl -> one_slot_per_pid bl).
Proof.
  assert (H0 : 7 <> 9) by lia.
  assert (H1 : Forall (fun c => chunk_ok c = true) [ab_open; x_whole; c_close])
    by (repeat constructor).
  assert (H2 : Forall (fun c => c_pid c = 7 \/ c_pid c = 9) [ab_open; x_whole; c_close]).
  { repeat constructor; simpl; lia. }
  assert (H3 : concat [take 12 (stream [ab_open; x_whole; c_close]); drop 12 (stream [ab_open; x_whole; c_close])]
               = stream [ab_open; x_whole; c_close]) by reflexivity.
  split; [exact H0|]. split; [exact H1|]. split; [exact H2|]. split; [exact H3|].
  exact (producers_never_mixed 7 9 [ab_open; x_whole; c_close]
           [take 12 (stream [ab_open; x_whole; c_close]); drop 12 (stream [ab_open; x_whole; c_close])] H0 H1 H2 H3).
Defined.

(** The records of the interleave: "X" first, then "abc". *)
Example interleave_records :
  exists bl',
    read_loop initial_buffer_lists [] [take 12 (stream [ab_open; x_whole; c_close]); drop 12 (stream [ab_open; x_whole; c_close])] =
      Done (bl',
            [ {| w_origin := Some 9; w_bytes := [x58]; w_dest := 1 |};
              {| w_origin := Some 7; w_bytes := [x61; x62; x63]; w_dest := 1 |} ],
            []).
Proof. eexists. vm_compute. reflexivity. Qed.

End ProducerScenarios.

(** ** The rotation engine *)

Section RotationProps.
Context `{SysloggerHeaders} `{TimeLibrary}.

Lemma close_old_quiet (f : option FILE) : existsb is_truncating (close_old f) = false.
Proof. by destruct f. Qed.

Lemma overwrite_on_rotation_true cfg tb filename last :
  overwrite_on_rotation cfg tb filename last = true <->
  Log_truncate_on_rotation cfg = true /\ tb = true
  /\ exists l, last = Some l /\ l <> filename.
Proof.
  unfold overwrite_on_rotation. rewrite !andb_true_iff. split.
  - intros [[Ht Hb] Hl]. split; [done|]. split; [done|].
    destruct last as [l|]; [|done]. exists l. split; [done|].
    apply negb_true_iff, String.eqb_neq in Hl. congruence.
  - intros (Ht & Hb & l & -> & Hne). split; [done|].
    apply negb_true_iff, String.eqb_neq. congruence.
Qed.

(** C5, as the code has it.  When a destination is rotated, a truncating
    call is made exactly when [Log_truncate_on_rotation] is set, the
    rotation is time based, and the new file name differs from the
    recorded previous one: then the advisory goes to the previous file
    and the new name is opened for writing.  When the new name is the
    previous name, as with a pattern without conversion specifications,
    the file is opened for appending and no advisory is issued. *)
Theorem overwrite_needs_new_name (cfg : config) (index : Z)
    (fopen : string -> open_mode -> option errno) (time_based_rotation : bool)
    (size_rotation_for fntime target_dest : Z) (slot : file_slot) (disabled : bool) :
  dest_rotates cfg time_based_rotation size_rotation_for target_dest = true ->
  let filename := logfile_getname cfg index fntime (logFileExt_of target_dest) in
  let overwrite :=
    overwrite_on_rotation cfg time_based_rotation filename (last_file_name slot) in
  let out :=
    snd (logfile_rotate_dest cfg index fopen time_based_rotation size_rotation_for
           fntime target_dest slot disabled) in
  existsb is_truncating out = overwrite
  /\ (overwrite = true <->
      Log_truncate_on_rotation cfg = true /\ time_based_rotation = true
      /\ exists l, last_file_name slot = Some l /\ l <> filename)
  /\ (overwrite = true ->
      exists l tail,
        last_file_name slot = Some l
        /\ out = IoDropCache l :: IoOpen filename mode_w (fopen filename mode_w) :: tail)
  /\ (last_file_name slot = Some filename ->
      existsb is_truncating out = false
      /\ exists tail, out = IoOpen filename mode_a (fopen filename mode_a) :: tail).
Proof.
  intros Hrot filename overwrite out.
  assert (Hout : out =
    (if overwrite then
       match last_file_name slot with Some l => [IoDropCache l] | None => [] end
     else [])
    ++ IoOpen filename (if overwrite then mode_w else mode_a)
         (fopen filename (if overwrite then mode_w else mode_a))
    :: match fopen filename (if overwrite then mode_w else mode_a) with
       | Some e =>
           IoLog "could not open log file"
           :: (if transient_errno e then []
               else [IoLog "disabling automatic rotation (use SIGHUP to re-enable)"])
       | None => close_old (logFile slot)
       end).
  { unfold out, logfile_rotate_dest. unfold dest_rotates in Hrot.
    apply andb_true_iff in Hrot as [Hen Hdue].
    apply negb_true_iff in Hen, Hdue. rewrite Hen, Hdue.
    fold filename. fold overwrite.
    destruct (fopen filename (if overwrite then mode_w else mode_a)) as [e|] eqn:Hopen.
    - destruct (transient_errno e); simpl; by rewrite <- ?app_assoc.
    - done. }
  assert (Hover := overwrite_on_rotation_true cfg time_based_rotation filename
                     (last_file_name slot)).
  fold overwrite in Hover.
  split; [|split; [done|split]].
  - rewrite Hout. destruct overwrite eqn:Ho.
    + destruct (proj1 Hover eq_refl) as (_ & _ & l & -> & _). done.
    + simpl. destruct (fopen filename mode_a) as [e|].
      * simpl. by destruct (transient_errno e).
      * apply close_old_quiet.
  - intros Ho. rewrite Hout, Ho. apply Hover in Ho as (_ & _ & l & Hl & _).
    rewrite Hl. by eexists _, _.
  - intros Hsame. assert (Ho : overwrite = false).
    { apply not_true_is_false. intros (_ & _ & l & Hl & Hne)%Hover. congruence. }
    rewrite Hout, Ho. simpl. split; [|by eexists].
    destruct (fopen filename mode_a) as [e|].
    + simpl. by destruct (transient_errno e).
    + apply close_old_quiet.
Qed.

(** A file name does not depend on the time when the formatter does
    not. *)
Lemma logfile_getname_constant (cfg : config) (index t1 t2 : Z) (suffix : option string) :
  (forall maxsize, pg_strftime maxsize (Log_filename cfg) t1
                   = pg_strftime maxsize (Log_filename cfg) t2) ->
  logfile_getname cfg index t1 suffix = logfile_getname cfg index t2 suffix.
Proof. intros Hf. unfold logfile_getname. by rewrite Hf. Qed.

(** *** The next rotation time *)

(** Up to [INT_MAX / 60] minutes the interval in seconds fits an [int]. *)
Lemma rotinterval_of_fits (age : Z) :
  0 <= age <= INT_MAX / 60 -> rotinterval_of age = age * 60.
Proof.
  unfold rotinterval_of, to_int32, INT_MAX. intros Hage.
  assert (Hq : 2147483647 / 60 = 35791394) by reflexivity. rewrite Hq in Hage.
  rewrite Z.mod_small by lia.
  destruct (Z.ltb_spec (age * 60) (2 ^ 31)) as [|Hge]; [done|lia].
Qed.

Lemma set_next_rotation_time_spec (cfg : config) (now old : Z) :
  0 < Log_RotationAge cfg <= INT_MAX / 60 ->
  now < set_next_rotation_time cfg now old
  /\ exists k, set_next_rotation_time cfg now old + tm_gmtoff now
               = k * (Log_RotationAge cfg * 60).
Proof.
  intros Hage. unfold set_next_rotation_time.
  destruct (Z.leb_spec (Log_RotationAge cfg) 0) as [|_]; [lia|].
  rewrite rotinterval_of_fits by lia.
  set (i := Log_RotationAge cfg * 60). set (a := now + tm_gmtoff now).
  assert (Hi : 0 < i) by (unfold i; lia).
  pose proof (Z.rem_bound_abs a i ltac:(lia)) as Hb.
  pose proof (Z.quot_rem' a i) as Hq.
  split; [lia|]. exists (Z.quot a i + 1). lia.
Qed.

Lemma logfile_rotate_completed cfg index env rot fs tb size :
  fst (fst (fst (rotate_dests cfg index env (rotation_disabled rot) fs tb size
                   (rotation_fntime env rot tb)))) = true ->
  next_rotation_time (fst (fst (logfile_rotate cfg index env rot fs tb size)))
  = set_next_rotation_time cfg (e_time_next env) (next_rotation_time rot).
Proof.
  unfold logfile_rotate.
  destruct (rotate_dests _ _ _ _ _ _ _ _) as [[[ok d] fs'] out]. simpl.
  by intros ->.
Qed.

Lemma logfile_rotate_stopped cfg index env rot fs tb size :
  fst (fst (fst (rotate_dests cfg index env (rotation_disabled rot) fs tb size
                   (rotation_fntime env rot tb)))) = false ->
  next_rotation_time (fst (fst (logfile_rotate cfg index env rot fs tb size)))
  = next_rotation_time rot.
Proof.
  unfold logfile_rotate.
  destruct (rotate_dests _ _ _ _ _ _ _ _) as [[[ok d] fs'] out]. simpl.
  by intros ->.
Qed.

(** C6, as the code has it.  When time-based rotation is enabled with a
    [Log_RotationAge] whose interval in seconds fits the [int] that
    holds it (at most [INT_MAX / 60] minutes), no destination's open
    stopped the rotation, and the clock that [set_next_rotation_time]
    reads is not behind the time that named the files, the new
    [next_rotation_time] is later than that time and, moved by the zone
    offset, a multiple of the rotation interval. *)
Theorem next_rotation_time_after_rotation (cfg : config) (index : Z) (env : rotate_env)
    (rot : rotation_state) (fs : file_slots) (time_based_rotation : bool)
    (size_rotation_for : Z) :
  0 < Log_RotationAge cfg <= INT_MAX / 60 ->
  fst (fst (fst (rotate_dests cfg index env (rotation_disabled rot) fs
                   time_based_rotation size_rotation_for
                   (rotation_fntime env rot time_based_rotation)))) = true ->
  rotation_fntime env rot time_based_rotation <= e_time_next env ->
  let rot' :=
    fst (fst (logfile_rotate cfg index env rot fs time_based_rotation size_rotation_for)) in
  rotation_fntime env rot time_based_rotation < next_rotation_time rot'
  /\ exists k, next_rotation_time rot' + tm_gmtoff (e_time_next env)
               = k * (Log_RotationAge cfg * 60).
Proof.
  intros Hage Hdone Hclock rot'. unfold rot'.
  rewrite logfile_rotate_completed by done.
  destruct (set_next_rotation_time_spec cfg (e_time_next env) (next_rotation_time rot) Hage)
    as [Hlt Hk].
  split; [lia|done].
Qed.

(** *** Failures of the open *)

Lemma logfile_rotate_dest_failure cfg index fopen tb size fntime target slot disabled e :
  dest_rotates cfg tb size target = true ->
  (let filename := logfile_getname cfg index fntime (logFileExt_of target) in
   fopen filename
     (if overwrite_on_rotation cfg tb filename (last_file_name slot) then mode_w else mode_a)
   = Some e) ->
  fst (logfile_rotate_dest cfg index fopen tb size fntime target slot disabled)
  = (false, slot, if transient_errno e then disabled else true).
Proof.
  intros Hrot Hopen. unfold logfile_rotate_dest. unfold dest_rotates in Hrot.
  apply andb_true_iff in Hrot as [Hen Hdue].
  apply negb_true_iff in Hen, Hdue. rewrite Hen, Hdue. simpl in Hopen.
  rewrite Hopen. by destruct (transient_errno e).
Qed.

(** No rotation clears [rotation_disabled]. *)
Lemma logfile_rotate_dest_disabled cfg index fopen tb size fntime target slot :
  snd (fst (logfile_rotate_dest cfg index fopen tb size fntime target slot true)) = true.
Proof.
  unfold logfile_rotate_dest.
  repeat (case_match; simpl; try done).
Qed.

Lemma rotate_dests_disabled cfg index env fs tb size fntime :
  snd (fst (fst (rotate_dests cfg index env true fs tb size fntime))) = true.
Proof.
  unfold rotate_dests.
  repeat match goal with
  | |- context [logfile_rotate_dest ?c ?i ?f ?tb ?sz ?ft ?tg ?sl true] =>
      let Hd := fresh "Hd" in
      pose proof (logfile_rotate_dest_disabled c i f tb sz ft tg sl) as Hd;
      destruct (logfile_rotate_dest c i f tb sz ft tg sl true) as [[[? ?] ?] ?];
      simpl in Hd; subst
  end.
  repeat (case_match; simpl; try done).
Qed.

Lemma logfile_rotate_disabled cfg index env rot fs tb size :
  rotation_disabled rot = true ->
  rotation_disabled (fst (fst (logfile_rotate cfg index env rot fs tb size))) = true.
Proof.
  intros Hd. unfold logfile_rotate. rewrite Hd.
  pose proof (rotate_dests_disabled cfg index env fs tb size (rotation_fntime env rot tb)) as Hr.
  destruct (rotate_dests _ _ _ _ _ _ _ _) as [[[ok d] fs'] out]. simpl in Hr. subst d.
  by destruct ok.
Qed.

Lemma handle_reload_none t st : t_reload t = None -> handle_reload t st = (st, []).
Proof. intros Hr. unfold handle_reload. by rewrite Hr. Qed.

Lemma handle_reload_enables t st new :
  t_reload t = Some new ->
  rotation_disabled (rot (fst (handle_reload t st))) = false
  /\ (rotation_disabled (rot st) = true ->
      rotation_requested (rot (fst (handle_reload t st))) = true).
Proof.
  intros Hr. unfold handle_reload. rewrite Hr.
  destruct (rotation_disabled (rot st)); simpl; done.
Qed.

Lemma service_rotation_disabled t st st' out :
  t_reload t = None -> rotation_disabled (rot st) = true ->
  service_rotation t st = (Some st', out) ->
  rotation_disabled (rot st') = true.
Proof.
  intros Hr Hd. unfold service_rotation. rewrite handle_reload_none by done.
  destruct (check_triggers _ _) as [[[now' requested] tb] size]. simpl.
  destruct requested.
  - destruct (polar_remove_old_syslog_files _ _) as [out_sweep|]; [|done].
    match goal with |- context [logfile_rotate ?c ?i ?e ?r ?f ?b ?s] =>
      pose proof (logfile_rotate_disabled c i e r f b s Hd) as Hl;
      destruct (logfile_rotate c i e r f b s) as [[r3 fs3] out_rot] end.
    simpl in Hl. by intros [= <- <-].
  - by intros [= <- <-].
Qed.

Lemma service_input_rot t st s out :
  service_input t st = (s, out) ->
  match s with
  | Continue st' | Exit0 st' | Raised st' => rot st' = rot st
  | Undefined => True
  end.
Proof.
  unfold service_input. destruct (cur_timeout _ _ _) as [timeout armed].
  destruct (t_wait t) as [| |[e|data]].
  - destruct (pipe_eof_seen st); by intros [= <- <-].
  - destruct (pipe_eof_seen st); by intros [= <- <-].
  - destruct (pipe_eof_seen st); by intros [= <- <-].
  - destruct (0 <? Z.of_nat (length data)).
    + destruct (process_pipe_input _ _) as [[[bl out1] rest]| |]; by intros [= <- <-].
    + destruct (flush_pipe_input _ _ _ _) as [[bl rest] out1]. by intros [= <- <-].
Qed.

(** C7, as the code has it.  An open that fails stops the rotation and
    keeps the destination's file and name; the failure sets
    [rotation_disabled] unless the error is ENFILE or EMFILE, in which
    case the flag stays as it was.  A configuration reload clears the
    flag and requests a rotation.  Without a reload the flag stays set
    through a pass of the main loop, an explicit rotation request
    included. *)
Theorem open_failure_and_reenabling (cfg : config) (index : Z)
    (fopen : string -> open_mode -> option errno) (time_based_rotation : bool)
    (size_rotation_for fntime target_dest : Z) (slot : file_slot) (disabled : bool)
    (e : errno) :
  dest_rotates cfg time_based_rotation size_rotation_for target_dest = true ->
  (let filename := logfile_getname cfg index fntime (logFileExt_of target_dest) in
   fopen filename
     (if overwrite_on_rotation cfg time_based_rotation filename (last_file_name slot)
      then mode_w else mode_a) = Some e) ->
  fst (logfile_rotate_dest cfg index fopen time_based_rotation size_rotation_for
         fntime target_dest slot disabled)
  = (false, slot, if transient_errno e then disabled else true)
  /\ (forall env rot fs,
        fst (fst (fst (rotate_dests cfg index env (rotation_disabled rot) fs
                         time_based_rotation size_rotation_for
                         (rotation_fntime env rot time_based_rotation)))) = false ->
        next_rotation_time
          (fst (fst (logfile_rotate cfg index env rot fs time_based_rotation
                       size_rotation_for)))
        = next_rotation_time rot)
  /\ (forall t st new, t_reload t = Some new ->
        rotation_disabled (rot (fst (handle_reload t st))) = false
        /\ (rotation_disabled (rot st) = true ->
            rotation_requested (rot (fst (handle_reload t st))) = true))
  /\ (forall t st st' out,
        t_reload t = None -> rotation_disabled (rot st) = true ->
        (loop_pass t st = (Continue st', out) \/ loop_pass t st = (Exit0 st', out)) ->
        rotation_disabled (rot st') = true).
Proof.
  intros Hrot Hopen. split; [by apply logfile_rotate_dest_failure|]. split; [|split].
  - intros env rot fs. apply logfile_rotate_stopped.
  - intros t st new. apply handle_reload_enables.
  - intros t st st' out Hr Hd Hpass. unfold loop_pass in Hpass.
    destruct (service_rotation t st) as [[st1|] out1] eqn:Hs.
    + apply service_rotation_disabled in Hs; [|done..].
      destruct (service_input t st1) as [s out2] eqn:Hi.
      apply service_input_rot in Hi.
      destruct Hpass as [Hp|Hp]; injection Hp as -> _; by rewrite Hi.
    + destruct Hpass as [?|?]; done.
Qed.

End RotationProps.

(** Scenarios of the rotation engine with the sample constants. *)
Section RotationScenarios.
Local Existing Instance sample_headers.
Local Existing Instance sample_time.

Lemma overwrite_needs_new_name_witness :
  dest_rotates plain_config true 0 1 = true
  /\ existsb is_truncating
       (snd (logfile_rotate_dest plain_config 0 (fun _ _ => None) true 0 1020 1
               plain_slot false))
     = overwrite_on_rotation plain_config true
         (logfile_getname plain_config 0 1020 (logFileExt_of 1))
         (last_file_name plain_slot).
Proof.
  split; [reflexivity|].
  exact (proj1 (overwrite_needs_new_name plain_config 0 (fun _ _ => None) true 0 1020 1
                  plain_slot false eq_refl)).
Defined.

(** C5 counterexample.  The truncation scenario of the specification:
    one minute between rotations, truncation on rotation, the pattern
    "pg.log".  The collector starts at time 1000 and plans the rotation
    for 1020; the pass at 1020 makes a time-based rotation, which opens
    the same file for appending and makes no truncating call. *)
Lemma constant_name_is_appended :
  exists st out0 st' out,
    SysLoggerMain_start plain_config 0 1000 1000 (Some plain_file) None None None
      None 1000 meta_ok = Some (st, out0)
    /\ next_rotation_time (rot st) = 1020
    /\ loop_pass (quiet_tick 1020) st = (Continue st', out)
    /\ filter (fun e => is_open e = true) out = [IoOpen "log/pg_error.log" mode_a None]
    /\ existsb is_truncating out = false.
Proof.
  eexists _, _, _, _. split; [vm_compute; reflexivity|].
  split; [reflexivity|]. split; [vm_compute; reflexivity|].
  split; vm_compute; reflexivity.
Qed.

Lemma next_rotation_time_after_rotation_witness :
  0 < Log_RotationAge plain_config <= INT_MAX / 60
  /\ fst (fst (fst (rotate_dests plain_config 0 (quiet_rotate_env 1020)
                      (rotation_disabled due_at_1020)
                      {| slot_sys := plain_slot;
                         slot_csv := {| logFile := None; last_file_name := None |};
                         slot_json := {| logFile := None; last_file_name := None |};
                         slot_audit := {| logFile := None; last_file_name := None |};
                         slot_slow := {| logFile := None; last_file_name := None |} |}
                      true 0 (rotation_fntime (quiet_rotate_env 1020) due_at_1020 true))))
     = true
  /\ rotation_fntime (quiet_rotate_env 1020) due_at_1020 true
     <= e_time_next (quiet_rotate_env 1020)
  /\ rotation_fntime (quiet_rotate_env 1020) due_at_1020 true
     < next_rotation_time
         (fst (fst (logfile_rotate plain_config 0 (quiet_rotate_env 1020) due_at_1020
                      {| slot_sys := plain_slot;
                         slot_csv := {| logFile := None; last_file_name := None |};
                         slot_json := {| logFile := None; last_file_name := None |};
                         slot_audit := {| logFile := None; last_file_name := None |};
                         slot_slow := {| logFile := None; last_file_name := None |} |}
                      true 0))).
Proof.
  assert (H1 : 0 < Log_RotationAge plain_config <= INT_MAX / 60) by (vm_compute; split; congruence).
  assert (H3 : rotation_fntime (quiet_rotate_env 1020) due_at_1020 true
               <= e_time_next (quiet_rotate_env 1020)) by (simpl; lia).
  split; [exact H1|]. split; [reflexivity|]. split; [exact H3|].
  exact (proj1 (next_rotation_time_after_rotation plain_config 0 (quiet_rotate_env 1020)
                  due_at_1020 _ true 0 H1 eq_refl H3)).
Defined.

(** C6 counterexample.  A time-based rotation planned for 1020 with the
    stderr and csv destinations on: the stderr file of 1020 is opened,
    the csv open fails with ENFILE, [logfile_rotate] returns, and
    [next_rotation_time] is still 1020, the time that named the stderr
    file. *)
Lemma stopped_rotation_keeps_next_time :
  exists rot' fs' out,
    logfile_rotate dated_config 0 csv_fails due_at_1020 dated_slots true 0 = (rot', fs', out)
    /\ rotation_fntime csv_fails due_at_1020 true = 1020
    /\ filter (fun e => is_open e = true) out
       = [IoOpen "log/pg-1020_error.log" mode_a None;
          IoOpen "log/pg-1020.csv" mode_a (Some ENFILE)]
    /\ last_file_name (slot_sys fs') = Some "log/pg-1020_error.log"%string
    /\ next_rotation_time rot' = 1020
    /\ ~ rotation_fntime csv_fails due_at_1020 true < next_rotation_time rot'.
Proof.
  eexists _, _, _. split; [vm_compute; reflexivity|].
  split; [reflexivity|]. split; [vm_compute; reflexivity|].
  split; [reflexivity|]. split; [reflexivity|]. simpl. lia.
Qed.

Lemma open_failure_and_reenabling_witness :
  dest_rotates plain_config true 0 1 = true
  /\ (fun _ _ => Some (EOTHER 13))
       (logfile_getname plain_config 0 1020 (logFileExt_of 1))
       (if overwrite_on_rotation plain_config true
             (logfile_getname plain_config 0 1020 (logFileExt_of 1))
             (last_file_name plain_slot)
        then mode_w else mode_a) = Some (EOTHER 13)
  /\ fst (logfile_rotate_dest plain_config 0 (fun _ _ => Some (EOTHER 13)) true 0 1020 1
            plain_slot false)
     = (false, plain_slot, if transient_errno (EOTHER 13) then false else true).
Proof.
  split; [reflexivity|]. split; [reflexivity|].
  exact (proj1 (open_failure_and_reenabling plain_config 0 (fun _ _ => Some (EOTHER 13))
                  true 0 1020 1 plain_slot false (EOTHER 13) eq_refl eq_refl)).
Defined.

(** C7 counterexample.  The pass at 1020 fails to open the new file with
    a permission error and sets [rotation_disabled]; at 1030 a SIGUSR1
    asks for a rotation, the file is opened, and [rotation_disabled] is
    still set. *)
Lemma explicit_request_leaves_rotation_disabled :
  exists st out0 st1 out1 st2 out2,
    SysLoggerMain_start plain_config 0 1000 1000 (Some plain_file) None None None
      None 1000 meta_ok = Some (st, out0)
    /\ loop_pass (failing_tick 1020) st = (Continue st1, out1)
    /\ rotation_disabled (rot st1) = true
    /\ loop_pass (sigusr1_tick 1030) st1 = (Continue st2, out2)
    /\ filter (fun e => is_open e = true) out2 = [IoOpen "log/pg_error.log" mode_a None]
    /\ rotation_disabled (rot st2) = true.
Proof.
  eexists _, _, _, _, _, _. split; [vm_compute; reflexivity|].
  split; [vm_compute; reflexivity|]. split; [reflexivity|].
  split; [vm_compute; reflexivity|]. split; [vm_compute; reflexivity|]. reflexivity.
Qed.

End RotationScenarios.

(** ** The meta-info file *)

Section MetaInfo.
Context `{SysloggerHeaders}.

Lemma metainfo_write_sources cfg menv entries written line :
  line ∈ metainfo_written (metainfo_write cfg menv entries written) ->
  line ∈ written
  \/ exists name destination kind,
       (Some name, destination, kind) ∈ entries
       /\ dest_enabled cfg destination = true /\ line = metainfo_line kind name.
Proof.
  revert written. induction entries as [|[[name destination] kind] entries IH];
    intros written; simpl; [by left|].
  destruct name as [n|]; [destruct (dest_enabled cfg destination) eqn:Hen|].
  - destruct (fprintf_ok menv (metainfo_line kind n)); simpl.
    + intros [[Hin|Hin%list_elem_of_singleton]%elem_of_app
             |(n' & d' & k' & Hin & He & Hl)]%IH.
      * by left.
      * right. exists n, destination, kind. split; [left|done].
      * right. exists n', d', k'. split; [by right|done].
    + by left.
  - intros [Hin|(n' & d' & k' & Hin & He & Hl)]%IH; [by left|].
    right. exists n', d', k'. split; [by right|done].
  - intros [Hin|(n' & d' & k' & Hin & He & Hl)]%IH; [by left|].
    right. exists n', d', k'. split; [by right|done].
Qed.

Lemma metainfo_write_all cfg menv entries written :
  (forall l, fprintf_ok menv l = true) ->
  metainfo_write cfg menv entries written
  = MetaWritten (written ++ omap (entry_line cfg) entries) (rename_ok menv).
Proof.
  intros Hf. revert written.
  induction entries as [|[[name destination] kind] entries IH]; intros written; simpl.
  - by rewrite app_nil_r.
  - destruct name as [n|]; [destruct (dest_enabled cfg destination)|]; simpl.
    + rewrite Hf, IH. by rewrite <- app_assoc.
    + apply IH.
    + destruct (dest_enabled cfg destination); apply IH.
Qed.

(** C10.  Every line of the meta-info file comes from a destination
    whose bit is set in [Log_destination] and whose last file name is
    recorded.  When the file system plays along the lines are exactly
    those, in the order stderr, csvlog, jsonlog, auditlog, slowlog, and
    nothing is reported.  A destination without a recorded name has no
    line, enabled or not. *)
Theorem metainfo_only_named_enabled (cfg : config) (fs : file_slots) (menv : meta_env) :
  (forall line,
     line ∈ metainfo_written (update_metainfo_datafile cfg fs menv) ->
     exists name destination kind,
       (Some name, destination, kind) ∈ metainfo_entries fs
       /\ dest_enabled cfg destination = true /\ line = metainfo_line kind name)
  /\ (tmp_open_ok menv = true -> rename_ok menv = true ->
      (forall l, fprintf_ok menv l = true) ->
      metainfo_written (update_metainfo_datafile cfg fs menv)
      = omap (entry_line cfg) (metainfo_entries fs)
      /\ metainfo_logs (update_metainfo_datafile cfg fs menv) = [])
  /\ (forall destination kind line,
        (None, destination, kind) ∈ metainfo_entries fs ->
        line ∈ metainfo_written (update_metainfo_datafile cfg fs menv) ->
        String.prefix (String.append kind " ") line = false).
Proof.
  assert (Hsrc : forall line,
     line ∈ metainfo_written (update_metainfo_datafile cfg fs menv) ->
     exists name destination kind,
       (Some name, destination, kind) ∈ metainfo_entries fs
       /\ dest_enabled cfg destination = true /\ line = metainfo_line kind name).
  { intros line Hin. unfold update_metainfo_datafile in Hin.
    destruct (_ && _); [by apply elem_of_nil in Hin|].
    destruct (negb (tmp_open_ok menv)); [by apply elem_of_nil in Hin|].
    apply metainfo_write_sources in Hin as [Hin|?]; [by apply elem_of_nil in Hin|done]. }
  split; [done|]. split.
  - intros Hopen Hren Hf. unfold update_metainfo_datafile.
    destruct (_ && _) eqn:Hnone.
    + rewrite !andb_true_iff, !negb_true_iff in Hnone.
      destruct Hnone as [[[[H1 H2] H3] H4] H5].
      simpl. by rewrite H1, H2, H3, H4, H5.
    + rewrite Hopen. change (negb true) with false. cbv iota.
      rewrite metainfo_write_all by done. simpl. by rewrite Hren.
  - intros destination kind line Hnone Hin.
    destruct (Hsrc line Hin) as (n' & d' & k' & Hin' & _ & ->).
    unfold metainfo_entries in Hnone, Hin'.
    repeat (apply elem_of_cons in Hnone as [Hnone|Hnone]);
      [..|by apply elem_of_nil in Hnone];
      repeat (apply elem_of_cons in Hin' as [Hin'|Hin']);
      try (by apply elem_of_nil in Hin');
      injection Hnone as Hn1 -> ->; injection Hin' as Hn2 -> ->;
      try congruence; reflexivity.
Qed.

End MetaInfo.

Section MetaInfoScenarios.
Local Existing Instance sample_headers.

(** The csv destination is switched on, its file is not open yet: only
    the stderr line is written, and nothing is reported. *)
Example csv_enabled_not_open :
  update_metainfo_datafile dated_config
    {| slot_sys := plain_slot;
       slot_csv := {| logFile := None; last_file_name := None |};
       slot_json := {| logFile := None; last_file_name := None |};
       slot_audit := {| logFile := None; last_file_name := None |};
       slot_slow := {| logFile := None; last_file_name := None |} |} meta_ok
  = MetaWritten [metainfo_line "stderr" "log/pg_error.log"] true.
Proof. reflexivity. Qed.

End MetaInfoScenarios.

(** ** The retention sweep *)

Section StringOrder.

Lemma ltb_irrefl (s : string) : String.ltb s s = false.
Proof.
  unfold String.ltb.
  assert (String.compare s s = Eq) as -> by (by apply OrderedTypeEx.String_as_OT.cmp_eq).
  done.
Qed.

Lemma ltb_trans (s1 s2 s3 : string) :
  String.ltb s1 s2 = true -> String.ltb s2 s3 = true -> String.ltb s1 s3 = true.
Proof.
  unfold String.ltb. intros H1 H2.
  destruct (String.compare s1 s2) eqn:H12; try done.
  destruct (String.compare s2 s3) eqn:H23; try done.
  apply OrderedTypeEx.String_as_OT.cmp_lt in H12, H23.
  pose proof (OrderedTypeEx.String_as_OT.lt_trans _ _ _ H12 H23) as H13.
  apply OrderedTypeEx.String_as_OT.cmp_lt in H13.
  unfold OrderedTypeEx.String_as_OT.cmp in H13. by rewrite H13.
Qed.

End StringOrder.

Section Sweep.
Context `{SysloggerHeaders}.

Lemma sweep_entry_family (cfg : config) (acc : sweep_acc) (d : string) (fam : family) :
  family_count fam (sweep_entry cfg acc d)
  = family_count fam acc + (if in_family cfg fam d then 1 else 0)
  /\ family_oldest fam (sweep_entry cfg acc d)
     = (if in_family cfg fam d
        then if older d (family_oldest fam acc) then d else family_oldest fam acc
        else family_oldest fam acc).
Proof.
  unfold sweep_entry, in_family.
  destruct (String.eqb d "." || String.eqb d ".."); simpl; [split; [lia|done]|].
  destruct (String.prefix (log_prefix cfg) d); simpl; [|split; [lia|done]].
  destruct (strstr d AUDITLOG_SUFFIX); simpl.
  { destruct fam; simpl; split; (lia || done). }
  destruct (strstr d SLOWLOG_SUFFIX); simpl;
    destruct fam; simpl; split; (lia || done).
Qed.

Lemma family_files_snoc (cfg : config) (fam : family) (entries : list string) (d : string) :
  family_files cfg fam (entries ++ [d])
  = family_files cfg fam entries ++ (if in_family cfg fam d then [d] else []).
Proof.
  unfold family_files. rewrite filter_app. f_equal.
  destruct (in_family cfg fam d) eqn:Hd.
  - by rewrite filter_cons_True.
  - rewrite filter_cons_False; [done|]. by rewrite Hd.
Qed.

(** What the scan knows about a family when the directory has been
    read: how many files it has, and the least of their names. *)
Lemma sweep_scan_family (cfg : config) (entries : list string) (fam : family) :
  EmptyString ∉ entries ->
  family_count fam (sweep_scan cfg entries)
  = Z.of_nat (length (family_files cfg fam entries))
  /\ (family_files cfg fam entries = [] ->
      family_oldest fam (sweep_scan cfg entries) = EmptyString)
  /\ (family_files cfg fam entries <> [] ->
      family_oldest fam (sweep_scan cfg entries) ∈ family_files cfg fam entries
      /\ forall x, x ∈ family_files cfg fam entries ->
           String.ltb x (family_oldest fam (sweep_scan cfg entries)) = false).
Proof.
  induction entries as [|d entries IH] using rev_ind; intros Hne.
  - split; [by destruct fam|]. split; [by destruct fam|done].
  - assert (Hne' : EmptyString ∉ entries).
    { intros Hin. apply Hne, elem_of_app. by left. }
    assert (Hd : d <> EmptyString).
    { intros ->. apply Hne, elem_of_app. right. by left. }
    destruct (IH Hne') as (Hcount & Hempty & Hmin).
    unfold sweep_scan in *. rewrite foldl_snoc.
    destruct (sweep_entry_family cfg (foldl (sweep_entry cfg) sweep_init entries) d fam)
      as [-> ->].
    rewrite family_files_snoc.
    set (F := family_files cfg fam entries) in *.
    set (o := family_oldest fam (foldl (sweep_entry cfg) sweep_init entries)) in *.
    destruct (in_family cfg fam d) eqn:Hfam.
    + split; [rewrite length_app; simpl; lia|]. split.
      { intros Hnil. by apply app_eq_nil in Hnil as [_ ?]. }
      intros _. unfold older.
      destruct (decide (F = [])) as [HF|HF].
      * rewrite (Hempty HF), HF. simpl. split; [by left|].
        intros x ->%list_elem_of_singleton. apply ltb_irrefl.
      * destruct (Hmin HF) as [Ho Hle].
        assert (Hoe : String.eqb o EmptyString = false).
        { apply String.eqb_neq. intros Heq. apply Hne'.
          rewrite <- Heq. unfold F, family_files in Ho.
          by apply list_elem_of_filter in Ho as [_ ?]. }
        rewrite Hoe. simpl. destruct (String.ltb d o) eqn:Hdo.
        -- split; [apply elem_of_app; right; by left|].
           intros x [Hx| ->%list_elem_of_singleton]%elem_of_app; [|apply ltb_irrefl].
           apply not_true_is_false. intros Hxd.
           pose proof (ltb_trans _ _ _ Hxd Hdo) as Hxo. by rewrite (Hle x Hx) in Hxo.
        -- split; [apply elem_of_app; by left|].
           intros x [Hx| ->%list_elem_of_singleton]%elem_of_app; [by apply Hle|done].
    + rewrite app_nil_r. by rewrite Z.add_0_r.
Qed.

(** The victims, family by family. *)
Lemma sweep_victims_families (cfg : config) (entries : list string) :
  EmptyString ∉ entries ->
  sweep_victims cfg entries
  = (if family_due cfg FamAudit entries
     then [family_oldest FamAudit (sweep_scan cfg entries)] else [])
    ++ (if family_due cfg FamSlow entries
        then [family_oldest FamSlow (sweep_scan cfg entries)] else [])
    ++ (if family_due cfg FamLog entries
        then [family_oldest FamLog (sweep_scan cfg entries)] else []).
Proof.
  intros Hne. unfold sweep_victims, family_due.
  destruct (sweep_scan_family cfg entries FamAudit Hne) as (Ha & _).
  destruct (sweep_scan_family cfg entries FamSlow Hne) as (Hs & _).
  destruct (sweep_scan_family cfg entries FamLog Hne) as (Hl & _).
  simpl in Ha, Hs, Hl. rewrite <- Ha, <- Hs, <- Hl. simpl.
  set (acc := sweep_scan cfg entries).
  destruct (Z.ltb_spec (polar_max_log_files cfg) 0),
           (Z.ltb_spec (polar_max_auditlog_files cfg) 0),
           (Z.ltb_spec (polar_max_slowlog_files cfg) 0),
           (Z.leb_spec (num_auditlog_files acc) (polar_max_auditlog_files cfg)),
           (Z.leb_spec (num_log_files acc) (polar_max_log_files cfg)),
           (Z.leb_spec (num_slowlog_files acc) (polar_max_slowlog_files cfg)),
           (Z.ltb_spec 0 (polar_max_auditlog_files cfg)),
           (Z.ltb_spec 0 (polar_max_slowlog_files cfg)),
           (Z.ltb_spec 0 (polar_max_log_files cfg)),
           (Z.ltb_spec (polar_max_auditlog_files cfg) (num_auditlog_files acc)),
           (Z.ltb_spec (polar_max_slowlog_files cfg) (num_slowlog_files acc)),
           (Z.ltb_spec (polar_max_log_files cfg) (num_log_files acc));
    simpl; try done; lia.
Qed.

Lemma in_family_unique (cfg : config) (f1 f2 : family) (d : string) :
  in_family cfg f1 d = true -> in_family cfg f2 d = true -> f1 = f2.
Proof.
  unfold in_family.
  destruct (negb _ && _); simpl; [|done].
  destruct (strstr d AUDITLOG_SUFFIX), (strstr d SLOWLOG_SUFFIX), f1, f2; simpl; done.
Qed.

Lemma filter_all {A} (P : A -> Prop) `{!forall x, Decision (P x)} (l : list A) :
  (forall x, x ∈ l -> P x) -> filter P l = l.
Proof.
  induction l as [|a l IH]; intros Hall; [done|].
  rewrite filter_cons_True by (apply Hall; by left).
  f_equal. apply IH. intros x Hx. apply Hall. by right.
Qed.

Lemma filter_agree {A} (P Q : A -> Prop) `{!forall x, Decision (P x)}
    `{!forall x, Decision (Q x)} (l : list A) :
  (forall x, x ∈ l -> P x <-> Q x) -> filter P l = filter Q l.
Proof.
  induction l as [|a l IH]; intros Hall; [done|].
  assert (Hl : filter P l = filter Q l).
  { apply IH. intros x Hx. apply Hall. by right. }
  destruct (decide (P a)) as [Hp|Hp].
  - rewrite !filter_cons_True; [by rewrite Hl|by apply (Hall a); [left|]|done].
  - rewrite !filter_cons_False; [done| |done].
    intros Hq. apply Hp. apply (Hall a); [by left|done].
Qed.

Lemma length_filter_remove (l : list string) (v : string) :
  NoDup l -> v ∈ l -> S (length (filter (fun x => x <> v) l)) = length l.
Proof.
  induction 1 as [|a l Ha Hnd IH]; intros Hv; [by apply elem_of_nil in Hv|].
  apply elem_of_cons in Hv as [->|Hv].
  - rewrite filter_cons_False by (intros Hn; by apply Hn).
    rewrite filter_all; [done|]. intros x Hx ->. done.
  - rewrite filter_cons_True by (intros ->; done). simpl. by rewrite IH.
Qed.

(** C4, as the code has it.  A sweep takes at most one file from a
    family: when the family's maximum is positive and the family has
    more files than that, the file with the least name goes and the
    others stay; otherwise the family keeps all its files. *)
Theorem sweep_takes_one_per_family (cfg : config) (entries : list string) (fam : family) :
  EmptyString ∉ entries -> NoDup entries ->
  if family_due cfg fam entries then
    exists v,
      v ∈ family_files cfg fam entries
      /\ (forall x, x ∈ family_files cfg fam entries -> String.ltb x v = false)
      /\ v ∈ sweep_victims cfg entries
      /\ family_files cfg fam (after_sweep cfg entries)
         = filter (fun x => x <> v) (family_files cfg fam entries)
      /\ S (length (family_files cfg fam (after_sweep cfg entries)))
         = length (family_files cfg fam entries)
  else family_files cfg fam (after_sweep cfg entries) = family_files cfg fam entries.
Proof.
  intros Hne Hnd.
  assert (Hvict : forall f v, v ∈ sweep_victims cfg entries ->
            in_family cfg f v = true ->
            family_due cfg f entries = true
            /\ v = family_oldest f (sweep_scan cfg entries)).
  { intros f v Hv Hf. rewrite sweep_victims_families in Hv by done.
    assert (Hmem : forall f', family_due cfg f' entries = true ->
              in_family cfg f' (family_oldest f' (sweep_scan cfg entries)) = true).
    { intros f' Hdue. destruct (sweep_scan_family cfg entries f' Hne) as (_ & _ & Hmin).
      destruct Hmin as [Hin _].
      - intros Hnil. unfold family_due in Hdue. rewrite Hnil in Hdue. simpl in Hdue.
        apply andb_true_iff in Hdue as [?%Z.ltb_lt ?%Z.ltb_lt]. lia.
      - unfold family_files in Hin. by apply list_elem_of_filter in Hin as [? _]. }
    repeat (apply elem_of_app in Hv as [Hv|Hv]);
      [destruct (family_due cfg FamAudit entries) eqn:Hdue
      |destruct (family_due cfg FamSlow entries) eqn:Hdue
      |destruct (family_due cfg FamLog entries) eqn:Hdue];
      try (by apply elem_of_nil in Hv);
      apply list_elem_of_singleton in Hv; subst v;
      pose proof (in_family_unique cfg _ _ _ Hf (Hmem _ Hdue)) as ->; done. }
  assert (Hcomm : family_files cfg fam (after_sweep cfg entries)
                  = filter (fun d => d ∉ sweep_victims cfg entries)
                      (family_files cfg fam entries)).
  { unfold family_files, after_sweep. rewrite !list_filter_filter.
    apply list_filter_iff. tauto. }
  destruct (family_due cfg fam entries) eqn:Hdue.
  - destruct (sweep_scan_family cfg entries fam Hne) as (_ & _ & Hmin).
    destruct Hmin as [Hin Hle].
    { intros Hnil. unfold family_due in Hdue. rewrite Hnil in Hdue. simpl in Hdue.
      apply andb_true_iff in Hdue as [?%Z.ltb_lt ?%Z.ltb_lt]. lia. }
    set (v := family_oldest fam (sweep_scan cfg entries)) in *.
    assert (Hv : v ∈ sweep_victims cfg entries).
    { rewrite sweep_victims_families by done. unfold v.
      destruct fam; rewrite Hdue; rewrite !elem_of_app;
        [right; right|left|right; left]; by left. }
    assert (Heq : family_files cfg fam (after_sweep cfg entries)
                  = filter (fun x => x <> v) (family_files cfg fam entries)).
    { rewrite Hcomm. apply filter_agree. intros x Hx. split.
      - intros Hnot ->. done.
      - intros Hxv Hxin. apply Hxv.
        unfold family_files in Hx. apply list_elem_of_filter in Hx as [Hx _].
        by destruct (Hvict fam x Hxin Hx) as [_ ->]. }
    exists v. split_and!; [done..|].
    rewrite Heq. apply length_filter_remove; [|done].
    by apply NoDup_filter.
  - rewrite Hcomm. apply filter_all. intros x Hx Hxin.
    unfold family_files in Hx. apply list_elem_of_filter in Hx as [Hx _].
    destruct (Hvict fam x Hxin Hx) as [Hd _]. congruence.
Qed.

End Sweep.

(** Scenarios of the parser and of the sweep with the sample constants. *)
Section SweepScenarios.
Local Existing Instance sample_headers.
Local Existing Instance sample_time.

(** A header of length zero, followed by one byte. *)
Lemma header_validity_witness :
  dest_flags_ok = true
  /\ (len (decode_header zero_length_header) = 0 ->
      header_valid (decode_header zero_length_header) = false).
Proof.
  split; [reflexivity|].
  exact (proj1 (proj2 (header_validity initial_buffer_lists zero_length_header 1 eq_refl))).
Defined.

(** The header of length zero is written out as non-protocol data up to
    the next zero byte, which here is the second byte. *)
Example zero_length_header_unframed :
  exists bl',
    process_pipe_input initial_buffer_lists zero_length_header =
      Done (bl', [{| w_origin := None; w_bytes := [x00]; w_dest := 1 |}],
            drop 1 zero_length_header).
Proof. eexists. vm_compute. reflexivity. Qed.

Lemma sweep_takes_one_per_family_witness :
  (EmptyString ∉ five_files) /\ NoDup five_files
  /\ (if family_due capped_config FamLog five_files then
       exists v,
         v ∈ family_files capped_config FamLog five_files
         /\ (forall x, x ∈ family_files capped_config FamLog five_files ->
               String.ltb x v = false)
         /\ v ∈ sweep_victims capped_config five_files
         /\ family_files capped_config FamLog (after_sweep capped_config five_files)
            = filter (fun x => x <> v) (family_files capped_config FamLog five_files)
         /\ S (length (family_files capped_config FamLog
                         (after_sweep capped_config five_files)))
            = length (family_files capped_config FamLog five_files)
     else family_files capped_config FamLog (after_sweep capped_config five_files)
          = family_files capped_config FamLog five_files).
Proof.
  assert (H1 : EmptyString ∉ five_files).
  { unfold five_files. rewrite !not_elem_of_cons. split_and!; try done. apply not_elem_of_nil. }
  assert (H2 : NoDup five_files).
  { unfold five_files. repeat (apply NoDup_cons; split;
      [rewrite ?not_elem_of_cons; split_and?; (done || apply not_elem_of_nil)|]).
    apply NoDup_nil_2. }
  split; [exact H1|]. split; [exact H2|].
  exact (sweep_takes_one_per_family capped_config five_files FamLog H1 H2).
Defined.

(** C4 counterexample.  The retention scenario of the specification:
    at most three text files, the directory holds a, b, c, d and e.  The
    pass that serves a rotation request removes a and nothing else, and
    four files of the family are left. *)
Lemma sweep_leaves_four_of_five :
  polar_remove_old_syslog_files capped_config (Some five_files) = Some [IoRemove "log/a"]
  /\ after_sweep capped_config five_files = ["b"; "c"; "d"; "e"]%string
  /\ length (family_files capped_config FamLog (after_sweep capped_config five_files)) = 4%nat
  /\ ~ Z.of_nat (length (family_files capped_config FamLog
                           (after_sweep capped_config five_files)))
       <= polar_max_log_files capped_config
  /\ exists st out0 st' out,
       SysLoggerMain_start capped_config 0 1000 1000
         (Some {| f_path := "log/1000_error.log"; f_mode := mode_a |}) None None None
         None 1000 meta_ok = Some (st, out0)
       /\ loop_pass (sweep_tick 1001) st = (Continue st', out)
       /\ filter (fun e => is_remove e = true) out = [IoRemove "log/a"].
Proof.
  split; [vm_compute; reflexivity|]. split; [vm_compute; reflexivity|].
  split; [vm_compute; reflexivity|]. split.
  - vm_compute. intros Hle. by apply Hle.
  - eexists _, _, _, _. split; [vm_compute; reflexivity|].
    split; vm_compute; reflexivity.
Qed.

End SweepScenarios.

(** ** The exit of the main loop *)

Section Exit.
Context `{SysloggerHeaders} `{TimeLibrary}.

Lemma handle_reload_eof t st :
  pipe_eof_seen (fst (handle_reload t st)) = pipe_eof_seen st.
Proof. unfold handle_reload. by destruct (t_reload t). Qed.

Lemma service_rotation_eof t st st1 out :
  service_rotation t st = (Some st1, out) -> pipe_eof_seen st1 = pipe_eof_seen st.
Proof.
  unfold service_rotation.
  match goal with |- context [handle_reload t ?s] =>
    pose proof (handle_reload_eof t s) as Hr;
    destruct (handle_reload t s) as [st2 out_reload] end.
  simpl in Hr.
  destruct (check_triggers t st2) as [[[now' requested] tb] size].
  destruct requested.
  - destruct (polar_remove_old_syslog_files _ _) as [out_sweep|]; [|done].
    destruct (logfile_rotate _ _ _ _ _ _ _) as [[r3 fs3] out_rot].
    by intros [= <- <-].
  - by intros [= <- <-].
Qed.

(** What a pass that ends in [proc_exit(0)] has done, and that no other
    pass sets [pipe_eof_seen]. *)
Lemma service_input_exit t st s out :
  pipe_eof_seen st = false ->
  service_input t st = (s, out) ->
  match s with
  | Continue st' => pipe_eof_seen st' = false
  | Exit0 st' =>
      t_wait t = WaitReadable (ReadBytes [])
      /\ st' = with_input st
                 (fst (fst (flush_pipe_input (slots st) (MyLoggerIndex st)
                              (buffer_lists st) (logbuffer st))))
                 [] true
      /\ out = IoWait (fst (cur_timeout (cfg st) (rot st) (now st)))
                 (snd (cur_timeout (cfg st) (rot st) (now st)))
               :: snd (flush_pipe_input (slots st) (MyLoggerIndex st)
                         (buffer_lists st) (logbuffer st))
  | Raised _ => False
  | Undefined => True
  end.
Proof.
  intros Heof. unfold service_input. rewrite Heof.
  destruct (cur_timeout _ _ _) as [timeout armed].
  destruct (t_wait t) as [| |[e|data]]; try (by intros [= <- <-]).
  destruct (Z.ltb_spec 0 (Z.of_nat (length data))) as [Hpos|Hzero].
  - destruct (process_pipe_input _ _) as [[[bl out1] rest]| |]; by intros [= <- <-].
  - destruct data; [|simpl in Hzero; lia].
    unfold flush_pipe_input. destruct (negb (MyLoggerIndex st =? 0)); by intros [= <- <-].
Qed.

Lemma loop_pass_continue t st st' out :
  pipe_eof_seen st = false -> loop_pass t st = (Continue st', out) ->
  pipe_eof_seen st' = false.
Proof.
  intros Heof. unfold loop_pass.
  destruct (service_rotation t st) as [[st1|] out1] eqn:Hs; [|done].
  apply service_rotation_eof in Hs.
  destruct (service_input t st1) as [s out2] eqn:Hi.
  apply service_input_exit in Hi; [|congruence].
  intros [= -> _]. done.
Qed.

Lemma flush_buffer_free (buf : save_buffer) : sb_pid (flush_buffer buf) = 0.
Proof. unfold flush_buffer. by destruct (Z.eqb_spec (sb_pid buf) 0). Qed.

Lemma active_slots_flushed (bl : buffer_lists_t) :
  active_slots (List.map (List.map flush_buffer) bl) = [].
Proof.
  unfold active_slots. induction bl as [|l bl IH]; [done|]. simpl.
  rewrite filter_app, IH, app_nil_r. clear IH.
  induction l as [|buf l IH]; [done|]. simpl.
  rewrite filter_cons_False; [done|]. intros Hnz. by rewrite flush_buffer_free in Hnz.
Qed.



End Exit.

Section ExitScenarios.
Local Existing Instance sample_headers.
Local Existing Instance sample_time.

(** The unframed blob of the specification goes to the stderr file as it
    came, in the pass that reads it. *)
Example oops_written_unchanged :
  exists st' out,
    main_loop oops_then_eof plain_logger = (Exit0 st', out)
    /\ filter (fun e => is_write e = true) out
       = [IoWrite {| w_origin := None; w_bytes := [x6f; x6f; x70; x73; x0a];
                     w_dest := 1 |} (Some plain_file)].
Proof. eexists _, _. split; vm_compute; reflexivity. Qed.

End ExitScenarios.

(** ** Reads in the main loop *)

Section Reads.
Context `{SysloggerHeaders} `{TimeLibrary}.

Lemma handle_reload_input t st :
  buffer_lists (fst (handle_reload t st)) = buffer_lists st
  /\ logbuffer (fst (handle_reload t st)) = logbuffer st.
Proof. unfold handle_reload. by destruct (t_reload t). Qed.

Lemma service_rotation_input t st st1 out :
  service_rotation t st = (Some st1, out) ->
  buffer_lists st1 = buffer_lists st /\ logbuffer st1 = logbuffer st.
Proof.
  unfold service_rotation.
  match goal with |- context [handle_reload t ?s] =>
    pose proof (handle_reload_input t s) as [Hb Hl];
    destruct (handle_reload t s) as [st2 out_reload] end.
  simpl in Hb, Hl.
  destruct (check_triggers t st2) as [[[now' requested] tb] size].
  destruct requested.
  - destruct (polar_remove_old_syslog_files _ _) as [out_sweep|]; [|done].
    destruct (logfile_rotate _ _ _ _ _ _ _) as [[r3 fs3] out_rot].
    by intros [= <- <-].
  - by intros [= <- <-].
Qed.

(** A pass whose read returns bytes hands what was left over, followed
    by the new bytes, to [process_pipe_input] and goes on; the rotation
    work of the pass does not touch the buffers. *)
Lemma loop_pass_read t st data st' out :
  t_wait t = WaitReadable (ReadBytes data) -> data <> [] ->
  loop_pass t st = (Continue st', out) ->
  exists written,
    process_pipe_input (buffer_lists st) (logbuffer st ++ data)
    = Done (buffer_lists st', written, logbuffer st').
Proof.
  intros Hw Hne. unfold loop_pass.
  destruct (service_rotation t st) as [[st1|] out1] eqn:Hs; [|done].
  apply service_rotation_input in Hs as [<- <-].
  unfold service_input. rewrite Hw. destruct (cur_timeout _ _ _) as [timeout armed].
  destruct (Z.ltb_spec 0 (Z.of_nat (length data))) as [_|Hz].
  - destruct (process_pipe_input _ _) as [[[bl w] rest]| |]; [|done..].
    intros [= <- <-]. by exists w.
  - destruct data; [done|simpl in Hz; lia].
Qed.

End Reads.


(** ** The calls of the rotation half of a pass *)

Section RotationCalls.
Context `{SysloggerHeaders} `{TimeLibrary}.

Lemma logfile_rotate_dest_calls cfg index fopen tb size fntime target slot disabled :
  Forall rotation_call
    (snd (logfile_rotate_dest cfg index fopen tb size fntime target slot disabled)).
Proof.
  unfold logfile_rotate_dest.
  repeat case_match; simpl; unfold close_old; repeat case_match;
    repeat (apply Forall_app; split); repeat constructor.
Qed.

Lemma rotate_dests_calls cfg index env disabled fs tb size fntime :
  Forall rotation_call (snd (rotate_dests cfg index env disabled fs tb size fntime)).
Proof.
  unfold rotate_dests.
  repeat match goal with
  | |- context [logfile_rotate_dest ?a ?b ?c ?d ?e ?f ?g ?h ?i] =>
      let Hq := fresh "Hq" in
      pose proof (logfile_rotate_dest_calls a b c d e f g h i) as Hq;
      destruct (logfile_rotate_dest a b c d e f g h i) as [[[? ?] ?] ?];
      simpl in Hq
  end;
  repeat (case_match; simpl); repeat (apply Forall_app; split); done.
Qed.

Lemma logfile_rotate_calls cfg index env rot fs tb size :
  Forall rotation_call (snd (logfile_rotate cfg index env rot fs tb size)).
Proof.
  unfold logfile_rotate.
  pose proof (rotate_dests_calls cfg index env (rotation_disabled rot) fs tb size
                (rotation_fntime env rot tb)) as Hq.
  destruct (rotate_dests _ _ _ _ _ _ _ _) as [[[ok d] fs'] out]. simpl in Hq.
  destruct ok; simpl; [|done]. apply Forall_app. split; [done|]. by repeat constructor.
Qed.

Lemma sweep_calls cfg dir out :
  polar_remove_old_syslog_files cfg dir = Some out -> Forall rotation_call out.
Proof.
  unfold polar_remove_old_syslog_files. destruct (_ && _); [by intros [= <-]|].
  destruct dir; [|done]. intros [= <-]. apply Forall_fmap. by apply Forall_true.
Qed.

Lemma handle_reload_calls t st : Forall rotation_call (snd (handle_reload t st)).
Proof.
  unfold handle_reload. destruct (t_reload t); simpl; [|done].
  apply Forall_app. split; [destruct (negb _)|]; repeat constructor.
Qed.

Lemma service_rotation_calls t st r out :
  service_rotation t st = (r, out) -> Forall rotation_call out.
Proof.
  unfold service_rotation.
  match goal with |- context [handle_reload t ?s] =>
    pose proof (handle_reload_calls t s) as Hr;
    destruct (handle_reload t s) as [st2 out_reload] end.
  simpl in Hr.
  destruct (check_triggers t st2) as [[[now' requested] tb] size].
  destruct requested.
  - destruct (polar_remove_old_syslog_files _ _) as [out_sweep|] eqn:Hsw;
      [|by intros [= <- <-]].
    apply sweep_calls in Hsw.
    match goal with |- context [logfile_rotate ?a ?b ?c ?d ?e ?f ?g] =>
      pose proof (logfile_rotate_calls a b c d e f g) as Hq;
      destruct (logfile_rotate a b c d e f g) as [[r3 fs3] out_rot] end.
    intros [= <- <-]. simpl in Hq. rewrite !Forall_app. done.
  - by intros [= <- <-].
Qed.

(** The slots a pass works with after its rotation half, when no
    rotation was due. *)
Lemma handle_reload_slots t st : slots (fst (handle_reload t st)) = slots st.
Proof. unfold handle_reload. by destruct (t_reload t). Qed.

Lemma handle_reload_index t st : MyLoggerIndex (fst (handle_reload t st)) = MyLoggerIndex st.
Proof. unfold handle_reload. by destruct (t_reload t). Qed.

Lemma service_rotation_index t st st1 out :
  service_rotation t st = (Some st1, out) -> MyLoggerIndex st1 = MyLoggerIndex st.
Proof.
  unfold service_rotation.
  match goal with |- context [handle_reload t ?s] =>
    pose proof (handle_reload_index t s) as Hr;
    destruct (handle_reload t s) as [st2 out_reload] end.
  simpl in Hr.
  destruct (check_triggers t st2) as [[[now' requested] tb] size].
  destruct requested.
  - destruct (polar_remove_old_syslog_files _ _) as [out_sweep|]; [|done].
    destruct (logfile_rotate _ _ _ _ _ _ _) as [[r3 fs3] out_rot].
    by intros [= <- <-].
  - by intros [= <- <-].
Qed.

(** The input half of a pass leaves the file variables alone. *)
Lemma service_input_slots t st s out st' :
  service_input t st = (s, out) -> step_state s = Some st' -> slots st' = slots st.
Proof.
  unfold service_input. destruct (cur_timeout _ _ _) as [timeout armed].
  destruct (t_wait t) as [| |[e|data]].
  - intros [= <- <-]. destruct (pipe_eof_seen st); by intros [= <-].
  - intros [= <- <-]. destruct (pipe_eof_seen st); by intros [= <-].
  - intros [= <- <-]. destruct (pipe_eof_seen st); by intros [= <-].
  - destruct (0 <? _).
    + destruct (process_pipe_input _ _) as [[[bl w] rest]| |]; intros [= <- <-]; [|done..].
      by intros [= <-].
    + destruct (flush_pipe_input _ _ _ _) as [[bl rest] o]. intros [= <- <-]. by intros [= <-].
Qed.

End RotationCalls.


(** ** Records are messages *)

Section Messages.
Context `{SysloggerHeaders}.

Lemma chunks_of_cons (q : Z) (c : chunk) (cs : list chunk) :
  chunks_of q (c :: cs) = if decide (c_pid c = q) then c :: chunks_of q cs else chunks_of q cs.
Proof. unfold chunks_of. rewrite filter_cons. done. Qed.

Lemma save_chunks_messages (cs : list chunk) :
  forall bl : buffer_lists_t,
  buffers_ok bl -> Forall (fun c => chunk_ok c = true) cs ->
  exists bl' out,
    save_chunks bl cs = Some (bl', out)
    /\ buffers_ok bl'
    /\ forall q, q <> 0 ->
         records_of q out = messages q (pending bl q) (chunks_of q cs)
         /\ pending bl' q = unfinished (pending bl q) (chunks_of q cs).
Proof.
  induction cs as [|c cs IH]; intros bl Hok Hcs.
  - exists bl, []. split_and!; [done|done|]. intros q Hq. done.
  - apply Forall_cons in Hcs as [Hc Hcs].
    destruct (save_chunk_chunk bl c Hok Hc) as (bl1 & Hsave & Hok1 & Hpend & Hother).
    destruct (IH bl1 Hok1 Hcs) as (bl2 & out2 & Hrun & Hok2 & Hrec).
    exists bl2, ((if is_last c
                  then [{| w_origin := Some (c_pid c);
                           w_bytes := pending bl (c_pid c) ++ c_payload c;
                           w_dest := chunk_dest c |}]
                  else []) ++ out2).
    split_and!; [|done|].
    { cbn [save_chunks]. rewrite Hsave, Hrun. done. }
    intros q Hq. destruct (Hrec q Hq) as [Hr Hp].
    rewrite records_of_app, chunks_of_cons.
    destruct (decide (c_pid c = q)) as [<-|Hne].
    + cbn [messages unfinished]. rewrite Hpend in Hr, Hp.
      destruct (is_last c).
      * unfold records_of at 1. rewrite filter_cons_True by done.
        rewrite filter_nil. simpl. rewrite Hr. done.
      * unfold records_of at 1. rewrite filter_nil. simpl. done.
    + rewrite (Hother q) in Hr, Hp by congruence.
      split; [|done].
      destruct (is_last c); [|done].
      unfold records_of at 1. rewrite filter_cons_False by (simpl; congruence).
      rewrite filter_nil. done.
Qed.

(** X1: whatever the number of producers, the interleaving of their
    chunks and the way the stream is cut into reads, the records the
    parser emits for a producer are that producer's messages: one record
    per message, in the order written, holding the payloads of the
    message's chunks and sent to the destination its last chunk names;
    what stays buffered for the producer is its unfinished message. *)
Theorem records_are_messages (cs : list chunk) (reads : list (list byte)) :
  Forall (fun c => chunk_ok c = true) cs ->
  concat reads = stream cs ->
  exists bl' out,
    read_loop initial_buffer_lists [] reads = Done (bl', out, [])
    /\ forall q, q <> 0 ->
         records_of q out = messages q [] (chunks_of q cs)
         /\ pending bl' q = unfinished [] (chunks_of q cs).
Proof.
  intros Hcs Hreads.
  destruct (save_chunks_messages cs initial_buffer_lists initial_buffers_ok Hcs)
    as (bl' & out & Hrun & _ & Hrec).
  exists bl', out. split.
  - rewrite (read_loop_stream reads cs [] initial_buffer_lists Hcs); [by rewrite Hrun| |done].
    by left.
  - intros q Hq. destruct (Hrec q Hq) as [Hr Hp].
    rewrite pending_initial in Hr, Hp. done.
Qed.

End Messages.

Section MessageScenarios.
Local Existing Instance sample_headers.

Lemma records_are_messages_witness :
  Forall (fun c => chunk_ok c = true) [ab_open; x_whole; c_close]
  /\ concat [take 12 (stream [ab_open; x_whole; c_close]);
             drop 12 (stream [ab_open; x_whole; c_close])]
     = stream [ab_open; x_whole; c_close]
  /\ exists bl' out,
       read_loop initial_buffer_lists []
         [take 12 (stream [ab_open; x_whole; c_close]);
          drop 12 (stream [ab_open; x_whole; c_close])] = Done (bl', out, [])
       /\ forall q, q <> 0 ->
            records_of q out = messages q [] (chunks_of q [ab_open; x_whole; c_close])
            /\ pending bl' q = unfinished [] (chunks_of q [ab_open; x_whole; c_close]).
Proof.
  assert (Hok : Forall (fun c => chunk_ok c = true) [ab_open; x_whole; c_close]).
  { repeat constructor. }
  assert (Hcat : concat [take 12 (stream [ab_open; x_whole; c_close]);
                         drop 12 (stream [ab_open; x_whole; c_close])]
                 = stream [ab_open; x_whole; c_close]).
  { reflexivity. }
  split; [exact Hok|]. split; [exact Hcat|].
  exact (records_are_messages _ _ Hok Hcat).
Defined.

End MessageScenarios.


(** ** Nothing is lost at shutdown *)

Section Shutdown.
Context `{SysloggerHeaders} `{TimeLibrary}.

Lemma pipe_writes_app (o1 o2 : list io) : pipe_writes (o1 ++ o2) = pipe_writes o1 ++ pipe_writes o2.
Proof. unfold pipe_writes. apply omap_app. Qed.

Lemma pipe_writes_write (fs : file_slots) (ws : list write_event) :
  pipe_writes (write_syslogger_file fs <$> ws) = ws.
Proof. unfold pipe_writes. induction ws as [|w ws IH]; [done|]. csimpl. by rewrite IH. Qed.

Lemma pipe_writes_quiet (out : list io) : Forall rotation_call out -> pipe_writes out = [].
Proof.
  unfold pipe_writes. induction 1 as [|e out He _ IH]; [done|].
  csimpl. rewrite IH. by destruct e.
Qed.

(** What the buffers hold for a pid is what the dump at shutdown writes
    for it. *)
Lemma records_of_cons (q : Z) (w : write_event) (out : list write_event) :
  records_of q (w :: out)
  = if decide (w_origin w = Some q) then w :: records_of q out else records_of q out.
Proof. unfold records_of. by rewrite filter_cons. Qed.

Lemma dump_absent (q : Z) (l : list save_buffer) :
  (forall j b, l !! j = Some b -> sb_pid b <> q) ->
  records_of q (omap dump_buffer l) = [].
Proof.
  induction l as [|b l IH]; intros Hno; [done|].
  simpl. unfold dump_buffer at 1.
  assert (Hb : sb_pid b <> q) by (apply (Hno 0%nat); done).
  assert (Hl : records_of q (omap dump_buffer l) = []).
  { apply IH. intros j b' Hj. apply (Hno (S j)). done. }
  destruct (sb_pid b =? 0); [done|].
  rewrite records_of_cons. simpl. rewrite decide_False by congruence. done.
Qed.

Lemma dump_absent_lists (q : Z) (bls : list (list save_buffer)) :
  (forall l j b, l ∈ bls -> l !! j = Some b -> sb_pid b <> q) ->
  records_of q (omap dump_buffer (concat bls)) = [].
Proof.
  induction bls as [|l bls IH]; intros Hno; [done|].
  simpl. rewrite omap_app, records_of_app, dump_absent, IH; [done| |].
  - intros l' j b Hl. apply Hno. by right.
  - intros j b. apply Hno. by left.
Qed.

Lemma dump_bucket (q : Z) (l : list save_buffer) :
  q <> 0 ->
  (forall j1 j2 b1 b2, l !! j1 = Some b1 -> l !! j2 = Some b2 ->
     sb_pid b1 = sb_pid b2 -> sb_pid b1 <> 0 -> j1 = j2) ->
  written (records_of q (omap dump_buffer l)) = default [] (bucket_data q l).
Proof.
  intros Hq. induction l as [|b l IH]; intros Huniq; [done|].
  simpl. unfold dump_buffer at 1.
  destruct (Z.eqb_spec (sb_pid b) q) as [Hb|Hb].
  - destruct (Z.eqb_spec (sb_pid b) 0) as [Hz|_]; [congruence|].
    rewrite records_of_cons. simpl. rewrite decide_True by congruence.
    rewrite dump_absent.
    + unfold written. simpl. by rewrite app_nil_r.
    + intros j b' Hj Hb'.
      assert (0%nat = S j); [|done].
      apply (Huniq 0%nat (S j) b b'); [done|done|congruence|congruence].
  - assert (IH' : written (records_of q (omap dump_buffer l)) = default [] (bucket_data q l)).
    { apply IH. intros j1 j2 b1 b2 H1 H2 He Hn.
      assert (S j1 = S j2); [|lia]. by apply (Huniq (S j1) (S j2) b1 b2). }
    destruct (sb_pid b =? 0); [done|].
    rewrite records_of_cons. simpl. rewrite decide_False by congruence. done.
Qed.

Lemma dump_pending (bl : buffer_lists_t) (q : Z) :
  buffers_ok bl -> q <> 0 ->
  written (records_of q (omap dump_buffer (concat bl))) = pending bl q.
Proof.
  intros (Hlen & Hhome & Huniq) Hq. unfold pending.
  set (n := Z.to_nat (Z.rem q NBUFFER_LISTS)).
  assert (Hn : (n < length bl)%nat).
  { rewrite Hlen. unfold n, NBUFFER_LISTS.
    pose proof (Z.rem_bound_abs q 256 ltac:(lia)). lia. }
  destruct (lookup_lt_is_Some_2 _ _ Hn) as [l Hl]. rewrite Hl.
  rewrite <- (take_drop_middle bl n l Hl).
  rewrite concat_app. simpl. rewrite !omap_app, !records_of_app, !written_app.
  assert (Hother : forall i l' j b, i <> n -> bl !! i = Some l' -> l' !! j = Some b ->
                     sb_pid b <> q).
  { intros i l' j b Hi Hl' Hj Hb. apply Hi.
    pose proof (Hhome i l' j b Hl' Hj ltac:(congruence)) as Hrem.
    unfold n. rewrite <- Hb, Hrem. lia. }
  rewrite (dump_absent_lists q (take n bl)), (dump_absent_lists q (drop (S n) bl)).
  - simpl. rewrite app_nil_r. apply dump_bucket; [done|].
    intros j1 j2 b1 b2. by apply (Huniq n l).
  - intros l' j b Hin. apply list_elem_of_lookup in Hin as [i Hi].
    rewrite lookup_drop in Hi. apply (Hother (S n + i)%nat l' j b); [lia|done].
  - intros l' j b Hin. apply list_elem_of_lookup in Hin as [i Hi].
    apply lookup_take_Some in Hi as [Hi Hlt]. apply (Hother i l' j b); [lia|done].
Qed.

Lemma dump_origin (bl : buffer_lists_t) :
  Forall (fun w => exists buf, buf ∈ concat bl /\ sb_pid buf <> 0
                               /\ w_origin w = Some (sb_pid buf))
    (omap dump_buffer (concat bl)).
Proof.
  apply Forall_forall. intros w Hw.
  apply list_elem_of_omap in Hw as (buf & Hin & Hd).
  unfold dump_buffer in Hd. destruct (Z.eqb_spec (sb_pid buf) 0); [done|].
  injection Hd as <-. by exists buf.
Qed.

(** A run of the loop that ends in the exit has parsed the data of its
    reads as [read_loop] does, and its writes are the parser's records
    followed by the dump of the flush. *)
Lemma main_loop_reads (ticks : list tick) :
  forall (st st' : logger) (out : list io),
  pipe_eof_seen st = false -> MyLoggerIndex st = 0 ->
  main_loop ticks st = (Exit0 st', out) ->
  exists bl' out_r rest,
    read_loop (buffer_lists st) (logbuffer st) (reads_until_eof ticks) = Done (bl', out_r, rest)
    /\ pipe_writes out
       = out_r ++ omap dump_buffer (concat bl') ++ residual_write rest LOG_DESTINATION_STDERR
    /\ buffer_lists st' = List.map (List.map flush_buffer) bl'
    /\ logbuffer st' = [].
Proof.
  induction ticks as [|t ticks IH]; intros st st' out Heof Hidx; simpl; [done|].
  destruct (loop_pass t st) as [s out1] eqn:Hpass.
  unfold loop_pass in Hpass.
  destruct (service_rotation t st) as [[st1|] out0] eqn:Hs; [|by injection Hpass as <- <-].
  pose proof (service_rotation_calls _ _ _ _ Hs) as Hquiet.
  pose proof (service_rotation_eof _ _ _ _ Hs) as Heof1.
  pose proof (service_rotation_index _ _ _ _ Hs) as Hidx1.
  apply service_rotation_input in Hs as [Hbl Hbuf].
  rewrite Heof in Heof1. rewrite Hidx in Hidx1.
  destruct (service_input t st1) as [s2 out2] eqn:Hi.
  injection Hpass as <- <-.
  unfold service_input in Hi. rewrite Heof1 in Hi.
  destruct (cur_timeout _ _ _) as [timeout armed].
  rewrite <- Hbl, <- Hbuf.
  destruct (t_wait t) as [| |[e|data]].
  - (* timeout *)
    injection Hi as <- <-.
    destruct (main_loop ticks st1) as [s3 out3] eqn:Hrest. intros [= -> <-].
    destruct (IH st1 st' out3 Heof1 Hidx1 Hrest) as (bl' & out_r & rest & Hr & Hw & Hb & Hl).
    exists bl', out_r, rest. split; [done|]. split; [|done].
    rewrite !pipe_writes_app, (pipe_writes_quiet out0 Hquiet), Hw. done.
  - (* latch *)
    injection Hi as <- <-.
    destruct (main_loop ticks st1) as [s3 out3] eqn:Hrest. intros [= -> <-].
    destruct (IH st1 st' out3 Heof1 Hidx1 Hrest) as (bl' & out_r & rest & Hr & Hw & Hb & Hl).
    exists bl', out_r, rest. split; [done|]. split; [|done].
    rewrite !pipe_writes_app, (pipe_writes_quiet out0 Hquiet), Hw. done.
  - (* read error *)
    injection Hi as <- <-.
    destruct (main_loop ticks st1) as [s3 out3] eqn:Hrest. intros [= -> <-].
    destruct (IH st1 st' out3 Heof1 Hidx1 Hrest) as (bl' & out_r & rest & Hr & Hw & Hb & Hl).
    exists bl', out_r, rest. split; [done|]. split; [|done].
    rewrite !pipe_writes_app, (pipe_writes_quiet out0 Hquiet), Hw.
    destruct e; done.
  - destruct (0 <? Z.of_nat (length data)).
    + (* data *)
      cbn [read_loop].
      destruct (process_pipe_input _ _) as [[[bl w] rest0]| |]; [|by injection Hi as <- <-..].
      injection Hi as <- <-.
      destruct (main_loop ticks _) as [s3 out3] eqn:Hrest. intros [= -> <-].
      apply IH in Hrest as (bl' & out_r & rest & Hr & Hw & Hb & Hl); [|done|done].
      simpl in Hr. rewrite Hr.
      exists bl', (w ++ out_r), rest. split; [done|]. split; [|done].
      rewrite !pipe_writes_app, (pipe_writes_quiet out0 Hquiet), Hw.
      change (pipe_writes (IoWait timeout armed :: (write_syslogger_file (slots st1) <$> w)))
        with (pipe_writes (write_syslogger_file (slots st1) <$> w)).
      rewrite pipe_writes_write. simpl. by rewrite <- ?app_assoc.
    + (* end of file *)
      unfold flush_pipe_input in Hi. rewrite Hidx1 in Hi. simpl in Hi.
      injection Hi as <- <-. intros [= <- <-].
      exists (buffer_lists st1), [], (logbuffer st1).
      split; [done|]. split; [|done].
      rewrite !pipe_writes_app, (pipe_writes_quiet out0 Hquiet). simpl.
      change (pipe_writes (IoWait timeout armed :: ?l)) with (pipe_writes l).
      rewrite !pipe_writes_app, !pipe_writes_write.
      change (pipe_writes [flush_syslogger_file (slots st1) LOG_DESTINATION_STDERR])
        with (@nil write_event).
      by rewrite app_nil_r.
Qed.

(** X2: a collector with index 0 that starts with nothing buffered and
    runs to its exit has written, for every producer, exactly the bytes
    that producer sent, in order, whatever the interleaving of producers,
    the cutting into reads and the rotation work of the passes: finished
    messages by the parser, unfinished ones by the flush at the end.
    Nothing that came through the pipe is written as non-protocol text:
    every record made of pipe data stems from a producer (the
    collector's own [ereport] messages, which also reach the log file,
    are not pipe data).  No buffer stays in use. *)
Theorem collector_writes_everything (ticks : list tick) (st st' : logger) (out : list io)
    (cs : list chunk) :
  MyLoggerIndex st = 0 -> buffer_lists st = initial_buffer_lists -> logbuffer st = [] ->
  pipe_eof_seen st = false ->
  main_loop ticks st = (Exit0 st', out) ->
  Forall (fun c => chunk_ok c = true) cs ->
  concat (reads_until_eof ticks) = stream cs ->
  (forall q, q <> 0 -> written (records_of q (pipe_writes out)) = payloads (chunks_of q cs))
  /\ Forall (fun w => exists q, q <> 0 /\ w_origin w = Some q) (pipe_writes out)
  /\ active_slots (buffer_lists st') = [] /\ logbuffer st' = [].
Proof.
  intros Hidx Hbl Hbuf Heof Hrun Hcs Hreads.
  destruct (main_loop_reads ticks st st' out Heof Hidx Hrun)
    as (bl' & out_r & rest & Hr & Hw & Hb & Hl).
  rewrite Hbl, Hbuf in Hr.
  destruct (save_chunks_spec cs initial_buffer_lists initial_buffers_ok Hcs)
    as (bl2 & out2 & Hsave & Hok2 & Hcons & Horig).
  rewrite (read_loop_stream _ cs [] initial_buffer_lists Hcs) in Hr; [|by left|done].
  rewrite Hsave in Hr. injection Hr as <- <- <-.
  rewrite Hw. change (residual_write [] LOG_DESTINATION_STDERR) with (@nil write_event).
  rewrite app_nil_r.
  split_and!.
  - intros q Hq. rewrite records_of_app, written_app, dump_pending by done.
    rewrite (Hcons q Hq), pending_initial. done.
  - apply Forall_app. split.
    + eapply Forall_impl; [exact Horig|]. intros w (c & Hc & Ho).
      exists (c_pid c). split; [|done].
      rewrite Forall_forall in Hcs. apply chunk_ok_rem. by apply Hcs.
    + eapply Forall_impl; [apply dump_origin|]. intros w (buf & _ & Hn & Ho). by exists (sb_pid buf).
  - rewrite Hb. apply active_slots_flushed.
  - done.
Qed.

End Shutdown.

Section ShutdownScenarios.
Local Existing Instance sample_headers.
Local Existing Instance sample_time.

Lemma collector_writes_everything_witness :
  exists st' out,
    MyLoggerIndex plain_logger = 0 /\ buffer_lists plain_logger = initial_buffer_lists
    /\ logbuffer plain_logger = [] /\ pipe_eof_seen plain_logger = false
    /\ main_loop unfinished_then_eof plain_logger = (Exit0 st', out)
    /\ Forall (fun c => chunk_ok c = true) [ab_open]
    /\ concat (reads_until_eof unfinished_then_eof) = stream [ab_open]
    /\ (forall q, q <> 0 ->
          written (records_of q (pipe_writes out)) = payloads (chunks_of q [ab_open]))
    /\ Forall (fun w => exists q, q <> 0 /\ w_origin w = Some q) (pipe_writes out)
    /\ active_slots (buffer_lists st') = [] /\ logbuffer st' = [].
Proof.
  assert (Hrun : exists st' out, main_loop unfinished_then_eof plain_logger = (Exit0 st', out)).
  { eexists _, _. vm_compute. reflexivity. }
  destruct Hrun as (st' & out & Hrun).
  assert (Hok : Forall (fun c => chunk_ok c = true) [ab_open]) by (repeat constructor).
  assert (Hcat : concat (reads_until_eof unfinished_then_eof) = stream [ab_open])
    by reflexivity.
  exists st', out.
  split; [reflexivity|]. split; [reflexivity|]. split; [reflexivity|]. split; [reflexivity|].
  split; [exact Hrun|]. split; [exact Hok|]. split; [exact Hcat|].
  exact (collector_writes_everything unfinished_then_eof plain_logger st' out [ab_open]
           eq_refl eq_refl eq_refl eq_refl Hrun Hok Hcat).
Defined.

End ShutdownScenarios.


(** ** What the parser leaves in the read buffer *)

Section Leftover.
Context `{SysloggerHeaders}.

Lemma byte_at_range (cursor : list byte) (i : nat) : 0 <= byte_at cursor i < 256.
Proof. unfold byte_at. apply byte_val_range. Qed.

Lemma decode_header_len (cursor : list byte) : 0 <= len (decode_header cursor) <= 65535.
Proof.
  unfold decode_header. cbn [len].
  pose proof (byte_at_range cursor 2). pose proof (byte_at_range cursor 3). lia.
Qed.

Lemma pp_iter_cursor bl cursor dest bl' cursor' dest' out :
  pp_iter bl cursor dest = Next bl' cursor' dest' out ->
  exists n, cursor' = drop n cursor.
Proof.
  unfold pp_iter. destruct (header_valid _).
  - destruct (_ <? _); [done|]. destruct (save_chunk _ _ _ _) as [[bl1 out1]|]; [|done].
    intros [= _ <- _ _]. by eexists.
  - intros [= _ <- _ _]. by eexists.
Qed.

Lemma pp_iter_break bl cursor dest :
  pp_iter bl cursor dest = Break ->
  header_valid (decode_header cursor) = true
  /\ Z.of_nat (length cursor) < PIPE_HEADER_SIZE + len (decode_header cursor).
Proof.
  unfold pp_iter. destruct (header_valid _); [|done].
  destruct (Z.ltb_spec (Z.of_nat (length cursor)) (PIPE_HEADER_SIZE + len (decode_header cursor)));
    [done|].
  by destruct (save_chunk _ _ _ _) as [[bl1 out1]|].
Qed.

Lemma pp_loop_rest (fuel : nat) :
  forall (bl : buffer_lists_t) cursor dest bl' out rest,
  pp_loop fuel bl cursor dest = Done (bl', out, rest) ->
  rest `suffix_of` cursor
  /\ (Z.of_nat (length rest) < PIPE_HEADER_SIZE + 1
      \/ (header_valid (decode_header rest) = true
          /\ Z.of_nat (length rest) < PIPE_HEADER_SIZE + len (decode_header rest))).
Proof.
  induction fuel as [|fuel IH]; intros bl cursor dest bl' out rest.
  - simpl. destruct (Z.ltb_spec (Z.of_nat (length cursor)) (PIPE_HEADER_SIZE + 1)); [|done].
    intros [= <- <- <-]. split; [done|]. by left.
  - rewrite pp_loop_S.
    destruct (Z.ltb_spec (Z.of_nat (length cursor)) (PIPE_HEADER_SIZE + 1)).
    { intros [= <- <- <-]. split; [done|]. by left. }
    destruct (pp_iter bl cursor dest) as [| |bl1 cursor1 dest1 out1] eqn:Hiter.
    + intros [= <- <- <-]. split; [done|]. right. by apply (pp_iter_break bl _ dest).
    + done.
    + destruct (pp_loop fuel bl1 cursor1 dest1) as [[[bl2 out2] rest2]| |] eqn:Hloop; [|done..].
      intros [= <- <- <-].
      apply IH in Hloop as [Hsuf Hshape]. split; [|done].
      apply pp_iter_cursor in Hiter as [n ->].
      etrans; [exact Hsuf|]. apply suffix_drop.
Qed.

(** X3: whatever bytes it is given, [process_pipe_input] leaves in the
    read buffer an end piece of what it was given, and that piece is
    either shorter than a header plus one byte or begins with a valid
    header whose chunk has not arrived in full; so fewer than
    9 + 65535 bytes are carried over to the next read. *)
Theorem leftover_is_incomplete_chunk (bl bl' : buffer_lists_t) (logbuffer rest : list byte)
    (out : list write_event) :
  process_pipe_input bl logbuffer = Done (bl', out, rest) ->
  rest `suffix_of` logbuffer
  /\ (Z.of_nat (length rest) < PIPE_HEADER_SIZE + 1
      \/ (header_valid (decode_header rest) = true
          /\ Z.of_nat (length rest) < PIPE_HEADER_SIZE + len (decode_header rest)))
  /\ Z.of_nat (length rest) < PIPE_HEADER_SIZE + 65535.
Proof.
  intros Hrun. apply pp_loop_rest in Hrun as [Hsuf Hshape].
  split; [done|]. split; [done|].
  pose proof (decode_header_len rest). unfold PIPE_HEADER_SIZE in *.
  destruct Hshape as [?|[_ ?]]; lia.
Qed.

(** *** Text without framing ahead of framed chunks *)

Lemma scan_nul_text (text rest : list byte) (k : Z) :
  Forall (fun b => byte_val b <> 0) text ->
  (rest = [] \/ exists tail, rest = x00 :: tail) ->
  scan_nul (text ++ rest) k = k + Z.of_nat (length text).
Proof.
  intros Htext Hrest. revert k. induction Htext as [|b text Hb _ IH]; intros k.
  - simpl. destruct Hrest as [->|[tail ->]]; simpl; lia.
  - simpl. destruct (Z.eqb_spec (byte_val b) 0); [done|]. rewrite IH. lia.
Qed.

Lemma stream_starts_with_nul (cs : list chunk) :
  stream cs = [] \/ exists tail, stream cs = x00 :: tail.
Proof.
  destruct cs as [|c cs]; [by left|]. right.
  rewrite stream_cons. unfold encode_chunk, header_bytes. simpl. by eexists.
Qed.

(** X4: text that holds no zero byte, arriving ahead of framed chunks in
    a buffer of at least ten bytes, is written to the stderr destination
    as one record, byte for byte; the parser finds the first chunk right
    behind it and handles the chunks as if the text had not been
    there. *)
Theorem text_before_chunks (bl : buffer_lists_t) (text : list byte) (cs : list chunk) :
  text <> [] ->
  Forall (fun b => byte_val b <> 0) text ->
  Forall (fun c => chunk_ok c = true) cs ->
  PIPE_HEADER_SIZE + 1 <= Z.of_nat (length (text ++ stream cs)) ->
  process_pipe_input bl (text ++ stream cs) =
    match save_chunks bl cs with
    | Some (bl', out) =>
        Done (bl', {| w_origin := None; w_bytes := text; w_dest := LOG_DESTINATION_STDERR |}
                   :: out, [])
    | None => OutOfBounds
    end.
Proof.
  intros Hne Htext Hcs Hlen.
  destruct text as [|b text]; [done|]. clear Hne.
  apply Forall_cons in Htext as [Hb Htext].
  unfold process_pipe_input.
  change (length ((b :: text) ++ stream cs)) with (S (length (text ++ stream cs))).
  rewrite pp_loop_S.
  destruct (Z.ltb_spec (Z.of_nat (length ((b :: text) ++ stream cs))) (PIPE_HEADER_SIZE + 1));
    [lia|].
  assert (Hinv : header_valid (decode_header ((b :: text) ++ stream cs)) = false).
  { apply not_true_is_false. intros Hv. apply header_valid_fields in Hv as (Hn & _).
    unfold decode_header, byte_at in Hn. simpl in Hn. done. }
  rewrite (pp_iter_unframed _ _ _ Hinv).
  change (drop 1 ((b :: text) ++ stream cs)) with (text ++ stream cs).
  rewrite (scan_nul_text text (stream cs) 1 Htext (stream_starts_with_nul cs)).
  replace (Z.to_nat (1 + Z.of_nat (length text))) with (length (b :: text)) by (simpl; lia).
  rewrite drop_app_length, take_app_length.
  pose proof (pp_loop_stream cs (length (text ++ stream cs)) bl [] LOG_DESTINATION_STDERR [])
    as Hloop.
  rewrite !app_nil_r in Hloop. rewrite Hloop; [|done|by left|rewrite length_app; lia].
  by destruct (save_chunks bl cs) as [[bl' out]|].
Qed.

End Leftover.

Section LeftoverScenarios.
Local Existing Instance sample_headers.

Lemma leftover_is_incomplete_chunk_witness :
  process_pipe_input initial_buffer_lists (take 12 (encode_chunk hello))
  = Done (initial_buffer_lists, [], take 12 (encode_chunk hello))
  /\ take 12 (encode_chunk hello) `suffix_of` take 12 (encode_chunk hello)
  /\ (Z.of_nat (length (take 12 (encode_chunk hello))) < PIPE_HEADER_SIZE + 1
      \/ (header_valid (decode_header (take 12 (encode_chunk hello))) = true
          /\ Z.of_nat (length (take 12 (encode_chunk hello)))
             < PIPE_HEADER_SIZE + len (decode_header (take 12 (encode_chunk hello)))))
  /\ Z.of_nat (length (take 12 (encode_chunk hello))) < PIPE_HEADER_SIZE + 65535.
Proof.
  assert (Hrun : process_pipe_input initial_buffer_lists (take 12 (encode_chunk hello))
                 = Done (initial_buffer_lists, [], take 12 (encode_chunk hello))).
  { vm_compute. reflexivity. }
  split; [exact Hrun|].
  exact (leftover_is_incomplete_chunk _ _ _ _ _ Hrun).
Defined.

Lemma text_before_chunks_witness :
  [x6f; x6f; x70; x73; x0a] <> []
  /\ Forall (fun b => byte_val b <> 0) [x6f; x6f; x70; x73; x0a]
  /\ Forall (fun c => chunk_ok c = true) [hello]
  /\ PIPE_HEADER_SIZE + 1 <= Z.of_nat (length ([x6f; x6f; x70; x73; x0a] ++ stream [hello]))
  /\ process_pipe_input initial_buffer_lists ([x6f; x6f; x70; x73; x0a] ++ stream [hello]) =
       match save_chunks initial_buffer_lists [hello] with
       | Some (bl', out) =>
           Done (bl', {| w_origin := None; w_bytes := [x6f; x6f; x70; x73; x0a];
                         w_dest := LOG_DESTINATION_STDERR |} :: out, [])
       | None => OutOfBounds
       end.
Proof.
  assert (Hne : [x6f; x6f; x70; x73; x0a] <> []) by discriminate.
  assert (Htext : Forall (fun b => byte_val b <> 0) [x6f; x6f; x70; x73; x0a]).
  { repeat constructor; vm_compute; discriminate. }
  assert (Hcs : Forall (fun c => chunk_ok c = true) [hello]) by (repeat constructor).
  assert (Hlen : PIPE_HEADER_SIZE + 1
                 <= Z.of_nat (length ([x6f; x6f; x70; x73; x0a] ++ stream [hello]))).
  { vm_compute. discriminate. }
  split; [exact Hne|]. split; [exact Htext|]. split; [exact Hcs|]. split; [exact Hlen|].
  exact (text_before_chunks initial_buffer_lists _ _ Hne Htext Hcs Hlen).
Defined.

End LeftoverScenarios.


(** ** Streams across rotations *)

Section Streams.
Context `{SysloggerHeaders} `{TimeLibrary}.

(** The four ways through [logfile_rotate_dest]. *)
Lemma logfile_rotate_dest_cases cfg index fopen tb size fntime target slot disabled :
  let filename := logfile_getname cfg index fntime (logFileExt_of target) in
  let overwrite := overwrite_on_rotation cfg tb filename (last_file_name slot) in
  let mode := if overwrite then mode_w else mode_a in
  let advise := if overwrite
                then match last_file_name slot with Some l => [IoDropCache l] | None => [] end
                else [] in
  let r := logfile_rotate_dest cfg index fopen tb size fntime target slot disabled in
  ((Z.land (Log_destination cfg) target =? 0) && negb (target =? LOG_DESTINATION_STDERR) = true
   /\ r = (true, {| logFile := None; last_file_name := None |}, disabled,
           close_old (logFile slot)))
  \/ ((Z.land (Log_destination cfg) target =? 0) && negb (target =? LOG_DESTINATION_STDERR)
      = false
      /\ negb tb && (Z.land size target =? 0) = true
      /\ r = (true, slot, disabled, []))
  \/ (dest_rotates cfg tb size target = true
      /\ exists e, fopen filename mode = Some e
         /\ r = (false, slot, (if transient_errno e then disabled else true),
                 advise ++ [IoOpen filename mode (Some e); IoLog "could not open log file"]
                 ++ (if transient_errno e then []
                     else [IoLog "disabling automatic rotation (use SIGHUP to re-enable)"])))
  \/ (dest_rotates cfg tb size target = true
      /\ fopen filename mode = None
      /\ r = (true,
              {| logFile := Some {| f_path := filename; f_mode := mode |};
                 last_file_name := Some filename |},
              disabled,
              advise ++ [IoOpen filename mode None] ++ close_old (logFile slot))).
Proof.
  intros filename overwrite mode advise r. subst r.
  unfold logfile_rotate_dest, dest_rotates.
  destruct ((Z.land (Log_destination cfg) target =? 0)
            && negb (target =? LOG_DESTINATION_STDERR)); [by left|right].
  destruct (negb tb && (Z.land size target =? 0)); [by left|right].
  fold filename. fold overwrite. fold mode. fold advise.
  destruct (fopen filename mode) as [e|] eqn:Hopen; [left|by right].
  split; [done|]. exists e. split; [done|].
  destruct (transient_errno e); [by rewrite app_nil_r|done].
Qed.


Lemma opened_files_app (o1 o2 : list io) :
  opened_files (o1 ++ o2) = opened_files o1 ++ opened_files o2.
Proof. apply omap_app. Qed.

Lemma closed_files_app (o1 o2 : list io) :
  closed_files (o1 ++ o2) = closed_files o1 ++ closed_files o2.
Proof. apply omap_app. Qed.




Lemma balance_frame (pre post a b : list FILE) (out : list io) :
  balance a b out -> balance (pre ++ a ++ post) (pre ++ b ++ post) out.
Proof.
  unfold balance. intros Hb.
  rewrite <- !(assoc_L (++)). f_equiv.
  rewrite (comm (++) post), (assoc_L (++) a), Hb.
  rewrite <- (assoc_L (++) b). f_equiv. apply (comm (++)).
Qed.














(** *** The file variables stay in order *)

Lemma logfile_rotate_dest_slot_ok cfg index fopen tb size fntime target slot disabled :
  slot_ok slot ->
  slot_ok (snd (fst (fst (logfile_rotate_dest cfg index fopen tb size fntime target slot
                            disabled)))).
Proof.
  intros Hok.
  destruct (logfile_rotate_dest_cases cfg index fopen tb size fntime target slot disabled)
    as [[_ ->]|[(_ & _ & ->)|[(_ & e & _ & ->)|(_ & _ & ->)]]]; done.
Qed.

Lemma logfile_rotate_dest_stderr cfg index fopen tb size fntime slot disabled :
  is_Some (logFile slot) ->
  is_Some (logFile (snd (fst (fst (logfile_rotate_dest cfg index fopen tb size fntime
                                     LOG_DESTINATION_STDERR slot disabled))))).
Proof.
  intros Hopen.
  destruct (logfile_rotate_dest_cases cfg index fopen tb size fntime LOG_DESTINATION_STDERR
              slot disabled)
    as [[Hc _]|[(_ & _ & ->)|[(_ & e & _ & ->)|(_ & _ & ->)]]]; [|done..].
  rewrite Z.eqb_refl, andb_false_r in Hc. done.
Qed.

Lemma rotate_dests_slots_ok cfg index env disabled fs tb size fntime :
  slots_ok fs ->
  slots_ok (snd (fst (rotate_dests cfg index env disabled fs tb size fntime))).
Proof.
  intros (Hsys & H1 & H2 & H3 & H4 & H5). unfold rotate_dests.
  pose proof (logfile_rotate_dest_stderr cfg index (e_fopen env) tb size fntime
                (slot_sys fs) disabled Hsys) as Hsys'.
  repeat match goal with
  | |- context [logfile_rotate_dest ?a ?b ?c ?d ?e ?f ?g ?h ?i] =>
      let Hb := fresh "Hb" in
      pose proof (logfile_rotate_dest_slot_ok a b c d e f g h i) as Hb;
      destruct (logfile_rotate_dest a b c d e f g h i) as [[[? ?] ?] ?];
      cbn [fst snd] in Hb, Hsys'
  end.
  repeat (case_match; cbn [negb fst snd]).
  all: unfold slots_ok; cbn [slot_sys slot_csv slot_json slot_audit slot_slow].
  all: split_and!; auto.
Qed.

Lemma logfile_rotate_slots_ok cfg index env rot fs tb size :
  slots_ok fs -> slots_ok (snd (fst (logfile_rotate cfg index env rot fs tb size))).
Proof.
  intros Hok. unfold logfile_rotate.
  pose proof (rotate_dests_slots_ok cfg index env (rotation_disabled rot) fs tb size
                (rotation_fntime env rot tb) Hok) as Hb.
  destruct (rotate_dests _ _ _ _ _ _ _ _) as [[[ok d] fs'] out]. cbn [fst snd] in Hb.
  by destruct ok.
Qed.

Lemma service_rotation_slots_ok t st st1 out :
  slots_ok (slots st) -> service_rotation t st = (Some st1, out) -> slots_ok (slots st1).
Proof.
  intros Hok. unfold service_rotation.
  match goal with |- context [handle_reload t ?s] =>
    pose proof (handle_reload_slots t s) as Hsl;
    destruct (handle_reload t s) as [st2 out_reload] end.
  cbn [fst snd slots with_rot] in Hsl.
  destruct (check_triggers t st2) as [[[now' requested] tb] size].
  destruct requested.
  - destruct (polar_remove_old_syslog_files _ _) as [out_sweep|] eqn:Hsw; [|done].
    match goal with |- context [logfile_rotate ?a ?b ?c ?d ?e ?f ?g] =>
      pose proof (logfile_rotate_slots_ok a b c d e f g) as Hb;
      destruct (logfile_rotate a b c d e f g) as [[r3 fs3] out_rot] end.
    cbn [fst snd] in Hb. intros [= <- <-]. cbn [slots with_rot]. apply Hb. by rewrite Hsl.
  - intros [= <- <-]. cbn [slots with_rot]. by rewrite Hsl.
Qed.

Lemma get_logfile_open (fs : file_slots) (destination : Z) :
  is_Some (logFile (slot_sys fs)) -> is_Some (get_logfile_from_dest fs destination).
Proof.
  intros Hsys. unfold get_logfile_from_dest.
  repeat (case_match; [match goal with Hc : _ && _ = true |- _ =>
                         apply andb_true_iff in Hc as [_ Hc];
                         by apply bool_decide_eq_true in Hc end|]).
  done.
Qed.

Lemma rotation_call_has_stream (out : list io) :
  Forall rotation_call out -> Forall (fun e => has_stream e = true) out.
Proof. intros Hc. eapply Forall_impl; [exact Hc|]. by intros []. Qed.

Lemma service_input_has_stream t st s out :
  is_Some (logFile (slot_sys (slots st))) ->
  service_input t st = (s, out) -> Forall (fun e => has_stream e = true) out.
Proof.
  intros Hsys.
  assert (Hw : forall ws, Forall (fun e => has_stream e = true)
                            (write_syslogger_file (slots st) <$> ws)).
  { intros ws. apply Forall_fmap, Forall_true. intros w.
    unfold write_syslogger_file. simpl.
    by destruct (get_logfile_open (slots st) (w_dest w) Hsys) as [f ->]. }
  assert (Hf : forall d, has_stream (flush_syslogger_file (slots st) d) = true).
  { intros d. unfold flush_syslogger_file. simpl.
    by destruct (get_logfile_open (slots st) d Hsys) as [f ->]. }
  unfold service_input. destruct (cur_timeout _ _ _) as [timeout armed].
  destruct (t_wait t) as [| |[e|data]].
  - intros [= <- <-]. by repeat constructor.
  - intros [= <- <-]. by repeat constructor.
  - intros [= <- <-]. constructor; [done|]. destruct e; by repeat constructor.
  - destruct (0 <? _).
    + destruct (process_pipe_input _ _) as [[[bl w] rest]| |]; intros [= <- <-];
        [|by repeat constructor..].
      constructor; [done|]. apply Hw.
    + unfold flush_pipe_input. destruct (negb _); intros [= <- <-].
      * constructor; [done|]. apply Forall_app. split; [apply Hw|by repeat constructor].
      * constructor; [done|]. rewrite !Forall_app. split_and!; [apply Hw|apply Hw|].
        by repeat constructor.
Qed.

Lemma loop_pass_slots_ok t st s out :
  slots_ok (slots st) -> loop_pass t st = (s, out) ->
  Forall (fun e => has_stream e = true) out
  /\ forall st', step_state s = Some st' -> slots_ok (slots st').
Proof.
  intros Hok. unfold loop_pass.
  destruct (service_rotation t st) as [[st1|] out1] eqn:Hs.
  - destruct (service_input t st1) as [s2 out2] eqn:Hi. intros [= <- <-].
    pose proof (service_rotation_slots_ok _ _ _ _ Hok Hs) as Hok1.
    split.
    + apply Forall_app. split.
      * apply rotation_call_has_stream. by apply (service_rotation_calls t st (Some st1)).
      * apply (service_input_has_stream t st1 s2); [|done]. apply Hok1.
    + intros st' Hst. by rewrite (service_input_slots _ _ _ _ _ Hi Hst).
  - intros [= <- <-]. split.
    + apply rotation_call_has_stream. by apply (service_rotation_calls t st None).
    + by intros st' [= <-].
Qed.

(** X6: if the loop is entered with [syslogFile] open and, for each of
    the five destinations, the recorded file name being the path of the
    open stream (none when there is no stream), this stays so after
    every pass, whatever the configuration reloads, rotations and open
    failures of the run; and every [fwrite] and [fflush] of the run is
    given an open stream, never NULL. *)
Theorem file_variables_stay_in_order (ticks : list tick) (st : logger) (s : step)
    (out : list io) :
  slots_ok (slots st) ->
  main_loop ticks st = (s, out) ->
  Forall (fun e => has_stream e = true) out
  /\ forall st', step_state s = Some st' -> slots_ok (slots st').
Proof.
  revert st s out. induction ticks as [|t ticks IH]; intros st s out Hok.
  - intros [= <- <-]. split; [done|]. by intros st' [= <-].
  - cbn [main_loop]. destruct (loop_pass t st) as [s1 out1] eqn:Hpass.
    destruct (loop_pass_slots_ok _ _ _ _ Hok Hpass) as [Hout Hst].
    destruct s1 as [st1|st1|st1|].
    + destruct (main_loop ticks st1) as [s2 out2] eqn:Hrest. intros [= <- <-].
      destruct (IH st1 s2 out2 (Hst st1 eq_refl) Hrest) as [Hout2 Hst2].
      split; [by apply Forall_app|done].
    + by intros [= <- <-].
    + by intros [= <- <-].
    + by intros [= <- <-].
Qed.

End Streams.

Section StreamScenarios.
Local Existing Instance sample_headers.
Local Existing Instance sample_time.


Lemma file_variables_stay_in_order_witness :
  exists s out,
    slots_ok (slots plain_logger)
    /\ main_loop rotation_due plain_logger = (s, out)
    /\ Forall (fun e => has_stream e = true) out
    /\ forall st', step_state s = Some st' -> slots_ok (slots st').
Proof.
  assert (Hok : slots_ok (slots plain_logger)).
  { unfold slots_ok, slot_ok. simpl. split_and!; try reflexivity. by eexists. }
  exists (fst (main_loop rotation_due plain_logger)),
         (snd (main_loop rotation_due plain_logger)).
  split; [exact Hok|]. split; [by destruct (main_loop rotation_due plain_logger)|].
  exact (file_variables_stay_in_order rotation_due plain_logger _ _ Hok
           (surjective_pairing _)).
Defined.

End StreamScenarios.


(** ** Rotation and the configuration *)

Section RotationConfig.
Context `{SysloggerHeaders} `{TimeLibrary}.

(** Every slot of the result of [rotate_dests] is the slot as it was or
    what [logfile_rotate_dest] made of it. *)
Lemma rotate_dests_slot cfg index env disabled fs tb size fntime d pick :
  (d, pick) ∈ all_slots ->
  pick (snd (fst (rotate_dests cfg index env disabled fs tb size fntime))) = pick fs
  \/ exists dis,
       pick (snd (fst (rotate_dests cfg index env disabled fs tb size fntime)))
       = snd (fst (fst (logfile_rotate_dest cfg index (e_fopen env) tb size fntime d
                          (pick fs) dis))).
Proof.
  intros Hin. unfold rotate_dests.
  repeat match goal with
  | |- context [logfile_rotate_dest ?a ?b ?c ?d ?e ?f ?g ?h ?i] =>
      let Hb := fresh "Hb" in
      let r := fresh "r" in
      remember (logfile_rotate_dest a b c d e f g h i) as r eqn:Hb;
      destruct r as [[[? ?] ?] ?]
  end.
  unfold all_slots, structured_destinations in Hin.
  repeat (apply elem_of_cons in Hin as [[= -> ->]|Hin]);
    [..|by apply elem_of_nil in Hin].
  all: repeat (case_match; cbn [negb fst snd slot_sys slot_csv slot_json slot_audit slot_slow]).
  all: try (by left).
  all: right.
  all: match goal with
       | Hb : (_, ?s, _, _) = logfile_rotate_dest _ _ _ _ _ _ ?d ?sl ?dis |- context [?d] =>
           match goal with |- context [?s = _] => exists dis; by rewrite <- Hb end
       end.
Qed.


Lemma logfile_rotate_dest_open_ok cfg index fopen tb size fntime target slot disabled :
  (forall path mode, fopen path mode = None) ->
  exists slot' out,
    logfile_rotate_dest cfg index fopen tb size fntime target slot disabled
    = (true, slot', disabled, out).
Proof.
  intros Hopen.
  destruct (logfile_rotate_dest_cases cfg index fopen tb size fntime target slot disabled)
    as [[_ ->]|[(_ & _ & ->)|[(_ & e & He & _)|(_ & _ & ->)]]]; try by eexists _, _.
  by rewrite Hopen in He.
Qed.

(** When no open fails, [rotate_dests] gets through all five
    destinations. *)
Lemma rotate_dests_completes cfg index env disabled fs tb size fntime :
  (forall path mode, e_fopen env path mode = None) ->
  fst (fst (fst (rotate_dests cfg index env disabled fs tb size fntime))) = true
  /\ forall d pick, (d, pick) ∈ all_slots ->
       pick (snd (fst (rotate_dests cfg index env disabled fs tb size fntime)))
       = snd (fst (fst (logfile_rotate_dest cfg index (e_fopen env) tb size fntime d
                          (pick fs) disabled))).
Proof.
  intros Hopen. unfold rotate_dests.
  destruct (logfile_rotate_dest_open_ok cfg index (e_fopen env) tb size fntime
              LOG_DESTINATION_STDERR (slot_sys fs) disabled Hopen) as (s1 & o1 & E1).
  destruct (logfile_rotate_dest_open_ok cfg index (e_fopen env) tb size fntime
              LOG_DESTINATION_CSVLOG (slot_csv fs) disabled Hopen) as (s2 & o2 & E2).
  destruct (logfile_rotate_dest_open_ok cfg index (e_fopen env) tb size fntime
              LOG_DESTINATION_JSONLOG (slot_json fs) disabled Hopen) as (s3 & o3 & E3).
  destruct (logfile_rotate_dest_open_ok cfg index (e_fopen env) tb size fntime
              LOG_DESTINATION_POLAR_AUDITLOG (slot_audit fs) disabled Hopen) as (s4 & o4 & E4).
  destruct (logfile_rotate_dest_open_ok cfg index (e_fopen env) tb size fntime
              LOG_DESTINATION_POLAR_SLOWLOG (slot_slow fs) disabled Hopen) as (s5 & o5 & E5).
  rewrite E1, E2, E3, E4, E5.
  cbn [negb fst snd]. split; [done|].
  intros d pick Hin. unfold all_slots, structured_destinations in Hin.
  repeat (apply elem_of_cons in Hin as [[= -> ->]|Hin]);
    [..|by apply elem_of_nil in Hin].
  all: by rewrite ?E1, ?E2, ?E3, ?E4, ?E5.
Qed.

Lemma handle_reload_cfg t st new :
  t_reload t = Some new -> cfg (fst (handle_reload t st)) = new.
Proof. intros Hr. unfold handle_reload. by rewrite Hr. Qed.

(** A reload that leaves [rotation_requested] unset has found every
    structured destination's file open exactly if the destination is
    enabled. *)
Lemma handle_reload_agrees t st new d pick :
  t_reload t = Some new ->
  rotation_requested (rot (fst (handle_reload t st))) = false ->
  (d, pick) ∈ structured_destinations ->
  file_open (slots st) pick = dest_enabled new d.
Proof.
  intros Hr. unfold handle_reload. rewrite Hr. cbn [fst rot].
  destruct (rotation_disabled (rot st)); [done|]. cbn [rotation_requested].
  intros Hreq Hin.
  repeat (apply orb_false_iff in Hreq as [Hreq ?]).
  unfold structured_destinations in Hin.
  repeat (apply elem_of_cons in Hin as [[= -> ->]|Hin]);
    [..|by apply elem_of_nil in Hin].
  all: match goal with
       | Hf : negb (eqb ?a ?b) = false |- ?b = ?a =>
           apply negb_false_iff, eqb_prop in Hf; by rewrite Hf
       end.
Qed.

(** The size tests run only when nothing else asks for a rotation. *)
Lemma check_triggers_quiet t st now' requested tb size :
  check_triggers t st = (now', requested, tb, size) ->
  requested = false \/ size <> 0 ->
  rotation_requested (rot st) = false /\ tb = false.
Proof.
  unfold check_triggers.
  destruct (negb _ && _ && _) eqn:Hc.
  - intros [= _ _ <- _] _.
    apply andb_true_iff in Hc as [Hc _]. apply andb_true_iff in Hc as [Hc _].
    apply negb_true_iff, orb_false_iff in Hc. done.
  - intros [= _ <- <- <-] [Hreq|?]; [|done].
    apply orb_false_iff in Hreq. done.
Qed.

Lemma land_all_destinations (d : Z) (pick : file_slots -> file_slot) :
  (d, pick) ∈ all_slots -> Z.land all_destinations d = d.
Proof.
  intros Hin.
  assert (Hd : d = LOG_DESTINATION_STDERR \/ d = LOG_DESTINATION_CSVLOG
               \/ d = LOG_DESTINATION_JSONLOG \/ d = LOG_DESTINATION_POLAR_AUDITLOG
               \/ d = LOG_DESTINATION_POLAR_SLOWLOG).
  { unfold all_slots, structured_destinations in Hin.
    repeat (apply elem_of_cons in Hin as [[= -> _]|Hin]); auto 6.
    by apply elem_of_nil in Hin. }
  unfold all_destinations. apply Z.bits_inj'. intros n Hn.
  rewrite Z.land_spec, !Z.lor_spec.
  destruct Hd as [->|[->|[->|[->| ->]]]]; repeat (destruct (Z.testbit _ n)); done.
Qed.

(** X7: when a pass handles a configuration reload, no open fails and
    the sweep does not fail, then after the rotation half of the pass
    the file of every destination other than stderr is open exactly if
    the new configuration enables the destination: a destination
    switched on gets its file, one switched off has its file closed, in
    the same pass. *)
Theorem reload_takes_effect (t : tick) (st st' : logger) (new : config) (out : list io) :
  Forall (fun d => d.1 <> LOG_DESTINATION_STDERR) structured_destinations ->
  t_reload t = Some new ->
  (forall path mode, e_fopen (t_rotate t) path mode = None) ->
  service_rotation t st = (Some st', out) ->
  cfg st' = new
  /\ forall d pick, (d, pick) ∈ structured_destinations ->
       file_open (slots st') pick = dest_enabled new d.
Proof.
  intros Hconst Hr Hopen. unfold service_rotation.
  match goal with |- context [handle_reload t ?s] =>
    pose proof (handle_reload_cfg t s new Hr) as Hcfg;
    pose proof (handle_reload_slots t s) as Hsl;
    pose proof (fun d pick => handle_reload_agrees t s new d pick Hr) as Hagree;
    destruct (handle_reload t s) as [st2 out_reload] end.
  cbn [fst snd slots with_rot] in Hcfg, Hsl, Hagree.
  destruct (check_triggers t st2) as [[[now' requested] tb] size] eqn:Htrig.
  destruct requested.
  - destruct (polar_remove_old_syslog_files _ _) as [out_sweep|]; [|done].
    set (size' := if negb tb && (size =? 0) then all_destinations else size).
    unfold logfile_rotate.
    destruct (rotate_dests_completes (cfg st2) (MyLoggerIndex st2) (t_rotate t)
                (rotation_disabled (rot st2)) (slots st2) tb size'
                (rotation_fntime (t_rotate t)
                   {| next_rotation_time := next_rotation_time (rot st2);
                      rotation_disabled := rotation_disabled (rot st2);
                      rotation_requested := true |} tb) Hopen) as [Hok Hslots].
    cbn [rotation_disabled] in *.
    destruct (rotate_dests _ _ _ _ _ _ _ _) as [[[ok dis] fs'] out_rot].
    cbn [fst snd] in Hok, Hslots. subst ok. cbn [negb].
    intros [= <- <-]. cbn [cfg slots with_rot]. split; [done|].
    intros d pick Hin.
    assert (Hne : d <> LOG_DESTINATION_STDERR).
    { rewrite Forall_forall in Hconst. apply (Hconst (d, pick) Hin). }
    unfold file_open. rewrite (Hslots d pick) by (by right).
    match goal with |- context [logfile_rotate_dest ?a ?b ?c ?d ?e ?f ?g ?h ?i] =>
      destruct (logfile_rotate_dest_cases a b c d e f g h i)
        as [[Hc Hres]|[(Hc & Hskip & Hres)|[(_ & err & He & _)|(Hc & _ & Hres)]]]
    end.
    + cbn [rotation_disabled] in Hres. rewrite Hres. cbn [fst snd logFile].
      apply andb_true_iff in Hc as [Hc _]. unfold dest_enabled. rewrite <- Hcfg, Hc. done.
    + cbn [rotation_disabled] in Hres. rewrite Hres. cbn [fst snd].
      assert (Hen : dest_enabled new d = true).
      { apply andb_false_iff in Hc as [Hc|Hc].
        - unfold dest_enabled. by rewrite <- Hcfg, Hc.
        - apply negb_false_iff, Z.eqb_eq in Hc. done. }
      apply andb_true_iff in Hskip as [Htb Hsize].
      apply negb_true_iff in Htb. subst tb. apply Z.eqb_eq in Hsize.
      destruct (Z.eqb_spec size 0) as [Hz|Hnz].
      * (* an explicit request rotates every destination *)
        exfalso. subst size'. cbn [negb andb] in Hsize.
        rewrite (land_all_destinations d pick) in Hsize by (by right).
        unfold dest_enabled in Hen. rewrite Hsize, Z.land_0_r in Hen. done.
      * destruct (check_triggers_quiet _ _ _ _ _ _ Htrig (or_intror Hnz)) as [Hreq _].
        rewrite Hsl. fold (file_open (slots st) pick).
        by apply Hagree.
    + by rewrite Hopen in He.
    + cbn [rotation_disabled] in Hres. rewrite Hres. cbn [fst snd logFile].
      unfold dest_rotates in Hc. apply andb_true_iff in Hc as [Hc _].
      apply negb_true_iff, andb_false_iff in Hc as [Hc|Hc].
      * unfold dest_enabled. rewrite <- Hcfg, Hc. done.
      * apply negb_false_iff, Z.eqb_eq in Hc. done.
  - intros [= <- <-]. cbn [cfg slots with_rot]. split; [done|].
    intros d pick Hin.
    destruct (check_triggers_quiet _ _ _ _ _ _ Htrig (or_introl eq_refl)) as [Hreq _].
    rewrite Hsl. by apply Hagree.
Qed.


(** *** Rotation by size *)

Lemma log_destinations_disjoint :
  log_destinations_ok = true ->
  Z.land LOG_DESTINATION_STDERR LOG_DESTINATION_CSVLOG = 0
  /\ Z.land LOG_DESTINATION_STDERR LOG_DESTINATION_JSONLOG = 0
  /\ Z.land LOG_DESTINATION_STDERR LOG_DESTINATION_POLAR_AUDITLOG = 0
  /\ Z.land LOG_DESTINATION_STDERR LOG_DESTINATION_POLAR_SLOWLOG = 0
  /\ Z.land LOG_DESTINATION_CSVLOG LOG_DESTINATION_JSONLOG = 0
  /\ Z.land LOG_DESTINATION_CSVLOG LOG_DESTINATION_POLAR_AUDITLOG = 0
  /\ Z.land LOG_DESTINATION_CSVLOG LOG_DESTINATION_POLAR_SLOWLOG = 0
  /\ Z.land LOG_DESTINATION_JSONLOG LOG_DESTINATION_POLAR_AUDITLOG = 0
  /\ Z.land LOG_DESTINATION_JSONLOG LOG_DESTINATION_POLAR_SLOWLOG = 0
  /\ Z.land LOG_DESTINATION_POLAR_AUDITLOG LOG_DESTINATION_POLAR_SLOWLOG = 0.
Proof.
  unfold log_destinations_ok, log_destination_list. intros Hok.
  apply andb_true_iff in Hok as [_ Hok]. cbn [pairwise_disjoint forallb] in Hok.
  repeat match goal with
  | Hb : _ && _ = true |- _ => apply andb_true_iff in Hb as [? ?]
  | Hb : (_ =? _) = true |- _ => apply Z.eqb_eq in Hb
  end.
  done.
Qed.

Lemma log_destinations_nonzero (d : Z) :
  log_destinations_ok = true -> d ∈ log_destination_list -> d <> 0.
Proof.
  unfold log_destinations_ok. intros Hok Hin.
  apply andb_true_iff in Hok as [Hok _].
  rewrite forallb_forall in Hok. specialize (Hok d).
  rewrite <- list_elem_of_In in Hok. apply Hok in Hin.
  by apply negb_true_iff, Z.eqb_neq in Hin.
Qed.

Lemma all_slots_destination (d : Z) (pick : file_slots -> file_slot) :
  (d, pick) ∈ all_slots -> d ∈ log_destination_list.
Proof.
  unfold all_slots, structured_destinations, log_destination_list. intros Hin.
  repeat (apply elem_of_cons in Hin as [[= -> _]|Hin]); [..|by apply elem_of_nil in Hin].
  all: repeat constructor.
Qed.

Lemma land_size_bit (b : bool) (x acc d : Z) :
  Z.land (size_bit b x acc) d
  = if b then Z.lor (Z.land acc d) (Z.land x d) else Z.land acc d.
Proof. unfold size_bit. destruct b; [|done]. apply Z.land_lor_distr_l. Qed.

(** The bit of a destination whose file is below the limit is not in
    [size_rotation_for]. *)
Lemma check_triggers_size t st now' requested tb size d pick :
  log_destinations_ok = true ->
  check_triggers t st = (now', requested, tb, size) ->
  (d, pick) ∈ all_slots ->
  too_big t (cfg st) (logFile (pick (slots st))) = false ->
  Z.land size d = 0.
Proof.
  intros Hok Htrig Hin Hsmall.
  destruct (log_destinations_disjoint Hok)
    as (D1 & D2 & D3 & D4 & D5 & D6 & D7 & D8 & D9 & D10).
  revert Htrig. unfold check_triggers.
  destruct (negb _ && _ && _); [|by intros [= _ _ _ <-]].
  intros [= _ _ _ <-].
  rewrite !land_size_bit, Z.land_0_l.
  unfold all_slots, structured_destinations in Hin.
  repeat (apply elem_of_cons in Hin as [[= -> ->]|Hin]); [..|by apply elem_of_nil in Hin].
  all: rewrite Hsmall, ?andb_false_r.
  all: rewrite ?D1, ?D2, ?D3, ?D4, ?D5, ?D6, ?D7, ?D8, ?D9, ?D10.
  all: rewrite ?(Z.land_comm LOG_DESTINATION_CSVLOG LOG_DESTINATION_STDERR),
         ?(Z.land_comm LOG_DESTINATION_JSONLOG LOG_DESTINATION_STDERR),
         ?(Z.land_comm LOG_DESTINATION_POLAR_AUDITLOG LOG_DESTINATION_STDERR),
         ?(Z.land_comm LOG_DESTINATION_POLAR_SLOWLOG LOG_DESTINATION_STDERR),
         ?(Z.land_comm LOG_DESTINATION_JSONLOG LOG_DESTINATION_CSVLOG),
         ?(Z.land_comm LOG_DESTINATION_POLAR_AUDITLOG LOG_DESTINATION_CSVLOG),
         ?(Z.land_comm LOG_DESTINATION_POLAR_SLOWLOG LOG_DESTINATION_CSVLOG),
         ?(Z.land_comm LOG_DESTINATION_POLAR_AUDITLOG LOG_DESTINATION_JSONLOG),
         ?(Z.land_comm LOG_DESTINATION_POLAR_SLOWLOG LOG_DESTINATION_JSONLOG),
         ?(Z.land_comm LOG_DESTINATION_POLAR_SLOWLOG LOG_DESTINATION_POLAR_AUDITLOG).
  all: rewrite ?D1, ?D2, ?D3, ?D4, ?D5, ?D6, ?D7, ?D8, ?D9, ?D10.
  all: repeat (case_match; cbn [Z.lor]); done.
Qed.

(** A size test that succeeds sets a bit. *)
Lemma check_triggers_bit t st now' tb size :
  log_destinations_ok = true ->
  rotation_requested (rot st) = false ->
  check_triggers t st = (now', true, tb, size) -> tb = false -> size <> 0.
Proof.
  intros Hok Hreq Htrig ->. revert Htrig. unfold check_triggers. rewrite Hreq.
  destruct (negb _ && _ && _) eqn:Hc.
  - intros [= _ Hb Htb <-].
    assert (Hnz : forall d, d ∈ log_destination_list -> d <> 0).
    { intros d. by apply log_destinations_nonzero. }
    assert (Hbit : forall b x acc, x ∈ log_destination_list ->
                     size_bit b x acc = 0 -> b = false /\ acc = 0).
    { intros b x acc Hx. unfold size_bit. destruct b; [|done].
      intros [_ ?]%Z.lor_eq_0_iff. by apply Hnz in Hx. }
    intros Hz.
    apply Hbit in Hz as [B5 Hz]; [|unfold log_destination_list; repeat constructor].
    apply Hbit in Hz as [B4 Hz]; [|unfold log_destination_list; repeat constructor].
    apply Hbit in Hz as [B3 Hz]; [|unfold log_destination_list; repeat constructor].
    apply Hbit in Hz as [B2 Hz]; [|unfold log_destination_list; repeat constructor].
    apply Hbit in Hz as [B1 Hz]; [|unfold log_destination_list; repeat constructor].
    rewrite B1, B2, B3, B4, B5 in Hb. done.
  - intros [= _ Hb Htb _]. by rewrite Htb in Hb.
Qed.

(** X8: in a pass without reload, SIGUSR1 or pending request, before the
    next time-based rotation is due, the size tests may start a
    rotation; it leaves alone the file of every enabled destination
    (and the stderr file) that is below [Log_RotationSize] kilobytes:
    the destination keeps its stream and its recorded name. *)
Theorem size_rotation_spares_small_files (t : tick) (st st' : logger) (out : list io)
    (d : Z) (pick : file_slots -> file_slot) :
  log_destinations_ok = true ->
  t_reload t = None -> t_sigusr1 t = false -> rotation_requested (rot st) = false ->
  t_time t < next_rotation_time (rot st) ->
  service_rotation t st = (Some st', out) ->
  (d, pick) ∈ all_slots ->
  dest_enabled (cfg st) d = true \/ d = LOG_DESTINATION_STDERR ->
  too_big t (cfg st) (logFile (pick (slots st))) = false ->
  pick (slots st') = pick (slots st).
Proof.
  intros Hok Hreload Hsig Hreq Htime Hrun Hin Hen Hsmall.
  revert Hrun. unfold service_rotation.
  rewrite handle_reload_none by done.
  rewrite Hreq, Hsig. cbn [orb].
  match goal with |- context [check_triggers t ?s] => set (st1 := s) end.
  destruct (check_triggers t st1) as [[[now' requested] tb] size] eqn:Htrig.
  assert (Htb : tb = false).
  { revert Htrig. unfold check_triggers. cbn [cfg rot st1 with_rot rotation_disabled
      next_rotation_time rotation_requested now].
    destruct ((0 <? Log_RotationAge (cfg st)) && negb (rotation_disabled (rot st))).
    - destruct (Z.leb_spec (next_rotation_time (rot st)) (t_time t)); [lia|].
      cbn [andb orb negb]. by destruct (_ && _); intros [= _ _ <- _].
    - cbn [andb orb negb]. by destruct (_ && _); intros [= _ _ <- _]. }
  subst tb.
  destruct requested; [|by intros [= <- _]].
  assert (Hsize : Z.land size d = 0).
  { by apply (check_triggers_size t st1 now' true false size d pick). }
  assert (Hnz : size <> 0).
  { by apply (check_triggers_bit t st1 now' false size). }
  destruct (polar_remove_old_syslog_files _ _) as [out_sweep|]; [|done].
  apply Z.eqb_neq in Hnz. rewrite Hnz. cbn [negb andb].
  unfold logfile_rotate.
  match goal with |- context [rotate_dests ?a ?b ?c ?d0 ?e ?f ?g ?h] =>
    pose proof (rotate_dests_slot a b c d0 e f g h d pick Hin) as Hslot;
    destruct (rotate_dests a b c d0 e f g h) as [[[ok dis] fs'] out_rot]
  end.
  cbn [fst snd] in Hslot.
  assert (Hgoal : pick fs' = pick (slots st)).
  { destruct Hslot as [-> | [dis' ->]]; [done|].
    match goal with |- context [logfile_rotate_dest ?a ?b ?c ?d0 ?e ?f ?g ?h ?i] =>
      destruct (logfile_rotate_dest_cases a b c d0 e f g h i)
        as [[Hc Hres]|[(Hc & Hskip & Hres)|[(_ & err & _ & Hres)|(Hc & _ & Hres)]]]
    end.
    - exfalso. apply andb_true_iff in Hc as [Hc1 Hc2].
      destruct Hen as [Hen | ->].
      + unfold dest_enabled in Hen. cbn [cfg st1 with_rot] in Hc1. by rewrite Hc1 in Hen.
      + by rewrite Z.eqb_refl in Hc2.
    - by rewrite Hres.
    - by rewrite Hres.
    - exfalso. unfold dest_rotates in Hc. apply andb_true_iff in Hc as [_ Hc].
      apply Z.eqb_eq in Hsize. by rewrite Hsize in Hc. }
  by destruct ok; intros [= <- _].
Qed.

End RotationConfig.

Section RotationConfigScenarios.
Local Existing Instance sample_headers.
Local Existing Instance sample_time.

Lemma reload_takes_effect_witness :
  exists st' out,
    Forall (fun d => d.1 <> LOG_DESTINATION_STDERR) structured_destinations
    /\ t_reload (reload_tick 1001 dated_config) = Some dated_config
    /\ (forall path mode, e_fopen (t_rotate (reload_tick 1001 dated_config)) path mode = None)
    /\ service_rotation (reload_tick 1001 dated_config) plain_logger = (Some st', out)
    /\ cfg st' = dated_config
    /\ forall d pick, (d, pick) ∈ structured_destinations ->
         file_open (slots st') pick = dest_enabled dated_config d.
Proof.
  assert (Hconst : Forall (fun d => d.1 <> LOG_DESTINATION_STDERR) structured_destinations).
  { repeat constructor; discriminate. }
  assert (Hopen : forall path mode,
            e_fopen (t_rotate (reload_tick 1001 dated_config)) path mode = None).
  { intros path mode. reflexivity. }
  assert (Hrun : exists st' out,
            service_rotation (reload_tick 1001 dated_config) plain_logger = (Some st', out)).
  { eexists _, _. vm_compute. reflexivity. }
  destruct Hrun as (st' & out & Hrun).
  exists st', out. split; [exact Hconst|]. split; [reflexivity|]. split; [exact Hopen|].
  split; [exact Hrun|].
  exact (reload_takes_effect (reload_tick 1001 dated_config) plain_logger st' dated_config out
           Hconst eq_refl Hopen Hrun).
Defined.

Lemma size_rotation_spares_small_files_witness :
  exists st' out,
    log_destinations_ok = true
    /\ t_reload (csv_full_tick 1001) = None /\ t_sigusr1 (csv_full_tick 1001) = false
    /\ rotation_requested (rot sized_logger) = false
    /\ t_time (csv_full_tick 1001) < next_rotation_time (rot sized_logger)
    /\ service_rotation (csv_full_tick 1001) sized_logger = (Some st', out)
    /\ (LOG_DESTINATION_STDERR, slot_sys) ∈ all_slots
    /\ (dest_enabled (cfg sized_logger) LOG_DESTINATION_STDERR = true
        \/ LOG_DESTINATION_STDERR = LOG_DESTINATION_STDERR)
    /\ too_big (csv_full_tick 1001) (cfg sized_logger)
         (logFile (slot_sys (slots sized_logger))) = false
    /\ slot_sys (slots st') = slot_sys (slots sized_logger).
Proof.
  assert (Hrun : exists st' out,
            service_rotation (csv_full_tick 1001) sized_logger = (Some st', out)).
  { eexists _, _. vm_compute. reflexivity. }
  destruct Hrun as (st' & out & Hrun).
  assert (Hin : (LOG_DESTINATION_STDERR, slot_sys) ∈ all_slots) by (by left).
  assert (Hen : dest_enabled (cfg sized_logger) LOG_DESTINATION_STDERR = true
                \/ LOG_DESTINATION_STDERR = LOG_DESTINATION_STDERR) by (by right).
  assert (Htime : t_time (csv_full_tick 1001) < next_rotation_time (rot sized_logger)).
  { vm_compute. reflexivity. }
  exists st', out. split; [reflexivity|]. split; [reflexivity|]. split; [reflexivity|].
  split; [reflexivity|]. split; [exact Htime|]. split; [exact Hrun|]. split; [exact Hin|].
  split; [exact Hen|]. split; [reflexivity|].
  exact (size_rotation_spares_small_files (csv_full_tick 1001) sized_logger st' out
           LOG_DESTINATION_STDERR slot_sys eq_refl eq_refl eq_refl eq_refl Htime Hrun Hin Hen
           eq_refl).
Defined.

(** The same pass does reopen the csv file, which is over the limit. *)
Example csv_rotated_by_size :
  exists st' out,
    service_rotation (csv_full_tick 1001) sized_logger = (Some st', out)
    /\ filter (fun e => is_open e = true) out = [IoOpen "log/pg-1001.csv" mode_a None].
Proof. eexists _, _. split; vm_compute; reflexivity. Qed.

End RotationConfigScenarios.


(** ** The clock of the rotation *)

Section RotationClock.
Context `{SysloggerHeaders} `{TimeLibrary}.

(** X9: with a positive [Log_RotationAge] of at most [INT_MAX / 60]
    minutes, so that the interval in seconds fits its [int], and for a
    clock reading that is not before the epoch in local time,
    [set_next_rotation_time] picks the first instant after the reading
    that is a whole multiple of the rotation interval in local time: it
    is later than the reading, at most one interval later, and no such
    multiple lies in between. *)
Theorem next_rotation_is_first_boundary (cfg : config) (now old t : Z) :
  0 < Log_RotationAge cfg <= INT_MAX / 60 ->
  0 <= now + tm_gmtoff now ->
  now < set_next_rotation_time cfg now old <= now + Log_RotationAge cfg * 60
  /\ (set_next_rotation_time cfg now old + tm_gmtoff now) mod (Log_RotationAge cfg * 60) = 0
  /\ (now < t -> (t + tm_gmtoff now) mod (Log_RotationAge cfg * 60) = 0 ->
      set_next_rotation_time cfg now old <= t).
Proof.
  intros Hage Hlocal. unfold set_next_rotation_time.
  destruct (Z.leb_spec (Log_RotationAge cfg) 0); [lia|].
  rewrite rotinterval_of_fits by lia.
  set (i := Log_RotationAge cfg * 60). set (g := tm_gmtoff now).
  assert (Hi : 0 < i) by (unfold i; lia).
  rewrite Z.rem_mod_nonneg by lia.
  pose proof (Z.mod_pos_bound (now + g) i Hi) as Hm.
  pose proof (Z.div_mod (now + g) i ltac:(lia)) as Hdm.
  split; [lia|]. split.
  - replace (now + g - (now + g) mod i + i - g + g) with (((now + g) / i + 1) * i) by lia.
    apply Z.mod_mul. lia.
  - intros Ht Hal.
    apply Z.mod_divide in Hal as [k Hk]; [|lia].
    assert (Hk' : (now + g) / i < k) by nia.
    nia.
Qed.

(** X10: the timeout the loop hands to its wait, in milliseconds, fits
    an [int]: it is -1 exactly when the timeout is not armed, and
    otherwise it is not negative, not above [INT_MAX], and not longer
    than the time left until [next_rotation_time]. *)
Theorem cur_timeout_fits_int (c : config) (r : rotation_state) (now : Z) :
  let '(timeout, armed) := cur_timeout c r now in
  (armed = false -> timeout = -1)
  /\ (armed = true ->
      0 <= timeout <= INT_MAX
      /\ timeout <= 1000 * Z.max 0 (next_rotation_time r - now)
      /\ (timeout < 1000 * Z.max 0 (next_rotation_time r - now) ->
          timeout = INT_MAX / 1000 * 1000)).
Proof.
  unfold cur_timeout, INT_MAX.
  destruct (_ && _); [|done].
  destruct (Z.ltb_spec 0 (next_rotation_time r - now)); [|split; [done|]; lia].
  change (2147483647 / 1000) with 2147483.
  destruct (Z.ltb_spec 2147483 (next_rotation_time r - now)); split; (done || lia).
Qed.

(** X11: while rotation is disabled, a pass that brings no reload and no
    SIGUSR1 and finds no rotation request pending does nothing in its
    rotation half: neither the clock nor the size of a file starts a
    rotation or a sweep, no call is made, and the file variables and
    the rotation state stay as they are. *)
Theorem disabled_rotation_is_quiet (t : tick) (st : logger) :
  rotation_disabled (rot st) = true ->
  t_reload t = None -> t_sigusr1 t = false -> rotation_requested (rot st) = false ->
  exists st',
    service_rotation t st = (Some st', [])
    /\ slots st' = slots st /\ rot st' = rot st /\ cfg st' = cfg st /\ now st' = now st.
Proof.
  intros Hdis Hreload Hsig Hreq. unfold service_rotation.
  rewrite handle_reload_none by done.
  unfold check_triggers. cbn [cfg rot slots now with_rot rotation_disabled
    rotation_requested next_rotation_time].
  rewrite Hdis, Hreq, Hsig. cbn [negb andb orb]. rewrite !andb_false_r. cbn [negb andb orb].
  eexists. split; [reflexivity|]. cbn [slots rot cfg now with_rot].
  split_and!; try done.
  destruct (rot st); simpl in *. congruence.
Qed.

End RotationClock.

Section RotationClockScenarios.
Local Existing Instance sample_headers.
Local Existing Instance sample_time.

Lemma next_rotation_is_first_boundary_witness :
  0 < Log_RotationAge plain_config <= INT_MAX / 60
  /\ 0 <= 1000 + tm_gmtoff 1000
  /\ 1000 < set_next_rotation_time plain_config 1000 0
          <= 1000 + Log_RotationAge plain_config * 60
  /\ (set_next_rotation_time plain_config 1000 0 + tm_gmtoff 1000)
       mod (Log_RotationAge plain_config * 60) = 0
  /\ (1000 < 1080 -> (1080 + tm_gmtoff 1000) mod (Log_RotationAge plain_config * 60) = 0 ->
      set_next_rotation_time plain_config 1000 0 <= 1080).
Proof.
  assert (Hage : 0 < Log_RotationAge plain_config <= INT_MAX / 60)
    by (vm_compute; split; congruence).
  assert (Hlocal : 0 <= 1000 + tm_gmtoff 1000) by (vm_compute; discriminate).
  split; [exact Hage|]. split; [exact Hlocal|].
  exact (next_rotation_is_first_boundary plain_config 1000 0 1080 Hage Hlocal).
Defined.

(** Beyond [INT_MAX / 60] minutes the interval in seconds wraps around:
    with 40000000 minutes it is negative, and the time picked for the
    next rotation lies before the epoch. *)
Example wrapped_interval_is_in_the_past :
  rotinterval_of 40000000 = -1894967296
  /\ set_next_rotation_time long_age_config 1700000000 0 = -1894996096.
Proof. split; vm_compute; reflexivity. Qed.

Lemma disabled_rotation_is_quiet_witness :
  rotation_disabled (rot disabled_logger) = true
  /\ t_reload (quiet_tick 1020) = None /\ t_sigusr1 (quiet_tick 1020) = false
  /\ rotation_requested (rot disabled_logger) = false
  /\ exists st',
       service_rotation (quiet_tick 1020) disabled_logger = (Some st', [])
       /\ slots st' = slots disabled_logger /\ rot st' = rot disabled_logger
       /\ cfg st' = cfg disabled_logger /\ now st' = now disabled_logger.
Proof.
  split; [reflexivity|]. split; [reflexivity|]. split; [reflexivity|]. split; [reflexivity|].
  exact (disabled_rotation_is_quiet (quiet_tick 1020) disabled_logger
           eq_refl eq_refl eq_refl eq_refl).
Defined.

End RotationClockScenarios.


(** ** C strings *)

Section CStrings.

Lemma length_append (s1 s2 : string) :
  String.length (String.append s1 s2) = (String.length s1 + String.length s2)%nat.
Proof. induction s1 as [|a s1 IH]; simpl; [done|]. by rewrite IH. Qed.

Lemma length_substring_le (n m : nat) (s : string) :
  (String.length (String.substring n m s) <= m)%nat.
Proof.
  revert n m. induction s as [|a s IH]; intros n m.
  - destruct n, m; simpl; lia.
  - destruct n as [|n].
    + destruct m as [|m]; simpl; [lia|]. specialize (IH 0%nat m). lia.
    + simpl. apply IH.
Qed.

Lemma substring_0_all (n : nat) (s : string) :
  (String.length s <= n)%nat -> String.substring 0 n s = s.
Proof.
  revert n. induction s as [|a s IH]; intros n Hn.
  - by destruct n.
  - destruct n as [|n]; simpl in *; [lia|]. rewrite IH; [done|lia].
Qed.

Lemma substring_0_append (s1 s2 : string) :
  String.substring 0 (String.length s1) (String.append s1 s2) = s1.
Proof. induction s1 as [|a s1 IH]; simpl; [by destruct s2|]. by rewrite IH. Qed.

Lemma substring_end_append (s1 s2 : string) :
  String.substring (String.length s1) (String.length s2) (String.append s1 s2) = s2.
Proof.
  induction s1 as [|a s1 IH]; simpl; [|done].
  apply substring_0_all. lia.
Qed.

Lemma append_nil_l (s : string) : String.append EmptyString s = s.
Proof. reflexivity. Qed.

Lemma append_cons (a : ascii) (s1 s2 : string) :
  String.append (String a s1) s2 = String a (String.append s1 s2).
Proof. reflexivity. Qed.

Lemma substring_split (n : nat) (s : string) :
  (n <= String.length s)%nat ->
  s = String.append (String.substring 0 n s) (String.substring n (String.length s - n) s).
Proof.
  revert n. induction s as [|a s IH]; intros n Hn.
  - by destruct n.
  - destruct n as [|n]; simpl in *.
    + rewrite append_nil_l. f_equal. symmetry. apply substring_0_all. lia.
    + rewrite append_cons. f_equal. apply IH. lia.
Qed.

Lemma append_assoc (s1 s2 s3 : string) :
  String.append (String.append s1 s2) s3 = String.append s1 (String.append s2 s3).
Proof. induction s1 as [|a s1 IH]; [done|]. by rewrite !append_cons, IH. Qed.

Lemma append_nil_r (s : string) : String.append s EmptyString = s.
Proof. induction s as [|a s IH]; [done|]. by rewrite append_cons, IH. Qed.

Lemma strlen_c_trunc (size : Z) (s : string) : strlen (c_trunc size s) <= Z.max 0 (size - 1).
Proof.
  unfold strlen, c_trunc.
  pose proof (length_substring_le 0 (Z.to_nat (size - 1)) s). lia.
Qed.

Lemma c_trunc_fits (size : Z) (s : string) : strlen s < size -> c_trunc size s = s.
Proof. unfold strlen, c_trunc. intros Hs. apply substring_0_all. lia. Qed.

Lemma strlen_strlcpy_at (filename : string) (len : Z) (src : string) (size : Z) :
  0 <= len -> strlen (strlcpy_at filename len src size) <= len + Z.max 0 (size - 1).
Proof.
  intros Hlen. unfold strlcpy_at.
  pose proof (strlen_c_trunc size src) as Hc.
  pose proof (length_substring_le 0 (Z.to_nat len) filename) as Hs.
  unfold strlen in *. rewrite length_append. lia.
Qed.

Lemma strlcpy_at_fits (filename : string) (src : string) (size : Z) :
  strlen src < size ->
  strlcpy_at filename (strlen filename) src size = String.append filename src.
Proof.
  intros Hs. unfold strlcpy_at. rewrite c_trunc_fits by done.
  f_equal. apply substring_0_all. unfold strlen. lia.
Qed.

Lemma strlcpy_at_prefix (stem tail : string) (src : string) (size : Z) :
  strlen src < size ->
  strlcpy_at (String.append stem tail) (strlen stem) src size = String.append stem src.
Proof.
  intros Hs. unfold strlcpy_at. rewrite c_trunc_fits by done.
  f_equal. unfold strlen. rewrite Nat2Z.id. apply substring_0_append.
Qed.

End CStrings.

(** ** More on the retention sweep *)

Section SweepMore.
Context `{SysloggerHeaders}.

Lemma family_due_nonempty (cfg : config) (fam : family) (entries : list string) :
  family_due cfg fam entries = true -> family_files cfg fam entries <> [].
Proof.
  unfold family_due. intros Hdue Hnil. rewrite Hnil in Hdue. simpl in Hdue.
  apply andb_true_iff in Hdue as [?%Z.ltb_lt ?%Z.ltb_lt]. lia.
Qed.

(** Every victim is the least name of a family that is due. *)
Lemma sweep_victim_due (cfg : config) (entries : list string) (v : string) :
  EmptyString ∉ entries ->
  v ∈ sweep_victims cfg entries ->
  exists fam,
    family_due cfg fam entries = true
    /\ v = family_oldest fam (sweep_scan cfg entries)
    /\ v ∈ family_files cfg fam entries.
Proof.
  intros Hne Hv. rewrite sweep_victims_families in Hv by done.
  assert (Hmem : forall fam, family_due cfg fam entries = true ->
            family_oldest fam (sweep_scan cfg entries) ∈ family_files cfg fam entries).
  { intros fam Hdue. destruct (sweep_scan_family cfg entries fam Hne) as (_ & _ & Hmin).
    by destruct (Hmin (family_due_nonempty _ _ _ Hdue)). }
  destruct (family_due cfg FamAudit entries) eqn:Ha,
           (family_due cfg FamSlow entries) eqn:Hs,
           (family_due cfg FamLog entries) eqn:Hl; cbn [app] in Hv.
  all: repeat (apply elem_of_cons in Hv as [->|Hv]); try (by apply elem_of_nil in Hv).
  all: match goal with
       | |- context [family_oldest ?f _ = _] => exists f
       end; split_and!; [done|done|by apply Hmem].
Qed.

Lemma sweep_victims_length (cfg : config) (entries : list string) :
  EmptyString ∉ entries -> (length (sweep_victims cfg entries) <= 3)%nat.
Proof.
  intros Hne. rewrite sweep_victims_families by done.
  rewrite !length_app. repeat case_match; simpl; lia.
Qed.

(** X12: a sweep unlinks at most three files, and every path it hands to
    unlink is what [snprintf] leaves of [Log_directory], a slash and
    the name of a directory entry that begins with the fixed part of
    [Log_filename], is neither "." nor "..", and belongs to a family
    that holds more files than its positive maximum.  When the three
    parts have fewer than [MAXPGPATH] characters together the path is
    all of them, and then nothing but one of the collector's own log
    files is removed; a longer path is cut to [MAXPGPATH - 1]
    characters. *)
Theorem sweep_removes_only_log_files (cfg : config) (entries : list string) (out : list io) :
  EmptyString ∉ entries ->
  polar_remove_old_syslog_files cfg (Some entries) = Some out ->
  (length out <= 3)%nat
  /\ forall e, e ∈ out ->
       exists d_name fam,
         e = IoRemove (sweep_path cfg d_name)
         /\ (strlen (Log_directory cfg) + 1 + strlen d_name < MAXPGPATH ->
             sweep_path cfg d_name
             = String.append (Log_directory cfg) (String.append "/" d_name))
         /\ strlen (sweep_path cfg d_name) <= Z.max 0 (MAXPGPATH - 1)
         /\ d_name ∈ entries
         /\ String.prefix (log_prefix cfg) d_name = true
         /\ d_name <> "."%string /\ d_name <> ".."%string
         /\ in_family cfg fam d_name = true
         /\ family_due cfg fam entries = true.
Proof.
  intros Hne. unfold polar_remove_old_syslog_files.
  destruct (_ && _ && _).
  { intros [= <-]. split; [simpl; lia|]. intros e He. by apply elem_of_nil in He. }
  intros [= <-]. split.
  { rewrite length_fmap. by apply sweep_victims_length. }
  intros e He. apply list_elem_of_fmap in He as (v & -> & Hv).
  destruct (sweep_victim_due cfg entries v Hne Hv) as (fam & Hdue & _ & Hin).
  unfold family_files in Hin. apply list_elem_of_filter in Hin as [Hfam Hin].
  exists v, fam. split; [done|]. split.
  { intros Hfit. unfold sweep_path. apply c_trunc_fits.
    unfold strlen in *. rewrite !length_append. simpl. lia. }
  split; [apply strlen_c_trunc|]. split; [done|].
  pose proof Hfam as Hf. unfold in_family in Hf.
  apply andb_true_iff in Hf as [Hf _]. apply andb_true_iff in Hf as [Hdots Hpre].
  apply negb_true_iff, orb_false_iff in Hdots as [Hd1 Hd2].
  apply String.eqb_neq in Hd1, Hd2. done.
Qed.

(** What one sweep does to the size of a family. *)
Lemma sweep_family_step (cfg : config) (entries : list string) (fam : family) :
  EmptyString ∉ entries -> NoDup entries ->
  length (family_files cfg fam (after_sweep cfg entries))
  = if family_due cfg fam entries
    then Nat.pred (length (family_files cfg fam entries))
    else length (family_files cfg fam entries).
Proof.
  intros Hne Hnd.
  assert (Hcomm : family_files cfg fam (after_sweep cfg entries)
                  = filter (fun d => d ∉ sweep_victims cfg entries)
                      (family_files cfg fam entries)).
  { unfold family_files, after_sweep. rewrite !list_filter_filter.
    apply list_filter_iff. tauto. }
  assert (Hown : forall x, x ∈ family_files cfg fam entries ->
            x ∈ sweep_victims cfg entries ->
            family_due cfg fam entries = true
            /\ x = family_oldest fam (sweep_scan cfg entries)).
  { intros x Hx Hxv.
    destruct (sweep_victim_due cfg entries x Hne Hxv) as (fam' & Hdue & Heq & Hin).
    unfold family_files in Hx, Hin.
    apply list_elem_of_filter in Hx as [Hx _]. apply list_elem_of_filter in Hin as [Hin _].
    by rewrite (in_family_unique cfg fam fam' x Hx Hin). }
  rewrite Hcomm.
  destruct (family_due cfg fam entries) eqn:Hdue.
  - destruct (sweep_scan_family cfg entries fam Hne) as (_ & _ & Hmin).
    destruct (Hmin (family_due_nonempty _ _ _ Hdue)) as [Hin _].
    set (v := family_oldest fam (sweep_scan cfg entries)) in *.
    assert (Hv : v ∈ sweep_victims cfg entries).
    { rewrite sweep_victims_families by done. unfold v.
      destruct fam; rewrite Hdue; rewrite !elem_of_app;
        [right; right|left|right; left]; by left. }
    rewrite (filter_agree _ (fun x => x <> v)).
    + pose proof (length_filter_remove (family_files cfg fam entries) v
                    ltac:(by apply NoDup_filter) Hin) as Hlen.
      lia.
    + intros x Hx. split.
      * intros Hnot ->. done.
      * intros Hxv Hxin. apply Hxv. by destruct (Hown x Hx Hxin) as [_ ->].
  - f_equal. apply filter_all. intros x Hx Hxin.
    destruct (Hown x Hx Hxin) as [Hd _]. congruence.
Qed.

Lemma after_sweep_entries (cfg : config) (entries : list string) :
  EmptyString ∉ entries -> NoDup entries ->
  (EmptyString ∉ after_sweep cfg entries) /\ NoDup (after_sweep cfg entries).
Proof.
  intros Hne Hnd. unfold after_sweep. split.
  - intros Hin. by apply list_elem_of_filter in Hin as [_ ?].
  - by apply NoDup_filter.
Qed.

(** X13: sweeps in a row, with no file created in between, bring a
    family with a positive maximum down to that maximum one file at a
    time and then leave it alone: after [k] sweeps a family that had
    [n] files has [n - k] of them, but not fewer than the smaller of
    [n] and the maximum.  A family whose maximum is zero or negative
    keeps all its files. *)
Theorem sweeps_reach_the_maximum (cfg : config) (fam : family) (k : nat)
    (entries : list string) :
  EmptyString ∉ entries -> NoDup entries ->
  length (family_files cfg fam (sweeps cfg k entries))
  = if 0 <? family_max cfg fam
    then Nat.max (length (family_files cfg fam entries) - k)
           (Nat.min (length (family_files cfg fam entries)) (Z.to_nat (family_max cfg fam)))
    else length (family_files cfg fam entries).
Proof.
  revert entries. induction k as [|k IH]; intros entries Hne Hnd.
  - simpl. destruct (0 <? _); lia.
  - cbn [sweeps].
    destruct (after_sweep_entries cfg entries Hne Hnd) as [Hne' Hnd'].
    rewrite (IH _ Hne' Hnd'), (sweep_family_step cfg entries fam Hne Hnd).
    unfold family_due.
    destruct (Z.ltb_spec 0 (family_max cfg fam)); [|done].
    destruct (Z.ltb_spec (family_max cfg fam)
                (Z.of_nat (length (family_files cfg fam entries)))); simpl; lia.
Qed.

End SweepMore.

Section SweepMoreScenarios.
Local Existing Instance sample_headers.

Lemma sweep_removes_only_log_files_witness :
  (EmptyString ∉ five_files)
  /\ polar_remove_old_syslog_files capped_config (Some five_files) = Some [IoRemove "log/a"]
  /\ (length [IoRemove "log/a"] <= 3)%nat
  /\ forall e, e ∈ [IoRemove "log/a"] ->
       exists d_name fam,
         e = IoRemove (sweep_path capped_config d_name)
         /\ (strlen (Log_directory capped_config) + 1 + strlen d_name < MAXPGPATH ->
             sweep_path capped_config d_name
             = String.append (Log_directory capped_config) (String.append "/" d_name))
         /\ strlen (sweep_path capped_config d_name) <= Z.max 0 (MAXPGPATH - 1)
         /\ d_name ∈ five_files
         /\ String.prefix (log_prefix capped_config) d_name = true
         /\ d_name <> "."%string /\ d_name <> ".."%string
         /\ in_family capped_config fam d_name = true
         /\ family_due capped_config fam five_files = true.
Proof.
  assert (Hne : EmptyString ∉ five_files).
  { unfold five_files. rewrite !not_elem_of_cons. split_and!; try done.
    apply not_elem_of_nil. }
  assert (Hrun : polar_remove_old_syslog_files capped_config (Some five_files)
                 = Some [IoRemove "log/a"]) by (vm_compute; reflexivity).
  split; [exact Hne|]. split; [exact Hrun|].
  exact (sweep_removes_only_log_files capped_config five_files _ Hne Hrun).
Defined.

Lemma sweeps_reach_the_maximum_witness :
  (EmptyString ∉ five_files) /\ NoDup five_files
  /\ length (family_files capped_config FamLog (sweeps capped_config 4 five_files))
     = if 0 <? family_max capped_config FamLog
       then Nat.max (length (family_files capped_config FamLog five_files) - 4)
              (Nat.min (length (family_files capped_config FamLog five_files))
                 (Z.to_nat (family_max capped_config FamLog)))
       else length (family_files capped_config FamLog five_files).
Proof.
  assert (Hne : EmptyString ∉ five_files).
  { unfold five_files. rewrite !not_elem_of_cons. split_and!; try done.
    apply not_elem_of_nil. }
  assert (Hnd : NoDup five_files).
  { unfold five_files. repeat (apply NoDup_cons; split;
      [rewrite ?not_elem_of_cons; split_and?; (done || apply not_elem_of_nil)|]).
    apply NoDup_nil_2. }
  split; [exact Hne|]. split; [exact Hnd|].
  exact (sweeps_reach_the_maximum capped_config FamLog 4 five_files Hne Hnd).
Defined.

(** Four sweeps of the five files leave the three with the greatest
    names. *)
Example four_sweeps_of_five :
  sweeps capped_config 4 five_files = ["c"; "d"; "e"]%string.
Proof. vm_compute. reflexivity. Qed.

End SweepMoreScenarios.


(** ** The names of the log files *)

Section FileNames.
Context `{SysloggerHeaders} `{TimeLibrary}.

(** X14: if [pg_strftime] keeps to the size it is given, a name built by
    [logfile_getname] has fewer than [MAXPGPATH] characters, whatever
    the directory, the pattern, the suffix and the collector's index:
    the name and its terminator fit the buffer of [MAXPGPATH] bytes. *)
Theorem logfile_getname_fits_buffer (cfg : config) (index timestamp : Z)
    (suffix : option string) :
  0 < MAXPGPATH ->
  (forall maxsize format t, 0 < maxsize -> strlen (pg_strftime maxsize format t) < maxsize) ->
  strlen (logfile_getname cfg index timestamp suffix) < MAXPGPATH.
Proof.
  intros Hmax Hfmt. unfold logfile_getname.
  set (dir := c_trunc MAXPGPATH (String.append (Log_directory cfg) "/")).
  assert (Hdir : strlen dir <= MAXPGPATH - 1).
  { pose proof (strlen_c_trunc MAXPGPATH (String.append (Log_directory cfg) "/")).
    unfold dir. lia. }
  set (f := pg_strftime (MAXPGPATH - strlen dir) (Log_filename cfg) timestamp).
  assert (Hf : strlen f < MAXPGPATH - strlen dir).
  { unfold f. apply Hfmt. lia. }
  set (filename := String.append dir f).
  assert (Hname : strlen filename < MAXPGPATH).
  { unfold filename, strlen in *. rewrite length_append. lia. }
  assert (Hpos : forall s, 0 <= strlen s) by (intros s; unfold strlen; lia).
  destruct suffix as [suffix|]; [|done].
  set (len := if (4 <? strlen filename) && _ then strlen filename - 4 else strlen filename).
  assert (Hlen : 0 <= len < MAXPGPATH).
  { unfold len. destruct (Z.ltb_spec 4 (strlen filename)); simpl.
    - destruct (String.eqb _ _); lia.
    - pose proof (Hpos filename). lia. }
  destruct (String.eqb suffix AUDITLOG_SUFFIX).
  - set (tagged := strlcpy_at filename len _ (MAXPGPATH - len)).
    assert (Htag : strlen tagged < MAXPGPATH).
    { pose proof (strlen_strlcpy_at filename len
                    (c_trunc 10 (String.append "_" (int_to_string index)))
                    (MAXPGPATH - len) ltac:(lia)) as Hb.
      fold tagged in Hb. lia. }
    pose proof (strlen_strlcpy_at tagged (strlen tagged) suffix (MAXPGPATH - strlen tagged)
                  (Hpos _)) as Hb.
    lia.
  - pose proof (strlen_strlcpy_at filename len suffix (MAXPGPATH - len) ltac:(lia)) as Hb.
    lia.
Qed.

(** X15: when nothing is cut for want of room, the name of a log file
    is the directory, a slash, the formatted [Log_filename] without a
    trailing ".log", then for the audit log an underscore and the
    collector's index, then the suffix.  A formatted name that does
    not end in ".log" is kept whole. *)
Theorem logfile_getname_shape (cfg : config) (index timestamp : Z) (suffix base : string) :
  strlen (Log_directory cfg) + 1 < MAXPGPATH ->
  strlen (index_tag suffix index) < 10 ->
  formatted_name cfg timestamp = String.append base ".log"
  \/ (formatted_name cfg timestamp = base
      /\ forall stem, String.append (Log_directory cfg) (String.append "/" base)
                      <> String.append stem ".log") ->
  strlen (Log_directory cfg) + 1 + strlen base + strlen (index_tag suffix index)
    + strlen suffix < MAXPGPATH ->
  logfile_getname cfg index timestamp (Some suffix)
  = String.append (Log_directory cfg)
      (String.append "/"
         (String.append base (String.append (index_tag suffix index) suffix))).
Proof.
  intros Hdir Htag Hbase Hfit. unfold logfile_getname.
  assert (Hslash : strlen (String.append (Log_directory cfg) "/")
                   = strlen (Log_directory cfg) + 1).
  { unfold strlen. rewrite length_append. simpl. lia. }
  rewrite c_trunc_fits by lia. rewrite Hslash.
  replace (MAXPGPATH - (strlen (Log_directory cfg) + 1))
    with (MAXPGPATH - strlen (Log_directory cfg) - 1) by lia.
  fold (formatted_name cfg timestamp).
  set (stem := String.append (Log_directory cfg) (String.append "/" base)).
  assert (Hstem : strlen stem = strlen (Log_directory cfg) + 1 + strlen base).
  { unfold stem, strlen. rewrite !length_append. simpl. lia. }
  assert (Hlen : exists tail,
            String.append (String.append (Log_directory cfg) "/") (formatted_name cfg timestamp)
            = String.append stem tail
            /\ (if (4 <? strlen (String.append stem tail))
                   && String.eqb (String.substring (Z.to_nat (strlen (String.append stem tail) - 4))
                                    4 (String.append stem tail)) ".log"
                then strlen (String.append stem tail) - 4 else strlen (String.append stem tail))
               = strlen stem).
  { destruct Hbase as [Hb|[Hb Hno]].
    - exists ".log"%string. rewrite Hb.
      split; [unfold stem; by rewrite !append_assoc|].
      assert (Hl : strlen (String.append stem ".log") = strlen stem + 4).
      { unfold strlen. rewrite length_append. simpl. lia. }
      rewrite Hl.
      replace (Z.to_nat (strlen stem + 4 - 4)) with (String.length stem)
        by (unfold strlen; lia).
      change (String.substring (String.length stem) 4 (String.append stem ".log"))
        with (String.substring (String.length stem) (String.length ".log")
                (String.append stem ".log")).
      rewrite (substring_end_append stem ".log"), String.eqb_refl.
      assert (0 <= strlen (Log_directory cfg)) by (unfold strlen; lia).
      assert (0 <= strlen base) by (unfold strlen; lia).
      destruct (Z.ltb_spec 4 (strlen stem + 4)); simpl; lia.
    - exists EmptyString. rewrite Hb, append_nil_r.
      split; [unfold stem; by rewrite !append_assoc|].
      destruct (Z.ltb_spec 4 (strlen stem)) as [H4|H4]; [|done]. simpl.
      destruct (String.eqb_spec
                  (String.substring (Z.to_nat (strlen stem - 4)) 4 stem) ".log") as [Heq|Hne];
        [|done].
      exfalso. apply (Hno (String.substring 0 (Z.to_nat (strlen stem - 4)) stem)).
      fold stem. rewrite <- Heq.
      etrans; [apply (substring_split (Z.to_nat (strlen stem - 4)) stem); unfold strlen; lia|].
      f_equal. f_equal. unfold strlen in *. lia. }
  destruct Hlen as (tail & -> & ->).
  assert (Hsuf : 0 <= strlen suffix) by (unfold strlen; lia).
  assert (Hpos : 0 <= strlen (index_tag suffix index)) by (unfold strlen; lia).
  unfold index_tag in *.
  destruct (String.eqb suffix AUDITLOG_SUFFIX).
  - rewrite (c_trunc_fits 10) by done.
    rewrite strlcpy_at_prefix by lia.
    rewrite strlcpy_at_fits.
    + unfold stem. by rewrite !append_assoc.
    + unfold strlen in *. rewrite length_append. lia.
  - rewrite strlcpy_at_prefix by lia.
    unfold stem. by rewrite !append_assoc.
Qed.

End FileNames.

Section FileNameScenarios.
Local Existing Instance sample_headers.
Local Existing Instance sample_time.

Lemma logfile_getname_fits_buffer_witness :
  0 < MAXPGPATH
  /\ (forall maxsize format t, 0 < maxsize -> strlen (pg_strftime maxsize format t) < maxsize)
  /\ strlen (logfile_getname plain_config 0 1020 (Some SYSLOG_SUFFIX)) < MAXPGPATH.
Proof.
  assert (Hmax : 0 < MAXPGPATH) by reflexivity.
  assert (Hfmt : forall maxsize format t, 0 < maxsize ->
            strlen (pg_strftime maxsize format t) < maxsize).
  { intros maxsize format t Hpos. simpl.
    pose proof (strlen_c_trunc maxsize (sample_format format t)). lia. }
  split; [exact Hmax|]. split; [exact Hfmt|].
  exact (logfile_getname_fits_buffer plain_config 0 1020 (Some SYSLOG_SUFFIX) Hmax Hfmt).
Defined.

Lemma logfile_getname_shape_witness :
  strlen (Log_directory audit_config) + 1 < MAXPGPATH
  /\ strlen (index_tag AUDITLOG_SUFFIX 1) < 10
  /\ (formatted_name audit_config 1020 = String.append "pg" ".log"
      \/ (formatted_name audit_config 1020 = "pg"%string
          /\ forall stem, String.append (Log_directory audit_config) (String.append "/" "pg")
                          <> String.append stem ".log"))
  /\ strlen (Log_directory audit_config) + 1 + strlen "pg"
       + strlen (index_tag AUDITLOG_SUFFIX 1) + strlen AUDITLOG_SUFFIX < MAXPGPATH
  /\ logfile_getname audit_config 1 1020 (Some AUDITLOG_SUFFIX) = "log/pg_1_audit.log"%string.
Proof.
  assert (Hdir : strlen (Log_directory audit_config) + 1 < MAXPGPATH) by reflexivity.
  assert (Htag : strlen (index_tag AUDITLOG_SUFFIX 1) < 10) by reflexivity.
  assert (Hbase : formatted_name audit_config 1020 = String.append "pg" ".log"
                  \/ (formatted_name audit_config 1020 = "pg"%string
                      /\ forall stem,
                           String.append (Log_directory audit_config) (String.append "/" "pg")
                           <> String.append stem ".log")).
  { left. vm_compute. reflexivity. }
  assert (Hfit : strlen (Log_directory audit_config) + 1 + strlen "pg"
                 + strlen (index_tag AUDITLOG_SUFFIX 1) + strlen AUDITLOG_SUFFIX < MAXPGPATH)
    by reflexivity.
  split; [exact Hdir|]. split; [exact Htag|]. split; [exact Hbase|]. split; [exact Hfit|].
  exact (logfile_getname_shape audit_config 1 1020 AUDITLOG_SUFFIX "pg" Hdir Htag Hbase Hfit).
Defined.

End FileNameScenarios.


(** ** The postmaster's side *)

Section FileMode.

(** X16: whatever [Log_file_mode] is, the mask [logfile_open] sets for
    the creation of a log file lies within the nine permission bits and
    never masks the owner's write permission; a file created under it
    with permissions [requested] gets exactly those of the requested
    bits that [Log_file_mode] or the owner's write bit hold. *)
Theorem logfile_umask_keeps_owner_write (Log_file_mode requested : Z) :
  0 <= requested < 512 ->
  0 <= logfile_umask Log_file_mode <= 511
  /\ Z.land (logfile_umask Log_file_mode) S_IWUSR = 0
  /\ created_mode requested (logfile_umask Log_file_mode)
     = Z.land requested (Z.lor Log_file_mode S_IWUSR).
Proof.
  intros Hreq. unfold logfile_umask, created_mode, S_IWUSR, S_IRWXU, S_IRWXG, S_IRWXO.
  change (Z.lor 448 (Z.lor 56 7)) with (Z.ones 9).
  split; [|split].
  - rewrite Z.land_ones by lia. pose proof (Z.mod_pos_bound (Z.lnot (Z.lor Log_file_mode 128))
                                              (2 ^ 9) ltac:(lia)). lia.
  - apply Z.bits_inj'. intros n Hn.
    rewrite !Z.land_spec, Z.lnot_spec, Z.lor_spec, Z.bits_0 by lia.
    destruct (Z.testbit 128 n); [|apply andb_false_r].
    by rewrite orb_true_r.
  - replace requested with (Z.land requested (Z.ones 9)) at 1 2.
    + apply Z.bits_inj'. intros n Hn.
      rewrite !Z.land_spec, Z.lnot_spec, !Z.land_spec, Z.lnot_spec, Z.lor_spec by lia.
      destruct (Z.testbit requested n), (Z.testbit (Z.ones 9) n),
        (Z.testbit Log_file_mode n), (Z.testbit 128 n); done.
    + rewrite Z.land_ones by lia. apply Z.mod_small. lia.
Qed.

End FileMode.

Section FileModeScenarios.

Lemma logfile_umask_keeps_owner_write_witness :
  0 <= 438 < 512
  /\ 0 <= logfile_umask 288 <= 511
  /\ Z.land (logfile_umask 288) S_IWUSR = 0
  /\ created_mode 438 (logfile_umask 288) = Z.land 438 (Z.lor 288 S_IWUSR).
Proof.
  assert (Hreq : 0 <= 438 < 512) by lia.
  split; [exact Hreq|].
  exact (logfile_umask_keeps_owner_write 288 438 Hreq).
Defined.

End FileModeScenarios.

Section Start.
Context `{SysloggerHeaders} `{TimeLibrary}.

Lemma logfile_open_ok Log_file_mode fopen filename mode f o :
  logfile_open Log_file_mode fopen filename mode false = (Some f, o) ->
  f = Some {| f_path := filename; f_mode := mode |}
  /\ pm_ios o = [IoOpen filename mode None]
  /\ Forall (fun e => descriptor_call e = false) o.
Proof.
  unfold logfile_open, logfile_open_with_buffer_mode.
  destruct (fopen filename mode) as [e|]; [done|].
  intros [= <- <-]. split; [done|]. split; [done|]. by repeat constructor.
Qed.

Lemma open_if_ok c Log_file_mode env time destination suffix old f o :
  open_if c Log_file_mode env time destination suffix old = (Some f, o) ->
  f = (if dest_enabled c destination
       then Some {| f_path := logfile_getname c 0 time (Some suffix); f_mode := mode_a |}
       else old)
  /\ pm_ios o = (if dest_enabled c destination
                 then [IoOpen (logfile_getname c 0 time (Some suffix)) mode_a None]
                 else [])
  /\ Forall (fun e => descriptor_call e = false) o.
Proof.
  unfold open_if, dest_enabled.
  destruct (negb _).
  - intros Ho. by apply logfile_open_ok in Ho.
  - by intros [= <- <-].
Qed.

Lemma start_channel_failure env inited ch loggerIndex r o :
  start_channel env inited ch loggerIndex = (inr r, o) -> start_state r = None.
Proof.
  unfold start_channel. repeat case_match; intros [= <- _]; done.
Qed.

(** The run of [SysLogger_Start] up to the fork, when it gets there. *)
Lemma SysLogger_Start_fork c Log_file_mode env pm loggerIndex r out pm' :
  SysLogger_Start true c Log_file_mode env pm loggerIndex = (r, out) ->
  start_state r = Some pm' ->
  exists ch o0 before after,
    start_channel env (polar_syslog_channel_is_inited pm) (pm_channels pm) loggerIndex
    = (inl ch, o0)
    /\ out = o0 ++ before ++ [PmFork (s_fork env)] ++ after
    /\ Forall (fun e => descriptor_call e = false) before
    /\ pm_ios before
       = IoMkdir (Log_directory c)
         :: IoOpen (logfile_getname c 0 (s_time env) (Some SYSLOG_SUFFIX)) mode_a None
         :: (if dest_enabled c LOG_DESTINATION_CSVLOG
             then [IoOpen (logfile_getname c 0 (s_time env) (Some ".csv"%string)) mode_a None]
             else [])
         ++ (if dest_enabled c LOG_DESTINATION_JSONLOG
             then [IoOpen (logfile_getname c 0 (s_time env) (Some ".json"%string)) mode_a None]
             else [])
         ++ (if dest_enabled c LOG_DESTINATION_POLAR_SLOWLOG
             then [IoOpen (logfile_getname c 0 (s_time env) (Some SLOWLOG_SUFFIX)) mode_a None]
             else [])
    /\ exists at_fork,
         files_at_fork c (s_time env) pm at_fork
         /\ pm_channels at_fork = ch
         /\ redirection_done at_fork = redirection_done pm
         /\ polar_syslog_channel_is_inited at_fork = true
         /\ ((s_fork env = -1 /\ r = StartForkFailed at_fork
              /\ after = [PmIo (IoLog "could not fork system logger")])
             \/ (s_fork env = 0 /\ r = StartChild at_fork /\ after = [])
             \/ (s_fork env <> -1 /\ s_fork env <> 0
                 /\ exists ch' o,
                      (if negb (redirection_done pm) then redirect env ch loggerIndex
                       else (inl ch, [])) = (inl ch', o)
                      /\ r = StartParent (s_fork env)
                             {| pm_channels := ch'; polar_syslog_channel_is_inited := true;
                                redirection_done := true;
                                first_syslogger_file_time := s_time env;
                                syslogFile := None; csvlogFile := None; jsonlogFile := None;
                                auditlogFile := None; slowlogFile := None |}
                      /\ after = o ++ fclose_if (syslogFile at_fork)
                                 ++ fclose_if (csvlogFile at_fork)
                                 ++ fclose_if (jsonlogFile at_fork)
                                 ++ fclose_if (auditlogFile at_fork)
                                 ++ fclose_if (slowlogFile at_fork))).
Proof.
  unfold SysLogger_Start. cbn [negb].
  destruct (start_channel _ _ _ _) as [[ch|r0] o0] eqn:Hch.
  2: { intros [= <- _] Hst. by rewrite (start_channel_failure _ _ _ _ _ _ Hch) in Hst. }
  destruct (logfile_open _ _ _ _ _) as [[sys|] o_sys] eqn:Hsys; [|by intros [= <- _]].
  apply logfile_open_ok in Hsys as (-> & Hio_sys & Hd_sys).
  destruct (open_if _ _ _ _ LOG_DESTINATION_CSVLOG _ _) as [[csv|] o_csv] eqn:Hcsv;
    [|by intros [= <- _]].
  apply open_if_ok in Hcsv as (-> & Hio_csv & Hd_csv).
  destruct (open_if _ _ _ _ LOG_DESTINATION_JSONLOG _ _) as [[json|] o_json] eqn:Hjson;
    [|by intros [= <- _]].
  apply open_if_ok in Hjson as (-> & Hio_json & Hd_json).
  destruct (open_if _ _ _ _ LOG_DESTINATION_POLAR_SLOWLOG _ _) as [[slow|] o_slow] eqn:Hslow;
    [|by intros [= <- _]].
  apply open_if_ok in Hslow as (-> & Hio_slow & Hd_slow).
  intros Hrun Hst.
  exists ch, o0, ([PmIo (IoMkdir (Log_directory c))] ++ o_sys ++ o_csv ++ o_json ++ o_slow).
  assert (Hbefore : Forall (fun e => descriptor_call e = false)
                      ([PmIo (IoMkdir (Log_directory c))] ++ o_sys ++ o_csv ++ o_json
                       ++ o_slow)).
  { rewrite !Forall_app. split_and!; try done. by repeat constructor. }
  assert (Hios : pm_ios ([PmIo (IoMkdir (Log_directory c))] ++ o_sys ++ o_csv ++ o_json
                         ++ o_slow)
                 = IoMkdir (Log_directory c)
                   :: IoOpen (logfile_getname c 0 (s_time env) (Some SYSLOG_SUFFIX)) mode_a None
                   :: (if dest_enabled c LOG_DESTINATION_CSVLOG
                       then [IoOpen (logfile_getname c 0 (s_time env) (Some ".csv"%string))
                               mode_a None]
                       else [])
                   ++ (if dest_enabled c LOG_DESTINATION_JSONLOG
                       then [IoOpen (logfile_getname c 0 (s_time env) (Some ".json"%string))
                               mode_a None]
                       else [])
                   ++ (if dest_enabled c LOG_DESTINATION_POLAR_SLOWLOG
                       then [IoOpen (logfile_getname c 0 (s_time env) (Some SLOWLOG_SUFFIX))
                               mode_a None]
                       else [])).
  { unfold pm_ios in *. rewrite !omap_app, Hio_sys, Hio_csv, Hio_json, Hio_slow. done. }
  revert Hrun.
  destruct (Z.eqb_spec (s_fork env) (-1)) as [Hf|Hf]; [|destruct (Z.eqb_spec (s_fork env) 0)
    as [Hz|Hz]].
  - intros [= <- <-]. eexists. split; [done|]. split; [by rewrite <- !app_assoc|].
    split; [done|]. split; [done|].
    lazymatch type of Hst with start_state (_ ?x) = _ => exists x end.
    split; [by repeat split|]. split; [done|]. split; [done|]. split; [done|].
    left. done.
  - intros [= <- <-]. eexists. split; [done|]. split; [by rewrite <- !app_assoc, app_nil_r|].
    split; [done|]. split; [done|].
    lazymatch type of Hst with start_state (_ ?x) = _ => exists x end.
    split; [by repeat split|]. split; [done|]. split; [done|]. split; [done|].
    right. left. done.
  - destruct (if negb (redirection_done pm) then _ else _) as [[ch'|r1] o] eqn:Hred.
    + intros [= <- <-]. eexists. split; [done|]. split; [by rewrite <- !app_assoc|].
      split; [done|]. split; [done|].
      exists {| pm_channels := ch; polar_syslog_channel_is_inited := true;
                redirection_done := redirection_done pm;
                first_syslogger_file_time := s_time env;
                syslogFile := Some {| f_path := logfile_getname c 0 (s_time env)
                                                  (Some SYSLOG_SUFFIX);
                                      f_mode := mode_a |};
                csvlogFile :=
                  if dest_enabled c LOG_DESTINATION_CSVLOG
                  then Some {| f_path := logfile_getname c 0 (s_time env) (Some ".csv"%string);
                               f_mode := mode_a |}
                  else csvlogFile pm;
                jsonlogFile :=
                  if dest_enabled c LOG_DESTINATION_JSONLOG
                  then Some {| f_path := logfile_getname c 0 (s_time env) (Some ".json"%string);
                               f_mode := mode_a |}
                  else jsonlogFile pm;
                auditlogFile := auditlogFile pm;
                slowlogFile :=
                  if dest_enabled c LOG_DESTINATION_POLAR_SLOWLOG
                  then Some {| f_path := logfile_getname c 0 (s_time env) (Some SLOWLOG_SUFFIX);
                               f_mode := mode_a |}
                  else slowlogFile pm |}.
      split; [by repeat split|]. split; [done|]. split; [done|]. split; [done|].
      right. right. split; [done|]. split; [done|]. exists ch', o. done.
    + intros [= <- <-]. exfalso. revert Hred Hst. unfold redirect.
      repeat case_match; intros [= <- _]; done.
Qed.


Lemma logfile_getname_index (c : config) (i j t : Z) (suffix : string) :
  i = j \/ suffix <> AUDITLOG_SUFFIX ->
  logfile_getname c i t (Some suffix) = logfile_getname c j t (Some suffix).
Proof.
  intros [->|Hne]; [done|].
  unfold logfile_getname. apply String.eqb_neq in Hne. by rewrite Hne.
Qed.

Local Opaque logfile_getname.

(** X17: the collector that [SysLogger_Start] forks and [SysLoggerMain]
    brings up enters its loop with the file variables in order: the
    stderr file is open, every file name the collector has recomputed
    from the reference time is the path of the stream the postmaster
    (or, for the audit log, the collector) opened, a destination other
    than stderr has a file exactly if it is enabled, and nothing is
    buffered.  The postmaster computes names with index 0, so for a
    collector with another index this needs the audit suffix to differ
    from the other suffixes. *)
Theorem collector_starts_in_order (c : config) (Log_file_mode : Z) (env : start_env)
    (pm pm' : postmaster) (loggerIndex : Z) (out : list pm_call)
    (MyStartTime clock : Z) (audit_open : option errno) (menv : meta_env)
    (st : logger) (out' : list io) :
  csvlogFile pm = None -> jsonlogFile pm = None -> slowlogFile pm = None ->
  loggerIndex = 0
  \/ Forall (fun suffix => suffix <> AUDITLOG_SUFFIX)
       [SYSLOG_SUFFIX; ".csv"; ".json"; SLOWLOG_SUFFIX]%string ->
  SysLogger_Start true c Log_file_mode env pm loggerIndex = (StartChild pm', out) ->
  collector_start c loggerIndex MyStartTime pm' audit_open clock menv = Some (st, out') ->
  slots_ok (slots st)
  /\ (forall d pick, (d, pick) ∈ structured_destinations ->
        file_open (slots st) pick = dest_enabled c d)
  /\ cfg st = c /\ MyLoggerIndex st = loggerIndex
  /\ buffer_lists st = initial_buffer_lists /\ logbuffer st = []
  /\ pipe_eof_seen st = false.
Proof.
  intros Hcsv Hjson Hslow Hsuffix Hstart.
  destruct (SysLogger_Start_fork _ _ _ _ _ _ _ pm' Hstart eq_refl)
    as (ch & o0 & before & after & _ & _ & _ & _ & at_fork & Hfiles & _ & _ & _ & Hr).
  assert (at_fork = pm') as ->.
  { destruct Hr as [(_ & [=] & _)|[(_ & [= ->] & _)|(_ & _ & ch' & o & _ & [=] & _)]]. done. }
  destruct Hfiles as (Ht & Hs & Hc & Hj & Hl & _).
  rewrite Hcsv in Hc. rewrite Hjson in Hj. rewrite Hslow in Hl.
  assert (Hname : forall suffix,
            suffix ∈ [SYSLOG_SUFFIX; ".csv"; ".json"; SLOWLOG_SUFFIX]%string ->
            logfile_getname c loggerIndex (s_time env) (Some suffix)
            = logfile_getname c 0 (s_time env) (Some suffix)).
  { intros suffix Hin. apply logfile_getname_index.
    destruct Hsuffix as [->|Hall]; [by left|right].
    rewrite Forall_forall in Hall. by apply Hall. }
  unfold collector_start, SysLoggerMain_start. rewrite Ht, Hs, Hc, Hj, Hl.
  destruct (dest_enabled c LOG_DESTINATION_POLAR_AUDITLOG) eqn:Haudit.
  - destruct audit_open; [done|]. intros [= <- _].
    lazy beta iota zeta delta [slots cfg MyLoggerIndex buffer_lists logbuffer pipe_eof_seen].
    split; [|split; [|done]].
    + unfold slots_ok, slot_ok, name_if_open.
      lazy beta iota zeta delta [slot_sys slot_csv slot_json slot_audit slot_slow logFile
        last_file_name].
      split; [by eexists|].
      rewrite (Hname SYSLOG_SUFFIX) by (by left).
      rewrite ?(Hname ".csv"%string) by (right; by left).
      rewrite ?(Hname ".json"%string) by (do 2 right; by left).
      rewrite ?(Hname SLOWLOG_SUFFIX) by (do 3 right; by left).
      destruct (dest_enabled c LOG_DESTINATION_CSVLOG),
        (dest_enabled c LOG_DESTINATION_JSONLOG),
        (dest_enabled c LOG_DESTINATION_POLAR_SLOWLOG); by repeat split.
    + intros d pick Hin. unfold structured_destinations in Hin.
      repeat (apply elem_of_cons in Hin as [[= -> ->]|Hin]); [..|by apply elem_of_nil in Hin].
      all: unfold file_open, name_if_open;
        lazy beta iota zeta delta [slot_csv slot_json slot_audit slot_slow logFile].
      all: rewrite ?Haudit; repeat case_match.
      all: try (by apply bool_decide_eq_true).
      all: apply bool_decide_eq_false; by intros [? ?].
  - intros [= <- _].
    lazy beta iota zeta delta [slots cfg MyLoggerIndex buffer_lists logbuffer pipe_eof_seen].
    split; [|split; [|done]].
    + unfold slots_ok, slot_ok, name_if_open.
      lazy beta iota zeta delta [slot_sys slot_csv slot_json slot_audit slot_slow logFile
        last_file_name].
      split; [by eexists|].
      rewrite (Hname SYSLOG_SUFFIX) by (by left).
      rewrite ?(Hname ".csv"%string) by (right; by left).
      rewrite ?(Hname ".json"%string) by (do 2 right; by left).
      rewrite ?(Hname SLOWLOG_SUFFIX) by (do 3 right; by left).
      destruct (dest_enabled c LOG_DESTINATION_CSVLOG),
        (dest_enabled c LOG_DESTINATION_JSONLOG),
        (dest_enabled c LOG_DESTINATION_POLAR_SLOWLOG); by repeat split.
    + intros d pick Hin. unfold structured_destinations in Hin.
      repeat (apply elem_of_cons in Hin as [[= -> ->]|Hin]); [..|by apply elem_of_nil in Hin].
      all: unfold file_open, name_if_open;
        lazy beta iota zeta delta [slot_csv slot_json slot_audit slot_slow logFile].
      all: rewrite ?Haudit; repeat case_match.
      all: try (by apply bool_decide_eq_true).
      all: apply bool_decide_eq_false; by intros [? ?].
Qed.

Local Transparent logfile_getname.

Lemma start_channel_ios env inited ch loggerIndex x o :
  start_channel env inited ch loggerIndex = (x, o) -> pm_ios o = [].
Proof. unfold start_channel. repeat case_match; intros [= _ <-]; done. Qed.

Lemma redirect_ios env ch loggerIndex x o :
  redirect env ch loggerIndex = (x, o) ->
  opened_files (pm_ios o) = [] /\ closed_files (pm_ios o) = [].
Proof. unfold redirect. repeat case_match; intros [= _ <-]; done. Qed.

Lemma pm_ios_app (o1 o2 : list pm_call) : pm_ios (o1 ++ o2) = pm_ios o1 ++ pm_ios o2.
Proof. apply omap_app. Qed.

Lemma fclose_if_ios (f : option FILE) :
  opened_files (pm_ios (fclose_if f)) = []
  /\ closed_files (pm_ios (fclose_if f)) = option_list f.
Proof. by destruct f. Qed.

(** X18: when [SysLogger_Start] returns the pid of a new collector, the
    postmaster holds no log stream: its five file variables are NULL,
    and, if they were NULL when it was called, every stream it opened
    for the collector it has closed again, in the order of opening.
    Stderr is redirected from then on, and the reference time is the
    time of this start. *)
Theorem postmaster_keeps_no_stream (c : config) (Log_file_mode : Z) (env : start_env)
    (pm pm' : postmaster) (loggerIndex pid : Z) (out : list pm_call) :
  no_files pm ->
  SysLogger_Start true c Log_file_mode env pm loggerIndex = (StartParent pid pm', out) ->
  no_files pm'
  /\ redirection_done pm' = true
  /\ first_syslogger_file_time pm' = s_time env
  /\ opened_files (pm_ios out) <> []
  /\ closed_files (pm_ios out) = opened_files (pm_ios out).
Proof.
  intros (_ & Hcsv & Hjson & Haudit & Hslow) Hstart.
  destruct (SysLogger_Start_fork _ _ _ _ _ _ _ pm' Hstart eq_refl)
    as (ch & o0 & before & after & Hch & -> & _ & Hios & at_fork & Hfiles & _ & _ & _ & Hr).
  destruct Hr as [(_ & [=] & _)|[(_ & [=] & _)|(_ & _ & ch' & o & Hred & [= -> ->] & ->)]].
  split; [done|]. split; [done|]. split; [done|].
  destruct Hfiles as (_ & Hs & Hc & Hj & Hl & Ha).
  rewrite Hcsv in Hc. rewrite Hjson in Hj. rewrite Hslow in Hl. rewrite Haudit in Ha.
  assert (Ho : opened_files (pm_ios o) = [] /\ closed_files (pm_ios o) = []).
  { destruct (redirection_done pm); cbn [negb] in Hred.
    - by injection Hred as _ <-.
    - by apply redirect_ios in Hred. }
  destruct Ho as [Ho1 Ho2].
  rewrite !pm_ios_app, !opened_files_app, !closed_files_app.
  rewrite (start_channel_ios _ _ _ _ _ _ Hch), Hios, Ho1, Ho2.
  rewrite Hs, Hc, Hj, Hl, Ha.
  destruct (dest_enabled c LOG_DESTINATION_CSVLOG), (dest_enabled c LOG_DESTINATION_JSONLOG),
    (dest_enabled c LOG_DESTINATION_POLAR_SLOWLOG); done.
Qed.

(** X19: a restart uses the pipe that is there.  When the read end of
    [syslogPipe] is an open descriptor and stderr has been redirected
    before, starting the collector with index 0 again creates no pipe,
    duplicates and closes no descriptor, and leaves both entries of
    [syslogPipe] as they are, whether the call ends in the postmaster,
    in the child or with a failed fork. *)
Theorem restart_reuses_the_pipe (c : config) (Log_file_mode : Z) (env : start_env)
    (pm pm' : postmaster) (r : start_result) (out : list pm_call) :
  0 <= fst (syslogPipe (pm_channels pm)) ->
  redirection_done pm = true ->
  SysLogger_Start true c Log_file_mode env pm 0 = (r, out) ->
  start_state r = Some pm' ->
  syslogPipe (pm_channels pm') = syslogPipe (pm_channels pm)
  /\ Forall (fun e => descriptor_call e = false) out.
Proof.
  intros Hpipe Hdone Hstart Hst.
  destruct (SysLogger_Start_fork _ _ _ _ _ _ _ pm' Hstart Hst)
    as (ch & o0 & before & after & Hch & -> & Hbefore & _ & at_fork & _ & Hat & _ & _ & Hr).
  assert (Hch' : syslogPipe ch = syslogPipe (pm_channels pm) /\ o0 = []).
  { revert Hch. unfold start_channel. cbn [syslogPipe]. rewrite Z.eqb_refl.
    destruct (Z.ltb_spec (fst (syslogPipe (pm_channels pm))) 0); [lia|].
    by intros [= <- <-]. }
  destruct Hch' as [Hsame ->].
  assert (Hclose : forall f, Forall (fun e => descriptor_call e = false) (fclose_if f)).
  { intros [f|]; by repeat constructor. }
  rewrite Hdone in Hr. cbn [negb] in Hr.
  destruct Hr as [(_ & -> & ->)|[(_ & -> & ->)|(_ & _ & ch' & o & [= <- <-] & -> & ->)]];
    injection Hst as <-; cbn [pm_channels]; (split; [congruence|]).
  all: rewrite ?Forall_app; split_and!; try done; by repeat constructor.
Qed.

End Start.

Section StartScenarios.
Local Existing Instance sample_headers.
Local Existing Instance sample_time.

Lemma collector_starts_in_order_witness :
  exists pm' out st out',
    csvlogFile (fresh_postmaster 8) = None /\ jsonlogFile (fresh_postmaster 8) = None
    /\ slowlogFile (fresh_postmaster 8) = None
    /\ (1 = 0 \/ Forall (fun suffix => suffix <> AUDITLOG_SUFFIX)
                   [SYSLOG_SUFFIX; ".csv"; ".json"; SLOWLOG_SUFFIX]%string)
    /\ SysLogger_Start true audit_config 384 (quiet_start 1000 0) (fresh_postmaster 8) 1
       = (StartChild pm', out)
    /\ collector_start audit_config 1 1000 pm' None 1000 meta_ok = Some (st, out')
    /\ slots_ok (slots st)
    /\ (forall d pick, (d, pick) ∈ structured_destinations ->
          file_open (slots st) pick = dest_enabled audit_config d)
    /\ cfg st = audit_config /\ MyLoggerIndex st = 1
    /\ buffer_lists st = initial_buffer_lists /\ logbuffer st = []
    /\ pipe_eof_seen st = false.
Proof.
  assert (Hsuffix : 1 = 0 \/ Forall (fun suffix => suffix <> AUDITLOG_SUFFIX)
                               [SYSLOG_SUFFIX; ".csv"; ".json"; SLOWLOG_SUFFIX]%string).
  { right. repeat constructor; discriminate. }
  assert (Hstart : exists pm' out,
            SysLogger_Start true audit_config 384 (quiet_start 1000 0) (fresh_postmaster 8) 1
            = (StartChild pm', out)).
  { eexists _, _. vm_compute. reflexivity. }
  destruct Hstart as (pm' & out & Hstart).
  assert (Hmain : exists st out',
            collector_start audit_config 1 1000 pm' None 1000 meta_ok = Some (st, out')).
  { revert Hstart. vm_compute. intros [= <- _]. eexists _, _. reflexivity. }
  destruct Hmain as (st & out' & Hmain).
  exists pm', out, st, out'.
  split; [reflexivity|]. split; [reflexivity|]. split; [reflexivity|]. split; [exact Hsuffix|].
  split; [exact Hstart|]. split; [exact Hmain|].
  exact (collector_starts_in_order audit_config 384 (quiet_start 1000 0) (fresh_postmaster 8)
           pm' 1 out 1000 1000 None meta_ok st out' eq_refl eq_refl eq_refl Hsuffix
           Hstart Hmain).
Defined.

Lemma postmaster_keeps_no_stream_witness :
  exists pm' out,
    no_files (fresh_postmaster 8)
    /\ SysLogger_Start true dated_config 384 (quiet_start 1000 4711) (fresh_postmaster 8) 0
       = (StartParent 4711 pm', out)
    /\ no_files pm'
    /\ redirection_done pm' = true
    /\ first_syslogger_file_time pm' = s_time (quiet_start 1000 4711)
    /\ opened_files (pm_ios out) <> []
    /\ closed_files (pm_ios out) = opened_files (pm_ios out).
Proof.
  assert (Hno : no_files (fresh_postmaster 8)) by (by repeat split).
  assert (Hstart : exists pm' out,
            SysLogger_Start true dated_config 384 (quiet_start 1000 4711)
              (fresh_postmaster 8) 0 = (StartParent 4711 pm', out)).
  { eexists _, _. vm_compute. reflexivity. }
  destruct Hstart as (pm' & out & Hstart).
  exists pm', out. split; [exact Hno|]. split; [exact Hstart|].
  exact (postmaster_keeps_no_stream dated_config 384 (quiet_start 1000 4711)
           (fresh_postmaster 8) pm' 0 4711 out Hno Hstart).
Defined.

Lemma restart_reuses_the_pipe_witness :
  exists pm' out,
    0 <= fst (syslogPipe (pm_channels running_postmaster))
    /\ redirection_done running_postmaster = true
    /\ SysLogger_Start true plain_config 384 (quiet_start 1000 4712) running_postmaster 0
       = (StartParent 4712 pm', out)
    /\ start_state (StartParent 4712 pm') = Some pm'
    /\ syslogPipe (pm_channels pm') = syslogPipe (pm_channels running_postmaster)
    /\ Forall (fun e => descriptor_call e = false) out.
Proof.
  assert (Hpipe : 0 <= fst (syslogPipe (pm_channels running_postmaster)))
    by (vm_compute; discriminate).
  assert (Hstart : exists pm' out,
            SysLogger_Start true plain_config 384 (quiet_start 1000 4712)
              running_postmaster 0 = (StartParent 4712 pm', out)).
  { eexists _, _. vm_compute. reflexivity. }
  destruct Hstart as (pm' & out & Hstart).
  exists pm', out. split; [exact Hpipe|]. split; [reflexivity|]. split; [exact Hstart|].
  split; [reflexivity|].
  exact (restart_reuses_the_pipe plain_config 384 (quiet_start 1000 4712) running_postmaster
           pm' (StartParent 4712 pm') out Hpipe eq_refl Hstart eq_refl).
Defined.

End StartScenarios.


(** ** The table of channels *)

Section ChannelTable.
Context `{SysloggerHeaders} `{TimeLibrary}.

(** What [memset_ints] leaves at an index. *)
Lemma memset_ints_lookup (a : list Z) :
  forall (n : Z) (j : nat) (v : Z),
  memset_ints a n !! j = Some v ->
  (4 * Z.of_nat j + 4 <= n -> v = -1)
  /\ (n <= 4 * Z.of_nat j -> a !! j = Some v)
  /\ (4 * Z.of_nat j < n < 4 * Z.of_nat j + 4 ->
      exists old, a !! j = Some old /\ v = memset_int old (n - 4 * Z.of_nat j)).
Proof.
  induction a as [|x a IH]; intros n j v; [done|].
  cbn [memset_ints].
  destruct (Z.leb_spec n 0) as [Hn|Hn].
  { intros Hv. split; [lia|]. split; [done|lia]. }
  destruct (Z.leb_spec 4 n) as [H4|H4].
  - destruct j as [|j].
    + intros [= <-]. split; [done|]. split; lia.
    + intros Hv. cbn [lookup list_lookup] in Hv.
      destruct (IH (n - 4) j v Hv) as (I1 & I2 & I3).
      split; [intros; apply I1; lia|]. split; [intros; apply I2; lia|].
      intros Hb. destruct I3 as (old & Ho & ->); [lia|].
      exists old. split; [done|]. f_equal. lia.
  - destruct j as [|j].
    + intros [= <-]. split; [lia|]. split; [lia|]. intros _. exists x. split; [done|].
      f_equal. lia.
    + intros Hv. split; [lia|]. split; [done|lia].
Qed.

Lemma length_memset_ints (a : list Z) (n : Z) : length (memset_ints a n) = length a.
Proof.
  revert n. induction a as [|x a IH]; intros n; [done|].
  cbn [memset_ints]. repeat case_match; simpl; by rewrite ?IH.
Qed.

Lemma memset_int_zero (k : Z) :
  0 < k < 4 -> memset_int 0 k = 255 \/ memset_int 0 k = 65535 \/ memset_int 0 k = 16777215.
Proof.
  intros Hk. assert (k = 1 \/ k = 2 \/ k = 3) as [->|[->| ->]] by lia; vm_compute; auto.
Qed.

(** The read end of a channel as [SysLogger_Start] finds it in a table
    that has not been set up before and holds zeros, as a static array
    does. *)
Lemma fresh_table_read_end (n : nat) (loggerIndex : Z) :
  0 < loggerIndex -> 2 * loggerIndex + 1 < Z.of_nat n ->
  exists fd,
    table_fd (memset_ints (replicate n 0) (Z.of_nat n)) loggerIndex read_end = Some fd
    /\ (8 * loggerIndex + 4 <= Z.of_nat n -> fd = -1)
    /\ (Z.of_nat n < 8 * loggerIndex + 4 -> 0 <= fd).
Proof.
  intros Hpos Hin. unfold table_fd.
  destruct (Z.ltb_spec loggerIndex 0); [lia|]. cbn [end_index].
  set (j := Z.to_nat (2 * loggerIndex + 0)).
  assert (Hj : (j < length (memset_ints (replicate n 0%Z) (Z.of_nat n)))%nat).
  { rewrite length_memset_ints, length_replicate. lia. }
  destruct (lookup_lt_is_Some_2 _ _ Hj) as [fd Hfd]. exists fd. split; [done|].
  destruct (memset_ints_lookup _ _ _ _ Hfd) as (I1 & I2 & I3).
  split; [intros; apply I1; lia|].
  intros Hout.
  destruct (Z.le_gt_cases (Z.of_nat n) (4 * Z.of_nat j)) as [Hle|Hgt].
  - specialize (I2 Hle). apply lookup_replicate in I2 as [-> _]. done.
  - destruct I3 as (old & Ho & ->); [lia|].
    apply lookup_replicate in Ho as [-> _].
    destruct (memset_int_zero (Z.of_nat n - 4 * Z.of_nat j)) as [->|[->| ->]]; lia.
Qed.

Lemma redirect_read_end env ch loggerIndex ch' o :
  0 < loggerIndex ->
  redirect env ch loggerIndex = (inl ch', o) ->
  table_fd (syslogChannels ch') loggerIndex read_end
  = table_fd (syslogChannels ch) loggerIndex read_end
  /\ Forall (fun e => is_socketpair e = false) o.
Proof.
  intros Hpos. unfold redirect.
  destruct (Z.eqb_spec loggerIndex 0); [lia|].
  destruct (table_fd _ _ write_end) as [w|]; [|done].
  destruct (set_table_fd _ _ _ _) as [table|] eqn:Hset; [|done].
  intros [= <- <-]. cbn [syslogChannels]. split; [|by repeat constructor].
  revert Hset. unfold set_table_fd, table_fd.
  destruct (Z.ltb_spec loggerIndex 0); [lia|].
  destruct (bool_decide _); [|done]. intros [= <-].
  rewrite list_lookup_insert_ne; [done|]. cbn [end_index]. lia.
Qed.

(** X20: the first start of a collector marks only the beginning of the
    table of channels as unused: [memset] is given the number of the
    table's ints as its number of bytes.  In a table of [n] ints that
    holds zeros, a collector with index [i] above 0 gets its socket pair
    if [8 i + 4 <= n]; with a greater index the zero in the table is
    taken for an open descriptor, no socket pair is made, and the read
    end the collector is left with is not below 0. *)
Theorem channel_table_marked_in_part (c : config) (Log_file_mode : Z) (env : start_env)
    (pm pm' : postmaster) (n : nat) (loggerIndex : Z) (r : start_result)
    (out : list pm_call) :
  polar_syslog_channel_is_inited pm = false ->
  syslogChannels (pm_channels pm) = replicate n 0 ->
  0 < loggerIndex -> 2 * loggerIndex + 1 < Z.of_nat n ->
  SysLogger_Start true c Log_file_mode env pm loggerIndex = (r, out) ->
  start_state r = Some pm' ->
  (8 * loggerIndex + 4 <= Z.of_nat n ->
   exists p, s_socketpair env = Some p /\ PmSocketpair loggerIndex (Some p) ∈ out
             /\ table_fd (syslogChannels (pm_channels pm')) loggerIndex read_end
                = Some (fst p))
  /\ (Z.of_nat n < 8 * loggerIndex + 4 ->
      Forall (fun e => is_socketpair e = false) out
      /\ exists fd,
           table_fd (syslogChannels (pm_channels pm')) loggerIndex read_end = Some fd
           /\ 0 <= fd).
Proof.
  intros Hinit Htable Hpos Hin Hstart Hst.
  destruct (SysLogger_Start_fork _ _ _ _ _ _ _ pm' Hstart Hst)
    as (ch & o0 & before & after & Hch & -> & Hbefore & _ & at_fork & _ & Hat & _ & _ & Hr).
  destruct (fresh_table_read_end n loggerIndex Hpos Hin) as (fd & Hfd & Hmarked & Hplain).
  assert (Hbefore' : Forall (fun e => is_socketpair e = false) before).
  { eapply Forall_impl; [exact Hbefore|]. by intros []. }
  assert (Hclose : forall f, Forall (fun e => is_socketpair e = false) (fclose_if f)).
  { intros [f|]; by repeat constructor. }
  (* the state after the fork has the read end the channel block left *)
  assert (Hafter : table_fd (syslogChannels (pm_channels pm')) loggerIndex read_end
                   = table_fd (syslogChannels ch) loggerIndex read_end
                   /\ Forall (fun e => is_socketpair e = false) after).
  { destruct Hr as [(_ & -> & ->)|[(_ & -> & ->)|(_ & _ & ch' & o & Hred & -> & ->)]];
      injection Hst as <-; cbn [pm_channels].
    - rewrite Hat. split; [done|]. by repeat constructor.
    - rewrite Hat. split; [done|]. by repeat constructor.
    - destruct (redirection_done pm); cbn [negb] in Hred.
      + injection Hred as <- <-. split; [done|]. rewrite !Forall_app. by split_and!.
      + apply redirect_read_end in Hred as [Hsame Ho]; [|done].
        split; [done|]. rewrite !Forall_app. by split_and!. }
  destruct Hafter as [Hsame Hafter]. rewrite Hsame.
  revert Hch. unfold start_channel. rewrite Hinit, Htable, length_replicate.
  cbn [syslogPipe syslogChannels].
  destruct (Z.eqb_spec loggerIndex 0); [lia|]. rewrite Hfd. cbn [negb].
  intros Hch. split.
  - intros Hm. revert Hch. rewrite (Hmarked Hm). cbn [Z.ltb Z.compare].
    destruct (s_socketpair env) as [p|]; [|done].
    destruct (set_table_fd _ _ read_end _) as [t1|] eqn:H1; [|done].
    destruct (set_table_fd t1 _ write_end _) as [t2|] eqn:H2; [|done].
    intros [= <- <-]. exists p. split; [done|]. split; [by left|].
    cbn [syslogChannels].
    revert H1 H2. unfold set_table_fd, table_fd.
    destruct (Z.ltb_spec loggerIndex 0); [lia|].
    destruct (bool_decide_reflect
                (Z.to_nat (2 * loggerIndex + end_index read_end)
                 < length (memset_ints (replicate n 0%Z) (Z.of_nat n)))%nat); [|done].
    intros [= <-].
    destruct (bool_decide _); [|done]. intros [= <-].
    rewrite list_lookup_insert_ne by (cbn [end_index]; lia).
    by rewrite list_lookup_insert_eq.
  - intros Hp. specialize (Hplain Hp). revert Hch.
    destruct (Z.ltb_spec fd 0); [lia|].
    intros [= <- <-]. cbn [syslogChannels]. split; [|by exists fd].
    rewrite !Forall_app. split_and!; try done. by repeat constructor.
Qed.


(** *** The descriptors the collector closes *)







End ChannelTable.

Section ChannelTableScenarios.
Local Existing Instance sample_headers.
Local Existing Instance sample_time.

Lemma channel_table_marked_in_part_witness :
  exists pm' out,
    polar_syslog_channel_is_inited (fresh_postmaster 8) = false
    /\ syslogChannels (pm_channels (fresh_postmaster 8)) = replicate 16 0
    /\ 0 < 2 /\ 2 * 2 + 1 < Z.of_nat 16
    /\ SysLogger_Start true audit_config 384 (quiet_start 1000 0) (fresh_postmaster 8) 2
       = (StartChild pm', out)
    /\ start_state (StartChild pm') = Some pm'
    /\ (8 * 2 + 4 <= Z.of_nat 16 ->
        exists p, s_socketpair (quiet_start 1000 0) = Some p
                  /\ PmSocketpair 2 (Some p) ∈ out
                  /\ table_fd (syslogChannels (pm_channels pm')) 2 read_end = Some (fst p))
    /\ (Z.of_nat 16 < 8 * 2 + 4 ->
        Forall (fun e => is_socketpair e = false) out
        /\ exists fd,
             table_fd (syslogChannels (pm_channels pm')) 2 read_end = Some fd /\ 0 <= fd).
Proof.
  assert (Hstart : exists pm' out,
            SysLogger_Start true audit_config 384 (quiet_start 1000 0) (fresh_postmaster 8) 2
            = (StartChild pm', out)).
  { eexists _, _. vm_compute. reflexivity. }
  destruct Hstart as (pm' & out & Hstart).
  assert (Hpos : 0 < 2) by lia.
  assert (Hin : 2 * 2 + 1 < Z.of_nat 16) by (vm_compute; reflexivity).
  exists pm', out. split; [reflexivity|]. split; [reflexivity|]. split; [exact Hpos|].
  split; [exact Hin|]. split; [exact Hstart|]. split; [reflexivity|].
  exact (channel_table_marked_in_part audit_config 384 (quiet_start 1000 0)
           (fresh_postmaster 8) pm' 16 2 (StartChild pm') out eq_refl eq_refl Hpos Hin
           Hstart eq_refl).
Defined.

(** In the table of eight channels the collector with index 1 gets its
    socket pair, the one with index 2 is left with descriptor 0. *)
Example third_collector_reads_descriptor_0 :
  exists pm1 out1 pm2 out2,
    SysLogger_Start true audit_config 384 (quiet_start 1000 0) (fresh_postmaster 8) 1
    = (StartChild pm1, out1)
    /\ table_fd (syslogChannels (pm_channels pm1)) 1 read_end = Some 7
    /\ SysLogger_Start true audit_config 384 (quiet_start 1000 0) (fresh_postmaster 8) 2
       = (StartChild pm2, out2)
    /\ table_fd (syslogChannels (pm_channels pm2)) 2 read_end = Some 0.
Proof. eexists _, _, _, _. split_and!; vm_compute; reflexivity. Qed.


(** The collector with index 1 closes its write end 8 and the two ends
    of the pipe of collector 0, and keeps descriptor 7. *)
Example second_collector_closes_three :
  SysLoggerMain_channels two_collectors 1 2
  = Some ({| syslogPipe := (-1, -1); syslogChannels := [-1; -1; 7; -1; -1; -1; -1; -1] |},
          [PmCloseFd 8; PmCloseFd 5; PmCloseFd 6]).
Proof. vm_compute. reflexivity. Qed.

(** Without that the read end is lost: in the table the partial
    [memset] leaves, the collector with index 2 finds 0 in both entries
    of its row, closes descriptor 0 for the write end, and goes on to
    wait on descriptor 0 as its read end. *)
Example zero_entries_close_the_read_end :
  exists ch' out,
    SysLoggerMain_channels unmarked_channels 2 3 = Some (ch', out)
    /\ GET_LOG_CHANNEL_FD_WITH_INDEX unmarked_channels 2 read_end = Some 0
    /\ PmCloseFd 0 ∈ out
    /\ GET_LOG_CHANNEL_FD_WITH_INDEX ch' 2 read_end = Some 0.
Proof.
  eexists _, _. split; [vm_compute; reflexivity|]. split; [reflexivity|].
  split; [by left|reflexivity].
Qed.

End ChannelTableScenarios.


(** ** Buffers are reused *)

Section Reuse.
Context `{SysloggerHeaders}.

(** A scan that reports neither a buffer of the pid nor an unused one
    saw only buffers in use. *)
Lemma locate_full src l i free :
  locate src l i free = (None, None) ->
  free = None /\ forall j buf, l !! j = Some buf -> sb_pid buf <> 0 /\ sb_pid buf <> src.
Proof.
  revert i free. induction l as [|b l IH]; intros i free; simpl.
  - intros [= ->]. split; [done|]. intros j buf. by rewrite lookup_nil.
  - destruct (Z.eqb_spec (sb_pid b) src) as [Hb|Hb]; [done|].
    intros [Hf Hall]%IH.
    destruct (Z.eqb_spec (sb_pid b) 0) as [Hz|Hz]; simpl in Hf.
    + destruct free; simpl in Hf; done.
    + split; [done|]. intros [|j] buf; simpl; [intros [= <-]; done|by apply Hall].
Qed.

(** What one chunk does to the lists: a list changes its length only
    when a chunk that is not the last one finds every buffer of its list
    in use by another producer, and then by one; a buffer in use after
    the chunk was in use by the same producer before it, or is the
    chunk's. *)
Lemma save_chunk_lists (bl bl' : buffer_lists_t) p payload dest out :
  save_chunk bl p payload dest = Some (bl', out) ->
  forall i l', bl' !! i = Some l' ->
  exists l, bl !! i = Some l
    /\ (forall buf, buf ∈ l' -> sb_pid buf <> 0 ->
          sb_pid buf = pid p /\ Z.land (flags p) PIPE_PROTO_IS_LAST = 0
            /\ i = Z.to_nat (Z.rem (pid p) NBUFFER_LISTS)
          \/ exists old, old ∈ l /\ sb_pid old = sb_pid buf)
    /\ (length l' = length l
        \/ length l' = S (length l)
           /\ i = Z.to_nat (Z.rem (pid p) NBUFFER_LISTS)
           /\ Z.land (flags p) PIPE_PROTO_IS_LAST = 0
           /\ forall j buf, l !! j = Some buf -> sb_pid buf <> 0 /\ sb_pid buf <> pid p).
Proof.
  unfold save_chunk.
  destruct (Z.ltb_spec (Z.rem (pid p) NBUFFER_LISTS) 0) as [|Hrem]; [done|].
  set (idx := Z.to_nat (Z.rem (pid p) NBUFFER_LISTS)).
  destruct (bl !! idx) as [l0|] eqn:Hl0; [|done].
  assert (Hkeep : forall i l', bl !! i = Some l' ->
    exists l, bl !! i = Some l
      /\ (forall buf, buf ∈ l' -> sb_pid buf <> 0 ->
            sb_pid buf = pid p /\ Z.land (flags p) PIPE_PROTO_IS_LAST = 0 /\ i = idx
            \/ exists old, old ∈ l /\ sb_pid old = sb_pid buf)
      /\ (length l' = length l
          \/ length l' = S (length l) /\ i = idx
             /\ Z.land (flags p) PIPE_PROTO_IS_LAST = 0
             /\ forall j buf, l !! j = Some buf -> sb_pid buf <> 0 /\ sb_pid buf <> pid p)).
  { intros i l' Hl'. exists l'. split_and!; [done| |by left].
    intros buf Hin _. right. by exists buf. }
  assert (Hset : forall e new i l',
    (sb_pid new = 0 \/ sb_pid new = pid p /\ Z.land (flags p) PIPE_PROTO_IS_LAST = 0) ->
    <[idx := <[e := new]> l0]> bl !! i = Some l' ->
    exists l, bl !! i = Some l
      /\ (forall buf, buf ∈ l' -> sb_pid buf <> 0 ->
            sb_pid buf = pid p /\ Z.land (flags p) PIPE_PROTO_IS_LAST = 0 /\ i = idx
            \/ exists old, old ∈ l /\ sb_pid old = sb_pid buf)
      /\ (length l' = length l
          \/ length l' = S (length l) /\ i = idx
             /\ Z.land (flags p) PIPE_PROTO_IS_LAST = 0
             /\ forall j buf, l !! j = Some buf -> sb_pid buf <> 0 /\ sb_pid buf <> pid p)).
  { intros e new i l' Hnew [(-> & <- & _)|(_ & Hl')]%list_lookup_insert_Some; [|by apply Hkeep].
    exists l0. split_and!; [done| |left; by rewrite length_insert].
    intros buf [j Hj]%list_elem_of_lookup_1 Hnz.
    destruct (decide (j = e)) as [->|Hne].
    - assert (buf = new) as ->.
      { apply lookup_lt_Some in Hj as Hlt. rewrite length_insert in Hlt.
        rewrite list_lookup_insert_eq in Hj by done. congruence. }
      destruct Hnew as [Hz|[Hp Hf]]; [done|]. left. done.
    - rewrite list_lookup_insert_ne in Hj by done.
      right. exists buf. split; [by eapply list_elem_of_lookup_2|done]. }
  destruct (locate (pid p) l0 0 None) as [existing_slot free_slot] eqn:Hloc.
  destruct (Z.eqb_spec (Z.land (flags p) PIPE_PROTO_IS_LAST) 0) as [Hnl|Hl].
  - destruct existing_slot as [e|].
    + intros [= <- <-] i l'. apply Hset. right. done.
    + destruct free_slot as [f|].
      * intros [= <- <-] i l'. apply Hset. right. done.
      * intros [= <- <-] i l' [(-> & <- & _)|(_ & Hl')]%list_lookup_insert_Some;
          [|by apply Hkeep].
        apply locate_full in Hloc as [_ Hfull].
        exists l0. split_and!; [done| |].
        -- intros buf [Hin|Hin]%elem_of_app _.
           ++ right. by exists buf.
           ++ apply list_elem_of_singleton in Hin as ->. left. done.
        -- right. rewrite length_app. simpl. split_and!; [lia|done..].
  - destruct existing_slot as [e|].
    + intros [= <- <-] i l'. apply Hset. left. done.
    + intros [= <- <-]. apply Hkeep.
Qed.

(** The pids that hash to list [i], among [seen]. *)
Lemma homed_mono (i : nat) (seen more : list Z) :
  (length (remove_dups (filter (fun q => Z.rem q NBUFFER_LISTS = Z.of_nat i) seen))
   <= length (remove_dups (filter (fun q => Z.rem q NBUFFER_LISTS = Z.of_nat i)
                             (seen ++ more))))%nat.
Proof.
  apply submseteq_length, NoDup_submseteq; [apply NoDup_remove_dups|].
  intros x. rewrite !elem_of_remove_dups, !list_elem_of_filter, elem_of_app. tauto.
Qed.

(** The invariant of the run: the producers holding a buffer were seen
    writing a chunk that is not a last one, and no list is longer than
    the number of such producers that hash to it. *)
Lemma save_chunks_lists (cs : list chunk) :
  forall (bl bl' : buffer_lists_t) (seen : list Z) (out : list write_event),
  buffers_ok bl ->
  Forall (fun c => chunk_ok c = true) cs ->
  (forall i l, bl !! i = Some l ->
     (forall buf, buf ∈ l -> sb_pid buf <> 0 -> sb_pid buf ∈ seen)
     /\ (length l
         <= length (remove_dups (filter (fun q => Z.rem q NBUFFER_LISTS = Z.of_nat i) seen)))%nat) ->
  save_chunks bl cs = Some (bl', out) ->
  forall i l, bl' !! i = Some l ->
    (length l
     <= length (remove_dups
                  (filter (fun q => Z.rem q NBUFFER_LISTS = Z.of_nat i)
                     (seen ++ (c_pid <$> filter (fun c => is_last c = false) cs)))))%nat.
Proof.
  induction cs as [|c cs IH]; intros bl bl' seen out Hok Hcs Hinv.
  - intros [= <- <-] i l Hl. rewrite filter_nil, fmap_nil, app_nil_r. by apply Hinv.
  - apply Forall_cons in Hcs as [Hc Hcs]. cbn [save_chunks].
    destruct (save_chunk_chunk bl c Hok Hc) as (bl1 & Hs1 & Hok1 & _).
    rewrite Hs1.
    destruct (save_chunks bl1 cs) as [[bl2 out2]|] eqn:Hrun; [|done].
    intros [= <- <-] i l Hl.
    pose proof (save_chunk_lists _ _ _ _ _ _ Hs1) as Hstep.
    change (pid (header_of c)) with (c_pid c) in Hstep.
    change (flags (header_of c)) with (c_flags c) in Hstep.
    set (more := if is_last c then [] else [c_pid c]).
    assert (Hmore : c_pid <$> filter (fun c => is_last c = false) (c :: cs)
                    = more ++ (c_pid <$> filter (fun c => is_last c = false) cs)).
    { rewrite filter_cons. unfold more. destruct (is_last c); simpl; done. }
    rewrite Hmore, app_assoc.
    apply (IH bl1 bl2 (seen ++ more) out2 Hok1 Hcs); [|done..].
    intros i1 l1 Hl1.
    destruct (Hstep i1 l1 Hl1) as (l0 & Hl0 & Hpids & Hlen).
    destruct (Hinv i1 l0 Hl0) as [Hseen Hbound].
    assert (Hnl : Z.land (c_flags c) PIPE_PROTO_IS_LAST = 0 -> more = [c_pid c]).
    { intros Hz. unfold more, is_last. by rewrite Hz. }
    split.
    + intros buf Hin Hnz. apply elem_of_app.
      destruct (Hpids buf Hin Hnz) as [(Hp & Hz & _)|(old & Hold & Hp)].
      * right. rewrite (Hnl Hz), Hp. by left.
      * left. rewrite <- Hp. apply Hseen; [done|congruence].
    + destruct Hlen as [->|(-> & -> & Hz & Hfull)].
      * etrans; [exact Hbound|apply homed_mono].
      * rewrite (Hnl Hz).
        pose proof Hok as [_ Hb]%buffers_ok_buckets.
        destruct (Hb _ _ Hl0) as [Hhome Huniq].
        pose proof Hc as [_ Hrem]%chunk_ok_rem.
        assert (Hnd : NoDup (c_pid c :: (sb_pid <$> l0))).
        { constructor.
          - intros (buf & Hp & [j Hj]%list_elem_of_lookup_1)%list_elem_of_fmap.
            destruct (Hfull j buf Hj) as [_ Hne]. congruence.
          - apply NoDup_alt. intros j1 j2 q.
            rewrite !list_lookup_fmap.
            intros (b1 & Hb1 & ->)%fmap_Some (b2 & Hb2 & Hq)%fmap_Some.
            apply (Huniq j1 j2 b1 b2 Hb1 Hb2); [done|].
            by destruct (Hfull j1 b1 Hb1). }
        rewrite <- (length_fmap sb_pid l0).
        change (S (length (sb_pid <$> l0))) with (length (c_pid c :: (sb_pid <$> l0))).
        apply submseteq_length, NoDup_submseteq; [done|].
        intros q Hq. rewrite elem_of_remove_dups, list_elem_of_filter, elem_of_app.
        apply elem_of_cons in Hq as [->|(buf & -> & Hin)%list_elem_of_fmap].
        -- split; [|right; by left].
           rewrite Z2Nat.id by lia. done.
        -- apply list_elem_of_lookup_1 in Hin as Hj. destruct Hj as [j Hj].
           destruct (Hfull j buf Hj) as [Hnz _].
           split; [by eapply Hhome|]. left. apply Hseen; [done|done].
Qed.

(** X22: buffers are reused.  Whatever the stream and the way it is cut
    into reads, a list of [buffer_lists] never holds more buffers than
    there are producers hashing to it that wrote a chunk which is not
    the last of its message: a producer's later messages go into a
    buffer that is already there. *)
Theorem buffers_are_reused (cs : list chunk) (reads : list (list byte)) :
  Forall (fun c => chunk_ok c = true) cs ->
  concat reads = stream cs ->
  exists bl' out,
    read_loop initial_buffer_lists [] reads = Done (bl', out, [])
    /\ forall i l, bl' !! i = Some l -> (length l <= length (savers i cs))%nat.
Proof.
  intros Hcs Hreads.
  destruct (save_chunks_spec cs initial_buffer_lists initial_buffers_ok Hcs)
    as (bl' & out & Hrun & _).
  exists bl', out. split.
  - rewrite (read_loop_stream reads cs [] initial_buffer_lists Hcs); [by rewrite Hrun| |done].
    by left.
  - intros i l Hl. unfold savers.
    apply (save_chunks_lists cs initial_buffer_lists bl' [] out initial_buffers_ok Hcs);
      [|done..].
    intros i0 l0 [-> _]%lookup_replicate. split; [|simpl; lia].
    intros buf Hin. by apply elem_of_nil in Hin.
Qed.

End Reuse.

Section ReuseScenarios.
Local Existing Instance sample_headers.

Lemma buffers_are_reused_witness :
  Forall (fun c => chunk_ok c = true) three_messages
  /\ concat [take 15 (stream three_messages); drop 15 (stream three_messages)]
     = stream three_messages
  /\ exists bl' out,
       read_loop initial_buffer_lists []
         [take 15 (stream three_messages); drop 15 (stream three_messages)]
       = Done (bl', out, [])
       /\ forall i l, bl' !! i = Some l -> (length l <= length (savers i three_messages))%nat.
Proof.
  assert (Hok : Forall (fun c => chunk_ok c = true) three_messages).
  { repeat constructor. }
  assert (Hcat : concat [take 15 (stream three_messages); drop 15 (stream three_messages)]
                 = stream three_messages).
  { reflexivity. }
  split; [exact Hok|]. split; [exact Hcat|].
  exact (buffers_are_reused _ _ Hok Hcat).
Defined.

(** The three messages of pid 7 leave one buffer in list 7. *)
Example three_messages_one_buffer :
  savers 7 three_messages = [7]
  /\ exists bl' out,
       read_loop initial_buffer_lists [] [stream three_messages] = Done (bl', out, [])
       /\ length <$> bl' !! 7%nat = Some 1%nat.
Proof.
  split; [reflexivity|]. eexists _, _. split; vm_compute; reflexivity.
Qed.

End ReuseScenarios.


(** ** The ways out of the main loop *)

Section LeavingTheLoop.
Context `{SysloggerHeaders} `{TimeLibrary}.








End LeavingTheLoop.

Section LeavingTheLoopScenarios.
Local Existing Instance sample_headers.
Local Existing Instance sample_time.



End LeavingTheLoopScenarios.
